(** * TranslationEvaluator: a shallow embedding and its verification

    Source: [sentence_transformers/evaluation/TranslationEvaluator.py].

    The evaluator receives two aligned lists of sentences, asks an external
    encoder for their embeddings, builds the cosine-similarity matrix, and
    counts in both directions how often a sentence is nearest to its own
    translation.

    Modelling choices.
    - Tensor and array entries (embeddings, similarity scores) are real
      numbers [R]: the idealisation of the floating-point values the
      libraries compute.  The two accuracies and the returned score, which
      Python obtains by true division of small integers, are exact
      rationals [Q].
    - Statements run in a state-and-exception monad over a [World] that holds
      the file system, the console, the logger, the record of the calls made
      to the encoder, and the set of paths that can be opened for writing.
    - The encoder is a function that returns its tensors or raises; opening
      a file fails on a path that cannot be written.
    - Library routines (numpy, torch, sklearn, csv, os.path) are embedded by
      the behaviour their documentation gives, on lists of rows. *)

From Stdlib Require Import Reals Lra QArith ZArith Ascii String Sorted Permutation.
From stdpp Require Import gmap strings list fin_maps.
Import ListNotations.

Local Open Scope string_scope.
Local Open Scope list_scope.
Local Open Scope nat_scope.

(** ** Python exceptions and the evaluation monad *)

Inductive PyError : Type :=
| AssertionError
| ZeroDivisionError
| IndexError
| ValueError
| RuntimeError
| OSError.

Inductive Exc (A : Type) : Type :=
| Ok (a : A)
| Raise (e : PyError).
Arguments Ok {A} a.
Arguments Raise {A} e.

(** One cell of a CSV row.  [csv.writer] turns each into text; the cells are
    kept structured here. *)
Inductive Cell : Type :=
| CStr (s : string)
| CInt (z : Z)
| CFloat (q : Q).

Definition Row : Type := list Cell.

(** The text appended to the first log line. *)
Inductive OutTxt : Type :=
| AfterEpoch (epoch : Z)                       (* " after epoch {}:" *)
| InEpochAfterSteps (epoch steps : Z)          (* " in epoch {} after {} steps:" *)
| Colon.                                       (* ":" *)

(** Records sent to [logger.info]. *)
Inductive LogRecord : Type :=
| LogEvaluating (name : string) (out_txt : OutTxt)
| LogAccSrc2Trg (percent : Q)
| LogAccTrg2Src (percent : Q)
| LogSimilarity.

(** Lines sent to the console by [print]. *)
Inductive Line : Type :=
| PMismatch (i j : nat) (verdict : string)
| PSrc (sentence : string)
| PTrg (sentence : string)
| PScores (argmax_score correct_score : R)
| PCandidate (idx : nat) (score : R) (sentence : string)
| PCosine (v : list R)
| PManhattan (v : list R)
| PEuclidean (v : list R)
| PDot (v : list R).

(** One call to [model.encode]: the sentences and the three keyword
    arguments. *)
Record EncodeCall : Type := mkEncodeCall {
  ec_sentences : list string;
  ec_show_progress_bar : bool;
  ec_batch_size : Z;
  ec_convert_to_numpy : bool
}.

(** [writable] holds the paths that the operating system lets the process
    open for writing: the directory is there and may be written to. *)
Record World : Type := mkWorld {
  fs : gmap string (list Row);
  stdout : list Line;
  logs : list LogRecord;
  encoded : list EncodeCall;
  writable : gset string
}.

Definition M (A : Type) : Type := World → Exc A * World.

Definition ret {A} (a : A) : M A := λ w, (Ok a, w).

Definition bind {A B} (m : M A) (k : A → M B) : M B :=
  λ w, match m w with
       | (Ok a, w') => k a w'
       | (Raise e, w') => (Raise e, w')
       end.

Definition lift {A} (r : Exc A) : M A := λ w, (r, w).

Declare Scope py_scope.
Delimit Scope py_scope with py.
Notation "x <- m ;; k" := (bind m (λ x, k))
  (at level 100, m at next level, right associativity) : py_scope.
Notation "m ;;; k" := (bind m (λ _, k))
  (at level 100, right associativity) : py_scope.
Local Open Scope py_scope.

(** [for x in xs: acc = body x acc] *)
Fixpoint for_each {A S} (body : A → S → M S) (xs : list A) (acc : S) : M S :=
  match xs with
  | [] => ret acc
  | x :: xs' => acc' <- body x acc ;; for_each body xs' acc'
  end.

Definition logger_info (r : LogRecord) : M unit :=
  λ w, (Ok tt, mkWorld (fs w) (stdout w) (logs w ++ [r]) (encoded w)
                       (writable w)).

Definition print (l : Line) : M unit :=
  λ w, (Ok tt, mkWorld (fs w) (stdout w ++ [l]) (logs w) (encoded w)
                       (writable w)).

(** The world after some more lines have reached the console. *)
Definition add_stdout (lines : list Line) (w : World) : World :=
  mkWorld (fs w) (stdout w ++ lines) (logs w) (encoded w) (writable w).

(** ** Python built-ins *)

(** [l[i]] for a non-negative index. *)
Definition py_getitem {A} (l : list A) (i : nat) : Exc A :=
  match l !! i with
  | Some x => Ok x
  | None => Raise IndexError
  end.

(** [a / b] on two integers: true division. *)
Definition py_truediv (a b : nat) : Exc Q :=
  match b with
  | O => Raise ZeroDivisionError
  | S _ => Ok (Z.of_nat a # Pos.of_nat b)
  end.

(** [range(n)] *)
Definition range (n : nat) : list nat := seq 0 n.

(** [zip(range(len(row)), row)] *)
Definition enumerate {A} (row : list A) : list (nat * A) :=
  zip (range (length row)) row.

(** ** numpy on lists of rows *)

Section Numpy.
Context {Score : Type}.
(** [gtb x y] is the comparison [x > y] of two entries. *)
Variable gtb : Score → Score → bool.

(** [np.argmax]: one left-to-right pass that moves to a later index only
    on a strictly larger entry. *)
Fixpoint argmax_loop (best_i : nat) (best : Score) (i : nat)
         (l : list Score) : nat :=
  match l with
  | [] => best_i
  | x :: l' =>
      if gtb x best then argmax_loop i x (S i) l'
      else argmax_loop best_i best (S i) l'
  end.

Definition np_argmax (row : list Score) : Exc nat :=
  match row with
  | [] => Raise ValueError
  | x :: l => Ok (argmax_loop 0 x 1 l)
  end.

(** [m.T] for a two-dimensional array. *)
Fixpoint np_transpose (m : list (list Score)) : list (list Score) :=
  match m with
  | [] => []
  | [r] => map (λ x, [x]) r
  | r :: m' => zip_with cons r (np_transpose m')
  end.

(** [sorted(results, key=lambda x: x[1], reverse=True)]: a stable sort by
    descending score.  An entry is placed in front of the first entry that
    is not strictly larger than it. *)
Fixpoint insert_desc (p : nat * Score) (l : list (nat * Score))
  : list (nat * Score) :=
  match l with
  | [] => [p]
  | q :: l' =>
      if gtb (snd q) (snd p) then q :: insert_desc p l'
      else p :: q :: l'
  end.

Definition sorted_desc (l : list (nat * Score)) : list (nat * Score) :=
  foldr insert_desc [] l.

End Numpy.

(** ** Real-valued entries *)

Definition Rgtb (x y : R) : bool := if Rlt_dec y x then true else false.

Definition Reqb (x y : R) : bool := if Req_dec_T x y then true else false.

(** [np.dot] of two one-dimensional arrays of the same length. *)
Definition np_dot (a b : list R) : R := foldr Rplus 0%R (zip_with Rmult a b).

(** Euclidean norm of a row. *)
Definition row_norm (a : list R) : R := sqrt (np_dot a a).

(** [array.reshape(1, -1)] of an array of rows: one row holding all entries
    in row-major order. *)
Definition reshape_1 (a : list (list R)) : list (list R) := [concat a].

(** ** torch *)

(** [torch.stack]: the tensors must be at least one and of one shape. *)
Definition torch_stack (ts : list (list R)) : Exc (list (list R)) :=
  match ts with
  | [] => Raise RuntimeError
  | t :: ts' =>
      if forallb (λ u, Nat.eqb (length u) (length t)) ts' then Ok ts
      else Raise RuntimeError
  end.

(** Modelled from the spec: [util.pytorch_cos_sim], which is imported from
    the package's [util] module and is not part of the evaluator's file.
    "Cosine similarity is the dot product of the two vectors divided by the
    product of their Euclidean norms; defined as 0 when either norm is 0." *)
Definition cosine (a b : list R) : R :=
  if Reqb (row_norm a) 0 || Reqb (row_norm b) 0 then 0%R
  else (np_dot a b / (row_norm a * row_norm b))%R.

(** Modelled from the spec: entry [i][j] of the matrix is the cosine
    similarity of source embedding [i] and target embedding [j]. *)
Definition pytorch_cos_sim (a b : list (list R)) : list (list R) :=
  map (λ x, map (λ y, cosine x y) b) a.

(** ** sklearn.metrics.pairwise *)

Module Sklearn.
(** [check_array]: a two-dimensional array needs at least one sample (row)
    and at least one feature (column).  The entries are real numbers here,
    so the check for NaN and infinite entries has nothing to refuse. *)
Definition check_array (X : list (list R)) : Exc unit :=
  if (0 <? length X) && forallb (λ row, 0 <? length row) X then Ok tt
  else Raise ValueError.

(** [check_paired_arrays]: each array passes [check_array], and both have
    the same shape. *)
Definition check_paired_arrays (X Y : list (list R)) : Exc unit :=
  match check_array X, check_array Y with
  | Ok _, Ok _ =>
      if bool_decide (map length X = map length Y) then Ok tt
      else Raise ValueError
  | Raise e, _ => Raise e
  | _, Raise e => Raise e
  end.

(** [normalize]: each row divided by its norm, a zero norm counting as 1. *)
Definition normalize_row (x : list R) : list R :=
  let n := if Reqb (row_norm x) 0 then 1%R else row_norm x in
  map (λ v, (v / n)%R) x.

Definition row_diff (x y : list R) : list R := zip_with Rminus x y.

Definition cosine_distance (x y : list R) : R :=
  let d := row_diff (normalize_row x) (normalize_row y) in
  (0.5 * np_dot d d)%R.

Definition manhattan_distance (x y : list R) : R :=
  foldr Rplus 0%R (map Rabs (row_diff x y)).

Definition euclidean_distance (x y : list R) : R :=
  row_norm (row_diff x y).

Definition paired (metric : list R → list R → R) (X Y : list (list R))
  : Exc (list R) :=
  match check_paired_arrays X Y with
  | Ok _ => Ok (zip_with metric X Y)
  | Raise e => Raise e
  end.

Definition paired_cosine_distances := paired cosine_distance.
Definition paired_manhattan_distances := paired manhattan_distance.
Definition paired_euclidean_distances := paired euclidean_distance.
End Sklearn.

(** ** os.path and csv *)

Fixpoint ends_with_sep (s : string) : bool :=
  match s with
  | EmptyString => false
  | String c EmptyString => bool_decide (c = "/"%char)
  | String _ s' => ends_with_sep s'
  end.

Definition starts_with_sep (s : string) : bool :=
  match s with
  | String c _ => bool_decide (c = "/"%char)
  | EmptyString => false
  end.

(** [os.path.join(a, b)] on a POSIX system. *)
Definition os_path_join (a b : string) : string :=
  if starts_with_sep b then b
  else if bool_decide (a = "") || ends_with_sep a then a +:+ b
  else a +:+ "/" +:+ b.

Definition os_path_isfile (p : string) : M bool :=
  λ w, (Ok (bool_decide (is_Some (fs w !! p))), w).

(** [open(p, mode="w")] creates or truncates; [mode="a"] keeps the content
    and creates the file when it is missing.  Either fails with an [OSError]
    ([FileNotFoundError], [PermissionError], ...) when the path cannot be
    opened for writing, and then no file is created or changed. *)
Inductive OpenMode : Type := ModeW | ModeA.

Definition py_open (p : string) (mode : OpenMode) : M unit :=
  λ w, if bool_decide (p ∈ writable w) then
         let content := match mode with
                        | ModeW => []
                        | ModeA => default [] (fs w !! p)
                        end in
         (Ok tt, mkWorld (<[p := content]> (fs w)) (stdout w) (logs w)
                         (encoded w) (writable w))
       else (Raise OSError, w).

(** [csv.writer(f).writerow(row)] on the file opened at [p]. *)
Definition writerow (p : string) (row : Row) : M unit :=
  λ w, (Ok tt, mkWorld (<[p := default [] (fs w !! p) ++ [row]]> (fs w))
                       (stdout w) (logs w) (encoded w) (writable w)).

(** ** The encoder *)

(** The external model: [encode(sentences, show_progress_bar, batch_size,
    convert_to_numpy)] returns a list of tensors or raises.  A record field
    is a function, so every encoder is deterministic. *)
Record SentenceEncoder : Type := mkEncoder {
  encode : list string → bool → Z → bool → Exc (list (list R))
}.

(** The call [model.encode(...)]: the call is made, then its result or its
    exception comes back. *)
Definition model_encode (model : SentenceEncoder) (sentences : list string)
           (show_progress_bar : bool) (batch_size : Z) (convert_to_numpy : bool)
  : M (list (list R)) :=
  λ w, (encode model sentences show_progress_bar batch_size convert_to_numpy,
        mkWorld (fs w) (stdout w) (logs w)
                (encoded w ++ [mkEncodeCall sentences show_progress_bar
                                            batch_size convert_to_numpy])
                (writable w)).

(** The tensors an encoder returns for some sentences, none if it raises. *)
Definition embeddings (model : SentenceEncoder) (sentences : list string)
           (show_progress_bar : bool) (batch_size : Z) : list (list R) :=
  match encode model sentences show_progress_bar batch_size false with
  | Ok tensors => tensors
  | Raise _ => []
  end.

(** ** The evaluator *)

Record TranslationEvaluator : Type := mkEvaluator {
  source_sentences : list string;
  target_sentences : list string;
  name : string;
  batch_size : Z;
  show_progress_bar : bool;
  print_wrong_matches : bool;
  csv_file : string;
  csv_headers : list string;
  write_csv : bool
}.

Definition py_assert (b : bool) : M unit :=
  if b then ret tt else lift (Raise AssertionError).

(** [TranslationEvaluator.__init__] *)
Definition __init__ (source_sentences target_sentences : list string)
           (show_progress_bar : bool) (batch_size : Z) (name : string)
           (print_wrong_matches write_csv : bool) : M TranslationEvaluator :=
  py_assert (bool_decide (length source_sentences = length target_sentences)) ;;;
  let name' := if bool_decide (name = "") then name else "_" +:+ name in
  ret (mkEvaluator source_sentences target_sentences name batch_size
                   show_progress_bar print_wrong_matches
                   ("translation_evaluation" +:+ name' +:+ "_results.csv")
                   ["epoch"; "steps"; "src2trg"; "trg2src"]
                   write_csv).

(** The body of [elif self.print_wrong_matches:] (source lines 79 to 87). *)
Definition report_wrong_match (self : TranslationEvaluator)
           (cos_sims : list (list R)) (i max_idx : nat) : M unit :=
  print (PMismatch i max_idx
           (if bool_decide (i ≠ max_idx) then "INCORRECT" else "CORRECT")) ;;;
  src <- lift (py_getitem (source_sentences self) i) ;;
  print (PSrc src) ;;;
  trg <- lift (py_getitem (target_sentences self) max_idx) ;;
  print (PTrg trg) ;;;
  row <- lift (py_getitem cos_sims i) ;;
  top <- lift (py_getitem row max_idx) ;;
  own <- lift (py_getitem row i) ;;
  print (PScores top own) ;;;
  let results := sorted_desc Rgtb (enumerate row) in
  for_each (λ '(idx, score) _,
              cand <- lift (py_getitem (target_sentences self) idx) ;;
              print (PCandidate idx score cand))
           (take 5 results) tt.

(** One turn of the first loop (source lines 73 to 87). *)
Definition src2trg_step (self : TranslationEvaluator)
           (cos_sims : list (list R)) (i correct_src2trg : nat) : M nat :=
  row <- lift (py_getitem cos_sims i) ;;
  max_idx <- lift (np_argmax Rgtb row) ;;
  if bool_decide (i = max_idx) then ret (S correct_src2trg)
  else if print_wrong_matches self then
         report_wrong_match self cos_sims i max_idx ;;; ret correct_src2trg
       else ret correct_src2trg.

(** One turn of the second loop (source lines 92 to 95). *)
Definition trg2src_step (cos_sims : list (list R)) (i correct_trg2src : nat)
  : M nat :=
  row <- lift (py_getitem cos_sims i) ;;
  max_idx <- lift (np_argmax Rgtb row) ;;
  if bool_decide (i = max_idx) then ret (S correct_trg2src)
  else ret correct_trg2src.

(** Source lines 139 to 147. *)
Definition write_results (self : TranslationEvaluator)
           (output_path : option string) (epoch steps : Z)
           (acc_src2trg acc_trg2src : Q) : M unit :=
  match output_path with
  | Some output_path =>
      if write_csv self then
        let csv_path := os_path_join output_path (csv_file self) in
        output_file_exists <- os_path_isfile csv_path ;;
        py_open csv_path (if output_file_exists then ModeA else ModeW) ;;;
        (if negb output_file_exists
         then writerow csv_path (map CStr (csv_headers self))
         else ret tt) ;;;
        writerow csv_path [CInt epoch; CInt steps;
                           CFloat acc_src2trg; CFloat acc_trg2src]
      else ret tt
  | None => ret tt
  end.

(** [TranslationEvaluator.__call__] *)
Definition __call__ (self : TranslationEvaluator) (model : SentenceEncoder)
           (output_path : option string) (epoch steps : Z) : M Q :=
  let out_txt :=
    if bool_decide (epoch ≠ (-1)%Z) then
      if bool_decide (steps = (-1)%Z) then AfterEpoch epoch
      else InEpochAfterSteps epoch steps
    else Colon in
  logger_info (LogEvaluating (name self) out_txt) ;;;
  embeddings1 <- model_encode model (source_sentences self)
                   (show_progress_bar self) (batch_size self) false ;;
  embeddings2 <- model_encode model (target_sentences self)
                   (show_progress_bar self) (batch_size self) false ;;
  stacked1 <- lift (torch_stack embeddings1) ;;
  stacked2 <- lift (torch_stack embeddings2) ;;
  let cos_sims := pytorch_cos_sim stacked1 stacked2 in
  correct_src2trg <- for_each (src2trg_step self cos_sims)
                       (range (length cos_sims)) 0%nat ;;
  let cos_sims := np_transpose cos_sims in
  correct_trg2src <- for_each (trg2src_step cos_sims)
                       (range (length cos_sims)) 0%nat ;;
  acc_src2trg <- lift (py_truediv correct_src2trg (length cos_sims)) ;;
  acc_trg2src <- lift (py_truediv correct_trg2src (length cos_sims)) ;;
  logger_info (LogAccSrc2Trg (acc_src2trg * 100)) ;;;
  logger_info (LogAccTrg2Src (acc_trg2src * 100)) ;;;
  logger_info LogSimilarity ;;;
  let embeddings1 := reshape_1 embeddings1 in
  let embeddings2 := reshape_1 embeddings2 in
  cosine_distances <- lift (Sklearn.paired_cosine_distances embeddings1 embeddings2) ;;
  let cosine_scores := map (λ d, (1 - d)%R) cosine_distances in
  manhattan <- lift (Sklearn.paired_manhattan_distances embeddings1 embeddings2) ;;
  let manhattan_distances := map Ropp manhattan in
  euclidean <- lift (Sklearn.paired_euclidean_distances embeddings1 embeddings2) ;;
  let euclidean_distances := map Ropp euclidean in
  let dot_products := zip_with np_dot embeddings1 embeddings2 in
  print (PCosine cosine_scores) ;;;
  print (PManhattan manhattan_distances) ;;;
  print (PEuclidean euclidean_distances) ;;;
  print (PDot dot_products) ;;;
  write_results self output_path epoch steps acc_src2trg acc_trg2src ;;;
  ret ((acc_src2trg + acc_trg2src) / 2)%Q.

(** [k] evaluation calls in a row on one evaluator and one output path, each
    with its own model, epoch and steps. *)
Fixpoint call_sequence (self : TranslationEvaluator)
         (output_path : option string)
         (calls : list (SentenceEncoder * Z * Z)) : M (list Q) :=
  match calls with
  | [] => ret []
  | (model, epoch, steps) :: rest =>
      score <- __call__ self model output_path epoch steps ;;
      scores <- call_sequence self output_path rest ;;
      ret (score :: scores)
  end.

(** ** Test doubles for the encoder *)

(** An encoder given by a table from sentences to vectors; the table may
    look at the [show_progress_bar] argument. *)
Definition table_encoder (table : string → bool → list R) : SentenceEncoder :=
  mkEncoder (λ sentences show_progress_bar _ _,
               Ok (map (λ s, table s show_progress_bar) sentences)).

(** An encoder that raises on every call. *)
Definition failing_encoder (e : PyError) : SentenceEncoder :=
  mkEncoder (λ _ _ _ _, Raise e).

(** Sentence ["a"] is sent to [[1]] and every other sentence to [[-1]]. *)
Definition sign_table (s : string) (_ : bool) : list R :=
  [if String.eqb s "a" then 1%R else (-1)%R].

(** Every sentence is sent to the vector without entries. *)
Definition empty_table (_ : string) (_ : bool) : list R := [].

(** Sentence ["a"] is sent to the zero vector [[0]] and every other
    sentence to [[1]]. *)
Definition zero_table (s : string) (_ : bool) : list R :=
  [if String.eqb s "a" then 0%R else 1%R].

(** No file, nothing printed or logged, and no path that can be written. *)
Definition empty_world : World := mkWorld ∅ [] [] [] ∅.

(** The same, with a writable directory ["out"] for the unnamed evaluator. *)
Definition out_world : World :=
  mkWorld ∅ [] [] [] {[ "out/translation_evaluation_results.csv" ]}.

(** The evaluator [__init__] builds from two sentence lists for batch size
    16, no name and [write_csv] on. *)
Definition pair_evaluator (src trg : list string)
           (show_progress_bar print_wrong_matches : bool)
  : TranslationEvaluator :=
  mkEvaluator src trg "" 16 show_progress_bar print_wrong_matches
              "translation_evaluation_results.csv"
              ["epoch"; "steps"; "src2trg"; "trg2src"] true.

(** The sentences ["a"] and ["b"] against themselves. *)
Definition ab_evaluator (show_progress_bar print_wrong_matches : bool)
  : TranslationEvaluator :=
  pair_evaluator ["a"; "b"] ["a"; "b"] show_progress_bar print_wrong_matches.

(** ** What the evaluation is meant to compute

    The definitions of module [Spec] follow the description of the
    evaluation, not its code; the theorems compare the two. *)

Module Spec.

Section Retrieval.
Context {Score : Type}.
Variable gtb : Score → Score → bool.

(** [k] is the first index achieving the maximum of [row]: no entry is
    greater than [row[k]], and [row[k]] is greater than every entry in
    front of it. *)
Definition first_max_indexb (row : list Score) (k : nat) : bool :=
  match row !! k with
  | Some xk =>
      forallb (λ xj, negb (gtb xj xk)) row
      && forallb (λ xj, gtb xk xj) (take k row)
  | None => false
  end.

(** Row [i] is a match when its first maximum sits on the diagonal. *)
Definition is_match (m : list (list Score)) (i : nat) : bool :=
  match m !! i with
  | Some row => first_max_indexb row i
  | None => false
  end.

Definition matches (m : list (list Score)) : list nat :=
  List.filter (is_match m) (seq 0 (length m)).

Definition mismatches (m : list (list Score)) : list nat :=
  List.filter (λ i, negb (is_match m i)) (seq 0 (length m)).

(** The same, over the positions of the row. *)
Definition first_max_index (row : list Score) (k : nat) : Prop :=
  ∃ xk, row !! k = Some xk
    ∧ (∀ j xj, row !! j = Some xj → gtb xj xk = false)
    ∧ (∀ j xj, j < k → row !! j = Some xj → gtb xk xj = true).

(** Ranking order of two candidates: the score does not increase, and on
    equal scores the index increases. *)
Definition ranked_before (p q : nat * Score) : Prop :=
  gtb (snd q) (snd p) = false
  ∧ (gtb (snd p) (snd q) = false → fst p < fst q).

(** The candidates are listed by increasing index. *)
Definition index_increasing (l : list (nat * Score)) : Prop :=
  StronglySorted (λ p q, fst p < fst q) l.

(** Accuracy = matches / N. *)
Definition accuracy (m : list (list Score)) : Q :=
  Z.of_nat (length (matches m)) # Pos.of_nat (length m).
End Retrieval.

(** The encoder contract: the encoder returns one vector per sentence, in
    order, all of one dimension [D >= 1]. *)
Definition encoder_contract (model : SentenceEncoder) : Prop :=
  ∃ D : nat, 0 < D ∧ ∀ sentences spb bs ctn, ∃ vectors,
    encode model sentences spb bs ctn = Ok vectors
    ∧ length vectors = length sentences
    ∧ Forall (λ v, length v = D) vectors.

(** The encoder maps text to vectors: what it returns does not depend on
    whether a progress bar is shown. *)
Definition ignores_progress_bar (model : SentenceEncoder) : Prop :=
  ∀ sentences spb spb' bs ctn,
    encode model sentences spb bs ctn = encode model sentences spb' bs ctn.

(** The similarity matrix of an evaluation. *)
Definition similarity_matrix (self : TranslationEvaluator)
           (model : SentenceEncoder) : list (list R) :=
  pytorch_cos_sim
    (embeddings model (source_sentences self) (show_progress_bar self)
                (batch_size self))
    (embeddings model (target_sentences self) (show_progress_bar self)
                (batch_size self)).

Definition acc_src2trg (self : TranslationEvaluator) (model : SentenceEncoder)
  : Q := accuracy Rgtb (similarity_matrix self model).

Definition acc_trg2src (self : TranslationEvaluator) (model : SentenceEncoder)
  : Q := accuracy Rgtb (np_transpose (similarity_matrix self model)).

(** The console block of one source-to-target miss at row [i]. *)
Definition wrong_match_block (self : TranslationEvaluator)
           (cos_sims : list (list R)) (i : nat) : list Line :=
  let row := default [] (cos_sims !! i) in
  let j := match np_argmax Rgtb row with Ok j => j | Raise _ => 0%nat end in
  [ PMismatch i j "INCORRECT";
    PSrc (default "" (source_sentences self !! i));
    PTrg (default "" (target_sentences self !! j));
    PScores (default 0%R (row !! j)) (default 0%R (row !! i)) ]
  ++ map (λ c, PCandidate (fst c) (snd c)
                 (default "" (target_sentences self !! fst c)))
         (take 5 (sorted_desc Rgtb (enumerate row))).

Definition wrong_match_report (self : TranslationEvaluator)
           (cos_sims : list (list R)) : list Line :=
  if print_wrong_matches self
  then concat (map (wrong_match_block self cos_sims) (mismatches Rgtb cos_sims))
  else [].

(** The four diagnostic lines, each over the two flattened embedding sets. *)
Definition diagnostics (embeddings1 embeddings2 : list (list R)) : list Line :=
  let x := concat embeddings1 in
  let y := concat embeddings2 in
  [ PCosine [(1 - Sklearn.cosine_distance x y)%R];
    PManhattan [(- Sklearn.manhattan_distance x y)%R];
    PEuclidean [(- Sklearn.euclidean_distance x y)%R];
    PDot [np_dot x y] ].

Definition header_row : Row :=
  [CStr "epoch"; CStr "steps"; CStr "src2trg"; CStr "trg2src"].

Definition data_row (self : TranslationEvaluator)
           (call : SentenceEncoder * Z * Z) : Row :=
  let '(model, epoch, steps) := call in
  [CInt epoch; CInt steps;
   CFloat (acc_src2trg self model); CFloat (acc_trg2src self model)].

(** The file an evaluation writes to, if any. *)
Definition results_path (self : TranslationEvaluator)
           (output_path : option string) : option string :=
  match output_path with
  | Some dir =>
      if write_csv self then Some (os_path_join dir (csv_file self)) else None
  | None => None
  end.

(** The results file, if there is to be one, can be opened for writing. *)
Definition can_write (self : TranslationEvaluator)
           (output_path : option string) (w : World) : Prop :=
  ∀ p, results_path self output_path = Some p → p ∈ writable w.

(** The file system after one evaluation. *)
Definition fs_after (self : TranslationEvaluator) (output_path : option string)
           (call : SentenceEncoder * Z * Z) (files : gmap string (list Row))
  : gmap string (list Row) :=
  match output_path with
  | Some dir =>
      if write_csv self then
        let p := os_path_join dir (csv_file self) in
        <[p := default [header_row] (files !! p) ++ [data_row self call]]> files
      else files
  | None => files
  end.

Definition out_txt_of (epoch steps : Z) : OutTxt :=
  if bool_decide (epoch = (-1)%Z) then Colon
  else if bool_decide (steps = (-1)%Z) then AfterEpoch epoch
       else InEpochAfterSteps epoch steps.

(** The world when an evaluation gets to its diagnostics: the encoder has
    been called twice, the wrong matches are reported and the accuracies are
    logged. *)
Definition world_before_diagnostics (self : TranslationEvaluator)
           (call : SentenceEncoder * Z * Z) (w : World) : World :=
  let '(model, epoch, steps) := call in
  mkWorld
    (fs w)
    (stdout w ++ wrong_match_report self (similarity_matrix self model))
    (logs w ++ [ LogEvaluating (name self) (out_txt_of epoch steps);
                 LogAccSrc2Trg (acc_src2trg self model * 100);
                 LogAccTrg2Src (acc_trg2src self model * 100);
                 LogSimilarity ])
    (encoded w ++ [ mkEncodeCall (source_sentences self) (show_progress_bar self)
                                 (batch_size self) false;
                    mkEncodeCall (target_sentences self) (show_progress_bar self)
                                 (batch_size self) false ])
    (writable w).

(** The world when an evaluation gets to its results file: everything is
    printed and logged, no file is touched yet. *)
Definition world_before_write (self : TranslationEvaluator)
           (call : SentenceEncoder * Z * Z) (w : World) : World :=
  let '(model, epoch, steps) := call in
  let e1 := embeddings model (source_sentences self) (show_progress_bar self)
                       (batch_size self) in
  let e2 := embeddings model (target_sentences self) (show_progress_bar self)
                       (batch_size self) in
  mkWorld
    (fs w)
    (stdout w ++ wrong_match_report self (similarity_matrix self model)
            ++ diagnostics e1 e2)
    (logs w ++ [ LogEvaluating (name self) (out_txt_of epoch steps);
                 LogAccSrc2Trg (acc_src2trg self model * 100);
                 LogAccTrg2Src (acc_trg2src self model * 100);
                 LogSimilarity ])
    (encoded w ++ [ mkEncodeCall (source_sentences self) (show_progress_bar self)
                                 (batch_size self) false;
                    mkEncodeCall (target_sentences self) (show_progress_bar self)
                                 (batch_size self) false ])
    (writable w).

(** The world after one evaluation that returns. *)
Definition world_after (self : TranslationEvaluator)
           (output_path : option string) (call : SentenceEncoder * Z * Z)
           (w : World) : World :=
  let w' := world_before_write self call w in
  mkWorld (fs_after self output_path call (fs w))
          (stdout w') (logs w') (encoded w') (writable w').

(** The returned score. *)
Definition score (self : TranslationEvaluator) (model : SentenceEncoder) : Q :=
  ((acc_src2trg self model + acc_trg2src self model) / 2)%Q.

(** What the description asks of an evaluation of zero sentences: a
    defined accuracy of 0, or an error the evaluator raises on purpose.  The
    one error the evaluator raises itself, and the one its description names,
    is the assertion error. *)
Definition guarded_empty_outcome (r : Exc Q) : Prop :=
  r = Ok 0%Q ∨ r = Raise AssertionError.

End Spec.

(** ** Observing an evaluation

    Ways to say what a statement does to the world and what it returns,
    whatever its outcome. *)

(** Every run of [m] takes the world to one related to it by [R]. *)
Definition respects {A} (R : World → World → Prop) (m : M A) : Prop :=
  ∀ w, R w (snd (m w)).

(** Every run of [m] that raises takes the world to one related by [R]. *)
Definition raises_respect {A} (R : World → World → Prop) (m : M A) : Prop :=
  ∀ w e, fst (m w) = Raise e → R w (snd (m w)).

(** Every value [m] returns satisfies [P]. *)
Definition ensures {A} (P : A → Prop) (m : M A) : Prop :=
  ∀ w a w', m w = (Ok a, w') → P a.

(** No run of [m] raises [e]. *)
Definition never_raises {A} (e : PyError) (m : M A) : Prop :=
  ∀ w, fst (m w) ≠ Raise e.



(** The two worlds agree on the observation [obs]. *)
Definition same {B} (obs : World → B) (w w' : World) : Prop := obs w' = obs w.

(** The log has only grown. *)
Definition log_grows (w w' : World) : Prop := logs w `prefix_of` logs w'.

(** [torch.stack] accepts the tensors. *)
Definition stackable (ts : list (list R)) : Prop :=
  ts ≠ [] ∧ ∃ D, Forall (λ v, length v = D) ts.

(** The two calls [__call__] makes to the encoder. *)
Definition encode_calls (self : TranslationEvaluator) : list EncodeCall :=
  [ mkEncodeCall (source_sentences self) (show_progress_bar self)
                 (batch_size self) false;
    mkEncodeCall (target_sentences self) (show_progress_bar self)
                 (batch_size self) false ].

(** ** Shapes of a similarity matrix *)

(** Entry [(i, j)] of a matrix. *)
Definition entry (m : list (list R)) (i j : nat) : option R :=
  m !! i ≫= (λ row, row !! j).

(** Every diagonal entry is strictly the largest of its row. *)
Definition diagonal_tops_rows (m : list (list R)) : Prop :=
  ∀ i j d x, i ≠ j → entry m i i = Some d → entry m i j = Some x → (x < d)%R.

(** Every diagonal entry is strictly the largest of its column. *)
Definition diagonal_tops_columns (m : list (list R)) : Prop :=
  ∀ i j d x, i ≠ j → entry m i i = Some d → entry m j i = Some x → (x < d)%R.

(** Every diagonal entry is strictly below some entry of its row. *)
Definition diagonal_beaten_in_rows (m : list (list R)) : Prop :=
  ∀ i d, entry m i i = Some d → ∃ j x, entry m i j = Some x ∧ (d < x)%R.

(** Every diagonal entry is strictly below some entry of its column. *)
Definition diagonal_beaten_in_columns (m : list (list R)) : Prop :=
  ∀ i d, entry m i i = Some d → ∃ j x, entry m j i = Some x ∧ (d < x)%R.

(** * Verification *)

(** ** The first maximum of a row *)

Section ArgmaxFacts.
Context {Score : Type}.
Variable gtb : Score → Score → bool.
Hypothesis gtb_irrefl : ∀ x, gtb x x = false.
Hypothesis gtb_trans : ∀ x y z, gtb x y = true → gtb y z = true → gtb x z = true.
Hypothesis gtb_negtrans :
  ∀ x y z, gtb x y = false → gtb y z = false → gtb x z = false.

Lemma first_max_indexb_spec (row : list Score) (k : nat) :
  Spec.first_max_indexb gtb row k = true ↔ Spec.first_max_index gtb row k.
Proof.
  unfold Spec.first_max_indexb, Spec.first_max_index.
  destruct (row !! k) as [xk|] eqn:Hk.
  - rewrite andb_true_iff, !forallb_forall. split.
    + intros [Hmax Hfirst]. exists xk. split; [done|]. split.
      * intros j xj Hj. apply negb_true_iff, Hmax.
        apply list_elem_of_In. eapply list_elem_of_lookup_2; eauto.
      * intros j xj Hlt Hj. apply Hfirst.
        apply list_elem_of_In. apply list_elem_of_lookup. exists j.
        rewrite lookup_take_lt; auto.
    + intros (xk' & Heq & Hmax & Hfirst). injection Heq as <-. split.
      * intros xj Hin. apply list_elem_of_In, list_elem_of_lookup in Hin.
        destruct Hin as [j Hj]. apply negb_true_iff. eauto.
      * intros xj Hin. apply list_elem_of_In, list_elem_of_lookup in Hin.
        destruct Hin as [j Hj].
        apply lookup_take_Some in Hj as [Hj Hlt]. eauto.
  - split; [done|]. intros (xk & Heq & _). done.
Qed.

Lemma first_max_index_unique (row : list Score) (k k' : nat) :
  Spec.first_max_index gtb row k → Spec.first_max_index gtb row k' → k = k'.
Proof using Type.
  intros (xk & Hk & Hmax & Hfirst) (xk' & Hk' & Hmax' & Hfirst').
  destruct (Nat.lt_trichotomy k k') as [Hlt | [Heq | Hlt]]; [|done|].
  - specialize (Hfirst' _ _ Hlt Hk). specialize (Hmax _ _ Hk'). congruence.
  - specialize (Hfirst _ _ Hlt Hk'). specialize (Hmax' _ _ Hk). congruence.
Qed.

Lemma argmax_loop_spec (l pre : list Score) (best_i : nat) (best : Score) :
  pre !! best_i = Some best →
  (∀ j xj, pre !! j = Some xj → gtb xj best = false) →
  (∀ j xj, j < best_i → pre !! j = Some xj → gtb best xj = true) →
  Spec.first_max_index gtb (pre ++ l)
    (argmax_loop gtb best_i best (length pre) l).
Proof using gtb_irrefl gtb_trans gtb_negtrans.
  revert pre best_i best.
  induction l as [|x l IH]; intros pre best_i best Hbest Hmax Hfirst; simpl.
  - rewrite app_nil_r. exists best. auto.
  - replace (pre ++ x :: l) with ((pre ++ [x]) ++ l) by (by rewrite <- app_assoc).
    replace (S (length pre)) with (length (pre ++ [x]))
      by (rewrite length_app; simpl; lia).
    destruct (gtb x best) eqn:Hx.
    + replace (length pre) with (length pre + 0) at 1 by lia.
      apply IH.
      * rewrite Nat.add_0_r. by rewrite list_lookup_middle.
      * intros j xj Hj. apply lookup_app_Some in Hj as [Hj | [Hge Hj]].
        -- destruct (gtb xj x) eqn:Hjx; [|done].
           pose proof (gtb_trans _ _ _ Hjx Hx) as Ht.
           rewrite (Hmax _ _ Hj) in Ht. done.
        -- destruct (j - length pre) as [|n] eqn:Hd; simpl in Hj; [|done].
           injection Hj as <-. apply gtb_irrefl.
      * intros j xj Hlt Hj. rewrite Nat.add_0_r in Hlt.
        rewrite lookup_app_l in Hj by done.
        destruct (gtb x xj) eqn:Hxj; [done|].
        rewrite (gtb_negtrans _ _ _ Hxj (Hmax _ _ Hj)) in Hx. done.
    + apply IH.
      * rewrite lookup_app_l; [done|]. by eapply lookup_lt_Some.
      * intros j xj Hj. apply lookup_app_Some in Hj as [Hj | [Hge Hj]]; [eauto|].
        destruct (j - length pre) as [|n] eqn:Hd; simpl in Hj; [|done].
        by injection Hj as <-.
      * intros j xj Hlt Hj. apply (Hfirst j); [done|].
        rewrite lookup_app_l in Hj; [done|].
        apply lookup_lt_Some in Hbest. lia.
Qed.

(** [np.argmax] returns the first index achieving the maximum. *)
Lemma np_argmax_first_max (row : list Score) (k : nat) :
  np_argmax gtb row = Ok k → Spec.first_max_index gtb row k.
Proof using gtb_irrefl gtb_trans gtb_negtrans.
  destruct row as [|x l]; simpl; [done|]. intros [= <-].
  apply (argmax_loop_spec l [x] 0 x).
  - done.
  - intros [|j] xj Hj; simpl in Hj; [|done]. injection Hj as <-. apply gtb_irrefl.
  - intros j xj Hlt. lia.
Qed.

Lemma np_argmax_nonempty (row : list Score) :
  row ≠ [] → ∃ k, np_argmax gtb row = Ok k.
Proof using Type. destruct row; [done|]. simpl. eauto. Qed.

Lemma np_argmax_is_match (row : list Score) (i k : nat) :
  np_argmax gtb row = Ok k →
  Spec.first_max_indexb gtb row i = bool_decide (i = k).
Proof using gtb_irrefl gtb_trans gtb_negtrans.
  intros Hk. apply np_argmax_first_max in Hk.
  case_bool_decide as Hik.
  - subst. by apply first_max_indexb_spec.
  - apply not_true_is_false. intros Hi. apply first_max_indexb_spec in Hi.
    apply Hik. eapply first_max_index_unique; eauto.
Qed.
End ArgmaxFacts.

(** ** The comparison of real scores *)

Lemma Rgtb_true (x y : R) : Rgtb x y = true ↔ (y < x)%R.
Proof. unfold Rgtb. destruct (Rlt_dec y x); split; auto; discriminate. Qed.

Lemma Rgtb_false (x y : R) : Rgtb x y = false ↔ (x <= y)%R.
Proof.
  unfold Rgtb. destruct (Rlt_dec y x); split; try lra; auto; discriminate.
Qed.

Lemma Rgtb_irrefl (x : R) : Rgtb x x = false.
Proof. apply Rgtb_false. lra. Qed.

Lemma Rgtb_trans (x y z : R) : Rgtb x y = true → Rgtb y z = true → Rgtb x z = true.
Proof. rewrite !Rgtb_true. lra. Qed.

Lemma Rgtb_negtrans (x y z : R) :
  Rgtb x y = false → Rgtb y z = false → Rgtb x z = false.
Proof. rewrite !Rgtb_false. lra. Qed.

Lemma Reqb_true (x y : R) : Reqb x y = true ↔ x = y.
Proof. unfold Reqb. destruct (Req_dec_T x y); split; auto; discriminate. Qed.

Lemma Reqb_false (x y : R) : x ≠ y → Reqb x y = false.
Proof. intros Hne. unfold Reqb. by destruct (Req_dec_T x y). Qed.

Lemma np_argmax_is_match_R (row : list R) (i k : nat) :
  np_argmax Rgtb row = Ok k →
  Spec.first_max_indexb Rgtb row i = bool_decide (i = k).
Proof.
  apply np_argmax_is_match;
    [apply Rgtb_irrefl | apply Rgtb_trans | apply Rgtb_negtrans].
Qed.

Lemma np_argmax_lt (row : list R) (k : nat) :
  np_argmax Rgtb row = Ok k → k < length row.
Proof.
  intros Hk.
  apply (np_argmax_first_max Rgtb Rgtb_irrefl Rgtb_trans Rgtb_negtrans) in Hk.
  destruct Hk as (xk & Hk & _). by eapply lookup_lt_Some.
Qed.

(** ** The similarity matrix *)

Lemma np_dot_comm (a b : list R) : np_dot a b = np_dot b a.
Proof.
  unfold np_dot. revert b. induction a as [|x a IH]; intros [|y b]; simpl; auto.
  rewrite IH. lra.
Qed.

Lemma cosine_comm (a b : list R) : cosine a b = cosine b a.
Proof.
  unfold cosine. rewrite orb_comm.
  destruct (Reqb (row_norm b) 0 || Reqb (row_norm a) 0); [done|].
  rewrite np_dot_comm. f_equal. lra.
Qed.

Lemma pytorch_cos_sim_length (a b : list (list R)) :
  length (pytorch_cos_sim a b) = length a.
Proof. unfold pytorch_cos_sim. by rewrite length_map. Qed.

Lemma pytorch_cos_sim_lookup (a b : list (list R)) (i : nat) :
  pytorch_cos_sim a b !! i = (λ x, map (λ y, cosine x y) b) <$> a !! i.
Proof. unfold pytorch_cos_sim. apply list_lookup_fmap. Qed.

Lemma pytorch_cos_sim_rows (a b : list (list R)) :
  Forall (λ row, length row = length b) (pytorch_cos_sim a b).
Proof.
  unfold pytorch_cos_sim. apply Forall_forall. intros row Hin.
  apply list_elem_of_fmap in Hin as (x & -> & _). by rewrite length_map.
Qed.

Lemma zip_with_cons_map {A B} (f : A → B) (g : A → list B) (l : list A) :
  zip_with cons (map f l) (map g l) = map (λ y, f y :: g y) l.
Proof. induction l as [|x l IH]; simpl; [done|]. by rewrite IH. Qed.

(** Swapping the two embedding sets transposes the matrix. *)
Lemma pytorch_cos_sim_swap (a b : list (list R)) :
  a ≠ [] → np_transpose (pytorch_cos_sim a b) = pytorch_cos_sim b a.
Proof.
  unfold pytorch_cos_sim.
  induction a as [|x a IH]; [done|]. intros _.
  destruct a as [|x' a].
  - simpl. rewrite map_map. apply map_ext. intros y. by rewrite cosine_comm.
  - change (np_transpose (map (λ x0, map (λ y, cosine x0 y) b) (x :: x' :: a)))
      with (zip_with cons (map (λ y, cosine x y) b)
              (np_transpose (map (λ x0, map (λ y, cosine x0 y) b) (x' :: a)))).
    rewrite IH by done. rewrite zip_with_cons_map.
    apply map_ext. intros y. simpl. by rewrite !(cosine_comm y).
Qed.

(** ** The stable descending sort *)

Section SortFacts.
Context {Score : Type}.
Variable gtb : Score → Score → bool.
Hypothesis gtb_irrefl : ∀ x, gtb x x = false.
Hypothesis gtb_trans : ∀ x y z, gtb x y = true → gtb y z = true → gtb x z = true.
Hypothesis gtb_negtrans :
  ∀ x y z, gtb x y = false → gtb y z = false → gtb x z = false.

Lemma gtb_asym (x y : Score) : gtb x y = true → gtb y x = false.
Proof using gtb_irrefl gtb_trans.
  intros Hxy. destruct (gtb y x) eqn:Hyx; [|done].
  rewrite <- (gtb_irrefl x). symmetry. eauto.
Qed.

Lemma insert_desc_perm (p : nat * Score) (l : list (nat * Score)) :
  Permutation (insert_desc gtb p l) (p :: l).
Proof using Type.
  induction l as [|q l IH]; simpl; [done|].
  destruct (gtb (snd q) (snd p)); [|done].
  rewrite IH. apply perm_swap.
Qed.

Lemma sorted_desc_perm (l : list (nat * Score)) :
  Permutation (sorted_desc gtb l) l.
Proof using Type.
  induction l as [|p l IH]; simpl; [done|].
  rewrite insert_desc_perm. by constructor.
Qed.

Lemma insert_desc_sorted (p : nat * Score) (l : list (nat * Score)) :
  StronglySorted (Spec.ranked_before gtb) l →
  Forall (λ q, fst p < fst q) l →
  StronglySorted (Spec.ranked_before gtb) (insert_desc gtb p l).
Proof using gtb_irrefl gtb_trans gtb_negtrans.
  induction l as [|q l IH]; intros Hs Hidx; simpl.
  - repeat constructor.
  - apply StronglySorted_inv in Hs as [Hs Hq].
    apply Forall_cons in Hidx as [Hpq Hidx].
    destruct (gtb (snd q) (snd p)) eqn:Hcmp.
    + constructor; [by apply IH|].
      rewrite (insert_desc_perm p l). constructor; [|done].
      split; [by apply gtb_asym | congruence].
    + constructor; [by constructor|].
      constructor; [by split|].
      rewrite Forall_forall in Hq, Hidx |- *. intros x Hx. split.
      * destruct (Hq x Hx) as [Hxq _]. eauto.
      * intros _. by apply Hidx.
Qed.

Lemma sorted_desc_sorted (l : list (nat * Score)) :
  Spec.index_increasing l → StronglySorted (Spec.ranked_before gtb) (sorted_desc gtb l).
Proof using gtb_irrefl gtb_trans gtb_negtrans.
  induction 1 as [|p l Hs IH Hp]; simpl; [constructor|].
  apply insert_desc_sorted; [done|]. by rewrite (sorted_desc_perm l).
Qed.

Lemma zip_seq_increasing (row : list Score) (s : nat) :
  Spec.index_increasing (zip (seq s (length row)) row).
Proof using Type.
  revert s. induction row as [|x row IH]; intros s; simpl; [constructor|].
  constructor; [apply IH|].
  apply Forall_forall. intros [j y] Hin. simpl.
  apply list_elem_of_lookup in Hin as [i Hi].
  apply lookup_zip_with_Some in Hi as (j' & y' & [= -> ->] & Hj & _).
  apply lookup_seq in Hj. lia.
Qed.

Lemma enumerate_increasing (row : list Score) : Spec.index_increasing (enumerate row).
Proof using Type. apply zip_seq_increasing. Qed.

Lemma enumerate_lookup (row : list Score) (i : nat) (c : nat * Score) :
  enumerate row !! i = Some c ↔ fst c = i ∧ row !! i = Some (snd c).
Proof using Type.
  unfold enumerate, range. destruct c as [j x]. simpl. split.
  - intros Hi. apply lookup_zip_with_Some in Hi as (j' & y' & [= -> ->] & Hj & Hx).
    apply lookup_seq in Hj. by destruct Hj as [-> _].
  - intros [-> Hx]. apply lookup_zip_with_Some. exists i, x.
    split; [done|]. split; [|done].
    apply lookup_seq. split; [done|]. by eapply lookup_lt_Some.
Qed.

Lemma sorted_desc_enumerate_elem (row : list Score) (c : nat * Score) :
  c ∈ sorted_desc gtb (enumerate row) ↔ row !! fst c = Some (snd c).
Proof using Type.
  rewrite (sorted_desc_perm (enumerate row)). rewrite list_elem_of_lookup. split.
  - intros [i Hi]. apply enumerate_lookup in Hi as [<- Hx]. done.
  - intros Hx. exists (fst c). by apply enumerate_lookup.
Qed.
End SortFacts.

(** ** Running the statements of the evaluation *)

Lemma add_stdout_nil (w : World) : add_stdout [] w = w.
Proof. destruct w. unfold add_stdout. simpl. by rewrite app_nil_r. Qed.

Lemma add_stdout_app (l1 l2 : list Line) (w : World) :
  add_stdout l2 (add_stdout l1 w) = add_stdout (l1 ++ l2) w.
Proof. unfold add_stdout. simpl. by rewrite app_assoc. Qed.

Lemma print_run (l : Line) (w : World) : print l w = (Ok tt, add_stdout [l] w).
Proof. reflexivity. Qed.

Lemma py_getitem_lookup {A} (l : list A) (i : nat) (x : A) :
  l !! i = Some x → py_getitem l i = Ok x.
Proof. unfold py_getitem. by intros ->. Qed.

Lemma py_getitem_default {A} (l : list A) (i : nat) (d : A) :
  i < length l → py_getitem l i = Ok (default d (l !! i)).
Proof.
  intros Hlt. destruct (lookup_lt_is_Some_2 l i Hlt) as [x Hx].
  rewrite (py_getitem_lookup _ _ _ Hx), Hx. done.
Qed.

Lemma print_candidates_run (trg : list string) (cands : list (nat * R)) (w : World) :
  Forall (λ c, fst c < length trg) cands →
  for_each (λ '(idx, score) _,
              cand <- lift (py_getitem trg idx) ;;
              print (PCandidate idx score cand)) cands tt w
  = (Ok tt,
     add_stdout (map (λ c, PCandidate (fst c) (snd c) (default "" (trg !! fst c)))
                     cands) w).
Proof.
  revert w. induction cands as [|[idx sc] cands IH]; intros w Hall.
  - simpl. unfold ret. by rewrite add_stdout_nil.
  - apply Forall_cons in Hall as [Hlt Hall]. simpl in Hlt.
    cbn [for_each]. unfold bind at 1.
    unfold bind at 1, lift at 1.
    rewrite (py_getitem_default trg idx "" Hlt), print_run.
    rewrite IH by done. rewrite add_stdout_app. done.
Qed.

Lemma report_wrong_match_run (self : TranslationEvaluator)
      (cos_sims : list (list R)) (row : list R) (i j : nat) (w : World) :
  cos_sims !! i = Some row →
  np_argmax Rgtb row = Ok j →
  i ≠ j →
  i < length (source_sentences self) →
  i < length row →
  length row = length (target_sentences self) →
  report_wrong_match self cos_sims i j w
  = (Ok tt, add_stdout (Spec.wrong_match_block self cos_sims i) w).
Proof.
  intros Hrow Hj Hne Hsrc Hown Hlen.
  pose proof (np_argmax_lt _ _ Hj) as Hjlt.
  unfold report_wrong_match, Spec.wrong_match_block.
  rewrite Hrow. cbv zeta. cbn [from_option Datatypes.id]. rewrite Hj.
  rewrite bool_decide_eq_true_2 by done.
  unfold bind at 1. rewrite print_run.
  unfold bind at 1, lift at 1.
  rewrite (py_getitem_default _ i "" Hsrc).
  unfold bind at 1. rewrite print_run.
  unfold bind at 1, lift at 1.
  rewrite (py_getitem_default (target_sentences self) j "") by lia.
  unfold bind at 1. rewrite print_run.
  unfold bind at 1, lift at 1. rewrite (py_getitem_lookup _ _ _ Hrow).
  unfold bind at 1, lift at 1. rewrite (py_getitem_default row j 0%R Hjlt).
  unfold bind at 1, lift at 1. rewrite (py_getitem_default row i 0%R Hown).
  unfold bind at 1. rewrite print_run.
  rewrite print_candidates_run.
  - rewrite !add_stdout_app. done.
  - apply Forall_forall. intros c Hc.
    apply elem_of_take in Hc as (n & Hc & _).
    apply list_elem_of_lookup_2 in Hc.
    apply sorted_desc_enumerate_elem in Hc.
    apply lookup_lt_Some in Hc. lia.
Qed.

Lemma is_match_argmax (cos_sims : list (list R)) (row : list R) (i j : nat) :
  cos_sims !! i = Some row → np_argmax Rgtb row = Ok j →
  Spec.is_match Rgtb cos_sims i = bool_decide (i = j).
Proof.
  intros Hrow Hj. unfold Spec.is_match. rewrite Hrow.
  by apply np_argmax_is_match_R.
Qed.

Lemma row_argmax (cos_sims : list (list R)) (i width : nat) :
  i < length cos_sims → 0 < width →
  Forall (λ row, length row = width) cos_sims →
  ∃ row j, cos_sims !! i = Some row ∧ np_argmax Rgtb row = Ok j
           ∧ length row = width.
Proof.
  intros Hi Hw Hrows.
  destruct (lookup_lt_is_Some_2 _ _ Hi) as [row Hrow].
  rewrite Forall_lookup in Hrows. specialize (Hrows _ _ Hrow).
  destruct (np_argmax_nonempty Rgtb row) as [j Hj].
  { intros ->. simpl in Hrows. lia. }
  eauto.
Qed.

(** The first loop counts the matches and prints the report. *)
Lemma src2trg_loop_run (self : TranslationEvaluator) (cos_sims : list (list R))
      (idxs : list nat) (c : nat) (w : World) :
  length (source_sentences self) = length cos_sims →
  Forall (λ row, length row = length (target_sentences self)) cos_sims →
  (length cos_sims ≤ length (target_sentences self))%nat →
  Forall (λ i, i < length cos_sims) idxs →
  for_each (src2trg_step self cos_sims) idxs c w
  = (Ok (c + length (List.filter (Spec.is_match Rgtb cos_sims) idxs)),
     add_stdout
       (if print_wrong_matches self
        then concat (map (Spec.wrong_match_block self cos_sims)
                         (List.filter (λ i, negb (Spec.is_match Rgtb cos_sims i)) idxs))
        else []) w).
Proof.
  intros Hsrc Hrows Hle. revert c w.
  induction idxs as [|i idxs IH]; intros c w Hidx.
  - simpl. unfold ret. rewrite Nat.add_0_r.
    destruct (print_wrong_matches self); by rewrite add_stdout_nil.
  - apply Forall_cons in Hidx as [Hi Hidx].
    destruct (row_argmax cos_sims i (length (target_sentences self)))
      as (row & j & Hrow & Hj & Hlen); [done | lia | done |].
    cbn [for_each List.filter map]. rewrite (is_match_argmax _ _ _ _ Hrow Hj).
    unfold bind at 1. unfold src2trg_step at 1.
    unfold bind at 1, lift at 1. rewrite (py_getitem_lookup _ _ _ Hrow).
    unfold bind at 1, lift at 1. rewrite Hj.
    case_bool_decide as Hij.
    + unfold ret at 1. rewrite IH by done. cbn [negb length]. f_equal. f_equal. lia.
    + cbn [negb].
      destruct (print_wrong_matches self) eqn:Hpwm.
      * unfold bind at 1.
        rewrite (report_wrong_match_run self cos_sims row i j) by (done || lia).
        unfold ret at 1. rewrite IH by done.
        rewrite add_stdout_app. done.
      * unfold ret at 1. by rewrite IH.
Qed.

(** The second loop counts the matches of the transposed matrix. *)
Lemma trg2src_loop_run (cos_sims : list (list R)) (width : nat)
      (idxs : list nat) (c : nat) (w : World) :
  0 < width →
  Forall (λ row, length row = width) cos_sims →
  Forall (λ i, i < length cos_sims) idxs →
  for_each (trg2src_step cos_sims) idxs c w
  = (Ok (c + length (List.filter (Spec.is_match Rgtb cos_sims) idxs)), w).
Proof.
  intros Hw Hrows. revert c w.
  induction idxs as [|i idxs IH]; intros c w Hidx.
  - simpl. unfold ret. by rewrite Nat.add_0_r.
  - apply Forall_cons in Hidx as [Hi Hidx].
    destruct (row_argmax cos_sims i width) as (row & j & Hrow & Hj & Hlen);
      [done..|].
    cbn [for_each List.filter]. rewrite (is_match_argmax _ _ _ _ Hrow Hj).
    unfold bind at 1. unfold trg2src_step at 1.
    unfold bind at 1, lift at 1. rewrite (py_getitem_lookup _ _ _ Hrow).
    unfold bind at 1, lift at 1. rewrite Hj.
    case_bool_decide as Hij; unfold ret at 1; rewrite IH by done.
    + cbn [length]. f_equal. f_equal. lia.
    + done.
Qed.

Lemma range_lt (n : nat) : Forall (λ i, i < n) (range n).
Proof.
  apply Forall_forall. intros i Hi. unfold range in Hi.
  apply elem_of_seq in Hi. lia.
Qed.

(** ** torch.stack and the sklearn distances on well-formed embeddings *)

Lemma torch_stack_ok (ts : list (list R)) (D : nat) :
  ts ≠ [] → Forall (λ v, length v = D) ts → torch_stack ts = Ok ts.
Proof.
  destruct ts as [|t ts]; [done|]. intros _ Hall.
  apply Forall_cons in Hall as [Ht Hall]. unfold torch_stack.
  replace (forallb (λ u, length u =? length t) ts) with true; [done|].
  symmetry. apply forallb_forall. intros u Hu. apply Nat.eqb_eq.
  rewrite Forall_forall in Hall. rewrite Ht. apply Hall. by apply list_elem_of_In.
Qed.

Lemma torch_stack_cases (ts : list (list R)) :
  (torch_stack ts = Ok ts ∧ stackable ts)
  ∨ (torch_stack ts = Raise RuntimeError ∧ ¬ stackable ts).
Proof.
  destruct ts as [|t ts].
  - right. split; [done|]. by intros [? _].
  - unfold torch_stack.
    destruct (forallb (λ u, length u =? length t) ts) eqn:Hall.
    + left. split; [done|]. split; [done|]. exists (length t).
      constructor; [done|]. apply Forall_forall. intros u Hu.
      rewrite forallb_forall in Hall. apply Nat.eqb_eq, Hall.
      by apply list_elem_of_In.
    + right. split; [done|]. intros [_ [D HD]].
      apply Forall_cons in HD as [Ht HD].
      assert (forallb (λ u, length u =? length t) ts = true); [|congruence].
      apply forallb_forall. intros u Hu. apply Nat.eqb_eq.
      rewrite Forall_forall in HD. rewrite Ht. apply HD.
      by apply list_elem_of_In.
Qed.

Lemma length_concat_uniform {A} (l : list (list A)) (D : nat) :
  Forall (λ v, length v = D) l → length (concat l) = length l * D.
Proof.
  induction 1 as [|v l Hv _ IH]; simpl; [done|]. rewrite length_app. lia.
Qed.

Lemma paired_reshape_1 (metric : list R → list R → R) (e1 e2 : list (list R)) :
  0 < length (concat e1) →
  length (concat e1) = length (concat e2) →
  Sklearn.paired metric (reshape_1 e1) (reshape_1 e2)
  = Ok [metric (concat e1) (concat e2)].
Proof.
  intros Hpos Hlen.
  unfold Sklearn.paired, Sklearn.check_paired_arrays, Sklearn.check_array,
    reshape_1.
  cbn [length forallb map]. rewrite <- Hlen.
  replace (0 <? length (concat e1)) with true
    by (symmetry; apply Nat.ltb_lt; lia).
  cbn [Nat.ltb Nat.leb andb]. by rewrite bool_decide_eq_true_2.
Qed.

(** A flattened array without any entry is refused: sklearn wants at least
    one feature. *)
Lemma paired_reshape_1_empty (metric : list R → list R → R)
      (e1 e2 : list (list R)) :
  concat e1 = [] →
  Sklearn.paired metric (reshape_1 e1) (reshape_1 e2) = Raise ValueError.
Proof.
  intros Hnil.
  unfold Sklearn.paired, Sklearn.check_paired_arrays, Sklearn.check_array,
    reshape_1.
  cbn [length forallb map]. rewrite Hnil. reflexivity.
Qed.

(** ** Writing the results file *)

Lemma write_results_run (self : TranslationEvaluator) (output_path : option string)
      (model : SentenceEncoder) (epoch steps : Z) (w : World) :
  csv_headers self = ["epoch"; "steps"; "src2trg"; "trg2src"] →
  Spec.can_write self output_path w →
  write_results self output_path epoch steps
                (Spec.acc_src2trg self model) (Spec.acc_trg2src self model) w
  = (Ok tt, mkWorld (Spec.fs_after self output_path (model, epoch, steps) (fs w))
                    (stdout w) (logs w) (encoded w) (writable w)).
Proof.
  intros Hhdr Hcan. unfold Spec.can_write, Spec.results_path in Hcan.
  unfold write_results, Spec.fs_after.
  destruct output_path as [dir|]; [|by destruct w].
  destruct (write_csv self); [|by destruct w].
  cbv zeta. set (p := os_path_join dir (csv_file self)) in *.
  specialize (Hcan p eq_refl).
  unfold bind, os_path_isfile, py_open, writerow, ret. rewrite Hhdr.
  rewrite !(bool_decide_eq_true_2 _ Hcan).
  destruct (fs w !! p) as [rows|] eqn:Hp; simpl.
  - rewrite lookup_insert_eq, insert_insert_eq. simpl. done.
  - rewrite !lookup_insert_eq, !insert_insert_eq. simpl.
    rewrite ?lookup_insert_eq, ?insert_insert_eq. done.
Qed.

Lemma write_results_writable (self : TranslationEvaluator) (dir : string)
      (epoch steps : Z) (a1 a2 : Q) (w : World) :
  write_csv self = true →
  os_path_join dir (csv_file self) ∈ writable w →
  ∃ w', write_results self (Some dir) epoch steps a1 a2 w = (Ok tt, w').
Proof.
  intros Hcsv Hin. unfold write_results. rewrite Hcsv. cbv zeta.
  unfold bind at 1. unfold lift, os_path_isfile.
  destruct (bool_decide (is_Some (fs w !! os_path_join dir (csv_file self))));
    unfold bind at 1; unfold py_open; rewrite (bool_decide_eq_true_2 _ Hin);
    by eexists.
Qed.

(** When the results file cannot be opened, the write raises [OSError] and
    changes nothing. *)
Lemma write_results_unwritable (self : TranslationEvaluator) (dir : string)
      (epoch steps : Z) (a1 a2 : Q) (w : World) :
  write_csv self = true →
  os_path_join dir (csv_file self) ∉ writable w →
  write_results self (Some dir) epoch steps a1 a2 w = (Raise OSError, w).
Proof.
  intros Hcsv Hno. unfold write_results. rewrite Hcsv. cbv zeta.
  unfold bind at 1. unfold lift, os_path_isfile.
  destruct (bool_decide (is_Some (fs w !! os_path_join dir (csv_file self))));
    unfold bind at 1; unfold py_open; by rewrite (bool_decide_eq_false_2 _ Hno).
Qed.

Lemma py_truediv_pos (a b : nat) :
  0 < b → py_truediv a b = Ok (Z.of_nat a # Pos.of_nat b).
Proof. destruct b; [lia|done]. Qed.

Lemma out_txt_run (epoch steps : Z) :
  (if bool_decide (epoch ≠ (-1)%Z) then
     if bool_decide (steps = (-1)%Z) then AfterEpoch epoch
     else InEpochAfterSteps epoch steps
   else Colon) = Spec.out_txt_of epoch steps.
Proof. unfold Spec.out_txt_of. repeat case_bool_decide; done. Qed.

(** ** Encoders that keep the contract *)

Lemma contract_encode (model : SentenceEncoder) (sentences : list string)
      (spb : bool) (bs : Z) :
  Spec.encoder_contract model →
  encode model sentences spb bs false = Ok (embeddings model sentences spb bs).
Proof.
  intros (D & _ & HD). destruct (HD sentences spb bs false) as (vs & Hvs & _).
  unfold embeddings. by rewrite Hvs.
Qed.

Lemma contract_length (model : SentenceEncoder) (sentences : list string)
      (spb : bool) (bs : Z) :
  Spec.encoder_contract model →
  length (embeddings model sentences spb bs) = length sentences.
Proof.
  intros (D & _ & HD). destruct (HD sentences spb bs false) as (vs & Hvs & Hl & _).
  unfold embeddings. by rewrite Hvs.
Qed.

Lemma contract_width (model : SentenceEncoder) :
  Spec.encoder_contract model →
  ∃ D, 0 < D ∧ ∀ sentences spb bs,
      Forall (λ v, length v = D) (embeddings model sentences spb bs).
Proof.
  intros (D & HD0 & HD). exists D. split; [done|]. intros sentences spb bs.
  destruct (HD sentences spb bs false) as (vs & Hvs & _ & Hall).
  unfold embeddings. by rewrite Hvs.
Qed.

(** ** One evaluation call

    First for an encoder that answers the two calls of the evaluation with
    [e1] and [e2], one vector per sentence and all of one width [D]. *)

Section Run.
Variable self : TranslationEvaluator.
Variable model : SentenceEncoder.
Variables (e1 e2 : list (list R)) (D : nat).
Hypothesis encode_e1 :
  encode model (source_sentences self) (show_progress_bar self)
         (batch_size self) false = Ok e1.
Hypothesis encode_e2 :
  encode model (target_sentences self) (show_progress_bar self)
         (batch_size self) false = Ok e2.
Hypothesis e1_rows : length e1 = length (source_sentences self).
Hypothesis e2_rows : length e2 = length (target_sentences self).
Hypothesis e1_width : Forall (λ v, length v = D) e1.
Hypothesis e2_width : Forall (λ v, length v = D) e2.
Hypothesis nonempty : source_sentences self ≠ [].
Hypothesis aligned :
  length (source_sentences self) = length (target_sentences self).

Lemma run_embeddings :
  embeddings model (source_sentences self) (show_progress_bar self)
             (batch_size self) = e1
  ∧ embeddings model (target_sentences self) (show_progress_bar self)
               (batch_size self) = e2.
Proof using All. unfold embeddings. by rewrite encode_e1, encode_e2. Qed.

Lemma run_sentences_pos : 0 < length (source_sentences self).
Proof using All. destruct (source_sentences self); [done|simpl; lia]. Qed.

Lemma run_e1_nonempty : e1 ≠ [].
Proof using All.
  intros He. pose proof run_sentences_pos as Hpos. pose proof e1_rows as Hl.
  rewrite He in Hl. simpl in Hl. lia.
Qed.

Lemma run_e2_nonempty : e2 ≠ [].
Proof using All.
  intros He. pose proof run_sentences_pos as Hpos. pose proof e2_rows as Hl.
  rewrite He in Hl. simpl in Hl. lia.
Qed.

Lemma run_flattened_size :
  length (concat e1) = length (source_sentences self) * D
  ∧ length (concat e2) = length (source_sentences self) * D.
Proof using All.
  rewrite (length_concat_uniform e1 D), (length_concat_uniform e2 D) by done.
  by rewrite e1_rows, e2_rows, aligned.
Qed.

Lemma run_similarity_matrix :
  Spec.similarity_matrix self model = pytorch_cos_sim e1 e2.
Proof using All.
  destruct run_embeddings as [E1 E2]. unfold Spec.similarity_matrix.
  by rewrite E1, E2.
Qed.

Lemma run_similarity_matrix_T :
  np_transpose (Spec.similarity_matrix self model) = pytorch_cos_sim e2 e1.
Proof using All.
  rewrite run_similarity_matrix. apply pytorch_cos_sim_swap, run_e1_nonempty.
Qed.

(** What is left of [__call__] once the accuracies are logged: source lines
    121 to 149. *)
Let after_accuracies (output_path : option string) (epoch steps : Z)
    (acc_src2trg acc_trg2src : Q) : M Q :=
  let embeddings1 := reshape_1 e1 in
  let embeddings2 := reshape_1 e2 in
  cosine_distances <- lift (Sklearn.paired_cosine_distances embeddings1 embeddings2) ;;
  let cosine_scores := map (λ d, (1 - d)%R) cosine_distances in
  manhattan <- lift (Sklearn.paired_manhattan_distances embeddings1 embeddings2) ;;
  let manhattan_distances := map Ropp manhattan in
  euclidean <- lift (Sklearn.paired_euclidean_distances embeddings1 embeddings2) ;;
  let euclidean_distances := map Ropp euclidean in
  let dot_products := zip_with np_dot embeddings1 embeddings2 in
  print (PCosine cosine_scores) ;;;
  print (PManhattan manhattan_distances) ;;;
  print (PEuclidean euclidean_distances) ;;;
  print (PDot dot_products) ;;;
  write_results self output_path epoch steps acc_src2trg acc_trg2src ;;;
  ret ((acc_src2trg + acc_trg2src) / 2)%Q.

(** The evaluation up to the diagnostics: the encoder is called twice, both
    loops run, and the accuracies are logged.  The width [D] of the vectors
    plays no part so far. *)
Lemma run_until_diagnostics (output_path : option string) (epoch steps : Z)
      (w : World) :
  __call__ self model output_path epoch steps w
  = after_accuracies output_path epoch steps
      (Spec.acc_src2trg self model) (Spec.acc_trg2src self model)
      (Spec.world_before_diagnostics self (model, epoch, steps) w).
Proof using All.
  pose proof run_sentences_pos as Hpos.
  pose proof run_similarity_matrix as Hcos.
  pose proof run_similarity_matrix_T as HT.
  assert (Hlen : length (Spec.similarity_matrix self model)
                 = length (source_sentences self))
    by (by rewrite Hcos, pytorch_cos_sim_length).
  assert (HlenT : length (np_transpose (Spec.similarity_matrix self model))
                  = length (source_sentences self))
    by (by rewrite HT, pytorch_cos_sim_length, e2_rows, aligned).
  unfold __call__. rewrite out_txt_run.
  unfold bind at 1. unfold logger_info at 1.
  unfold bind at 1. unfold model_encode at 1. rewrite encode_e1.
  unfold bind at 1. unfold model_encode at 1. rewrite encode_e2.
  cbn [fs stdout logs encoded writable].
  unfold bind at 1, lift at 1.
  rewrite (torch_stack_ok e1 D run_e1_nonempty e1_width).
  unfold bind at 1, lift at 1.
  rewrite (torch_stack_ok e2 D run_e2_nonempty e2_width).
  cbv zeta. rewrite <- Hcos.
  set (cos := Spec.similarity_matrix self model) in *.
  unfold bind at 1.
  rewrite src2trg_loop_run; [| congruence | | | apply range_lt ].
  2: { rewrite <- e2_rows, Hcos. apply pytorch_cos_sim_rows. }
  2: { rewrite Hlen, aligned. done. }
  unfold bind at 1.
  rewrite (trg2src_loop_run _ (length e1)); [| | | apply range_lt ].
  2: { rewrite e1_rows. done. }
  2: { rewrite HT. apply pytorch_cos_sim_rows. }
  unfold bind at 1, lift at 1. rewrite py_truediv_pos by lia.
  unfold bind at 1, lift at 1. rewrite py_truediv_pos by lia.
  assert (Ha1 : (Z.of_nat (0 + length (List.filter (Spec.is_match Rgtb cos)
                                           (range (length cos))))
                 # Pos.of_nat (length (np_transpose cos)))
                = Spec.acc_src2trg self model).
  { unfold Spec.acc_src2trg, Spec.accuracy, Spec.matches. fold cos.
    by rewrite HlenT, Hlen. }
  assert (Ha2 : (Z.of_nat (0 + length (List.filter (Spec.is_match Rgtb (np_transpose cos))
                                           (range (length (np_transpose cos)))))
                 # Pos.of_nat (length (np_transpose cos)))
                = Spec.acc_trg2src self model).
  { unfold Spec.acc_trg2src, Spec.accuracy, Spec.matches. by fold cos. }
  rewrite Ha1, Ha2. clear Ha1 Ha2.
  unfold bind at 1. unfold logger_info at 1.
  unfold bind at 1. unfold logger_info at 1.
  unfold bind at 1. unfold logger_info at 1.
  unfold Spec.world_before_diagnostics, add_stdout.
  cbn [fs stdout logs encoded writable].
  unfold Spec.wrong_match_report, Spec.mismatches.
  fold cos. unfold range. rewrite <- !app_assoc. reflexivity.
Qed.

(** With vectors of width at least 1 the diagnostics are printed, and what
    is left is to write the row and return the score. *)
Lemma run_until_write (output_path : option string) (epoch steps : Z)
      (w : World) :
  0 < D →
  __call__ self model output_path epoch steps w
  = (write_results self output_path epoch steps
                   (Spec.acc_src2trg self model) (Spec.acc_trg2src self model)
     ;;; ret (Spec.score self model))%py
      (Spec.world_before_write self (model, epoch, steps) w).
Proof using All.
  intros HD. rewrite run_until_diagnostics. unfold after_accuracies.
  pose proof run_sentences_pos as Hpos.
  destruct run_flattened_size as [Hx Hy].
  assert (Hflat : 0 < length (concat e1)) by (rewrite Hx; nia).
  assert (Hflats : length (concat e1) = length (concat e2)) by congruence.
  cbv zeta.
  unfold Sklearn.paired_cosine_distances, Sklearn.paired_manhattan_distances,
    Sklearn.paired_euclidean_distances.
  unfold bind at 1, lift at 1. rewrite paired_reshape_1 by done.
  unfold bind at 1, lift at 1. rewrite paired_reshape_1 by done.
  unfold bind at 1, lift at 1. rewrite paired_reshape_1 by done.
  unfold bind at 1. rewrite print_run.
  unfold bind at 1. rewrite print_run.
  unfold bind at 1. rewrite print_run.
  unfold bind at 1. rewrite print_run.
  unfold Spec.world_before_write, Spec.world_before_diagnostics, Spec.score,
    add_stdout.
  cbn [fs stdout logs encoded writable].
  destruct run_embeddings as [-> ->].
  unfold Spec.diagnostics. rewrite <- !app_assoc. reflexivity.
Qed.

(** With vectors of width 0 the evaluation stops at the first sklearn
    distance, which refuses an array without features. *)
Lemma run_zero_width (output_path : option string) (epoch steps : Z)
      (w : World) :
  D = 0 →
  __call__ self model output_path epoch steps w
  = (Raise ValueError,
     Spec.world_before_diagnostics self (model, epoch, steps) w).
Proof using All.
  intros HD. rewrite run_until_diagnostics. unfold after_accuracies.
  destruct run_flattened_size as [Hx _].
  cbv zeta. unfold Sklearn.paired_cosine_distances.
  unfold bind at 1, lift at 1. rewrite paired_reshape_1_empty; [done|].
  apply nil_length_inv. rewrite Hx, HD. lia.
Qed.
End Run.

(** Then for an encoder that keeps its contract. *)

Section OneCall.
Local Unset Default Proof Using.
Variable self : TranslationEvaluator.
Variable model : SentenceEncoder.
Hypothesis contract : Spec.encoder_contract model.
Hypothesis nonempty : source_sentences self ≠ [].
Hypothesis aligned :
  length (source_sentences self) = length (target_sentences self).

Let e1 := embeddings model (source_sentences self) (show_progress_bar self)
                     (batch_size self).
Let e2 := embeddings model (target_sentences self) (show_progress_bar self)
                     (batch_size self).

Lemma e1_length : length e1 = length (source_sentences self).
Proof. apply contract_length, contract. Qed.

Lemma e2_length : length e2 = length (target_sentences self).
Proof. apply contract_length, contract. Qed.

Lemma sentences_pos : 0 < length (source_sentences self).
Proof. destruct (source_sentences self); [done|simpl; lia]. Qed.

Lemma e1_nonempty : e1 ≠ [].
Proof.
  intros He. pose proof e1_length as Hl. pose proof sentences_pos.
  rewrite He in Hl. simpl in Hl. lia.
Qed.

Lemma flattened_lengths : length (concat e1) = length (concat e2).
Proof.
  pose proof e1_length as H1. pose proof e2_length as H2.
  destruct (contract_width _ contract) as (D & _ & HD).
  rewrite (length_concat_uniform e1 D), (length_concat_uniform e2 D)
    by apply HD.
  rewrite H1, H2, aligned. done.
Qed.

Lemma similarity_matrix_eq :
  Spec.similarity_matrix self model = pytorch_cos_sim e1 e2.
Proof. reflexivity. Qed.

Lemma similarity_matrix_length :
  length (Spec.similarity_matrix self model) = length (source_sentences self).
Proof.
  rewrite similarity_matrix_eq, pytorch_cos_sim_length. apply e1_length.
Qed.

Lemma similarity_matrix_T :
  np_transpose (Spec.similarity_matrix self model) = pytorch_cos_sim e2 e1.
Proof.
  rewrite similarity_matrix_eq. apply pytorch_cos_sim_swap, e1_nonempty.
Qed.

(** The evaluation up to its results file: everything is computed, printed
    and logged, and what is left is to write the row and return the score. *)
Lemma call_until_write (output_path : option string) (epoch steps : Z)
      (w : World) :
  __call__ self model output_path epoch steps w
  = (write_results self output_path epoch steps
                   (Spec.acc_src2trg self model) (Spec.acc_trg2src self model)
     ;;; ret (Spec.score self model))%py
      (Spec.world_before_write self (model, epoch, steps) w).
Proof.
  destruct (contract_width _ contract) as (D & HD0 & HD).
  apply (run_until_write self model e1 e2 D);
    first [ by apply contract_encode | by apply contract_length
          | apply HD | done ].
Qed.

(** The evaluation returns the score and leaves the world described by
    [Spec.world_after]. *)
Lemma call_run (output_path : option string) (epoch steps : Z) (w : World) :
  csv_headers self = ["epoch"; "steps"; "src2trg"; "trg2src"] →
  Spec.can_write self output_path w →
  __call__ self model output_path epoch steps w
  = (Ok (Spec.score self model),
     Spec.world_after self output_path (model, epoch, steps) w).
Proof.
  intros Hhdr Hcan. rewrite call_until_write.
  unfold bind at 1.
  rewrite (write_results_run _ _ model epoch steps _ Hhdr)
    by (intros p Hp; apply (Hcan p Hp)).
  reflexivity.
Qed.

(** When the results file cannot be opened, the evaluation raises [OSError]
    after everything is printed and logged; no file is touched. *)
Lemma call_unwritable (dir : string) (epoch steps : Z) (w : World) :
  write_csv self = true →
  os_path_join dir (csv_file self) ∉ writable w →
  __call__ self model (Some dir) epoch steps w
  = (Raise OSError, Spec.world_before_write self (model, epoch, steps) w).
Proof.
  intros Hcsv Hno. rewrite call_until_write.
  unfold bind at 1. by rewrite write_results_unwritable.
Qed.
End OneCall.

(** ** Transposition *)

Lemma np_transpose_cons {A} (r r' : list A) (m : list (list A)) :
  np_transpose (r :: r' :: m) = zip_with cons r (np_transpose (r' :: m)).
Proof. reflexivity. Qed.

Lemma np_transpose_length {A} (m : list (list A)) (W : nat) :
  m ≠ [] → Forall (λ r, length r = W) m → length (np_transpose m) = W.
Proof.
  induction m as [|r m IH]; [done|]. intros _ Hall.
  apply Forall_cons in Hall as [Hr Hall].
  destruct m as [|r' m].
  - simpl. by rewrite length_map.
  - rewrite np_transpose_cons, length_zip_with, IH by done. lia.
Qed.

(** Entry [(j, i)] of the transposed matrix is entry [(i, j)] of the matrix. *)
Lemma np_transpose_entry {A} (m : list (list A)) (W i j : nat) :
  m ≠ [] → Forall (λ r, length r = W) m →
  (np_transpose m !! j) ≫= (λ col, col !! i) = (m !! i) ≫= (λ row, row !! j).
Proof.
  revert i. induction m as [|r m IH]; [done|]. intros i _ Hall.
  apply Forall_cons in Hall as [Hr Hall].
  destruct m as [|r' m].
  - simpl. rewrite list_lookup_fmap.
    destruct i as [|i]; simpl; destruct (r !! j); done.
  - rewrite np_transpose_cons.
    assert (Hlen : length (np_transpose (r' :: m)) = W)
      by by apply np_transpose_length.
    specialize (λ i, IH i ltac:(done) Hall).
    set (T := np_transpose (r' :: m)) in *.
    rewrite lookup_zip_with.
    destruct (r !! j) as [x|] eqn:Hx; simpl.
    + destruct (T !! j) as [c|] eqn:Hc; simpl.
      * destruct i as [|i]; simpl; [by rewrite Hx|].
        rewrite <- (IH i). done.
      * apply lookup_lt_Some in Hx. apply lookup_ge_None in Hc. lia.
    + destruct i as [|i]; simpl; [by rewrite Hx|].
      rewrite <- (IH i).
      apply lookup_ge_None in Hx.
      rewrite (lookup_ge_None_2 T j) by lia. done.
Qed.

(** ** Construction *)

Lemma init_run (src trg : list string) (spb : bool) (bs : Z) (nm : string)
      (pwm wcsv : bool) (w : World) :
  __init__ src trg spb bs nm pwm wcsv w
  = if bool_decide (length src = length trg)
    then (Ok (mkEvaluator src trg nm bs spb pwm
                ("translation_evaluation"
                   +:+ (if bool_decide (nm = "") then nm else "_" +:+ nm)
                   +:+ "_results.csv")
                ["epoch"; "steps"; "src2trg"; "trg2src"] wcsv), w)
    else (Raise AssertionError, w).
Proof. unfold __init__, bind, py_assert. by case_bool_decide. Qed.

Lemma init_ok_inv (src trg : list string) (spb : bool) (bs : Z) (nm : string)
      (pwm wcsv : bool) (w w' : World) (self : TranslationEvaluator) :
  __init__ src trg spb bs nm pwm wcsv w = (Ok self, w') →
  w' = w
  ∧ length src = length trg
  ∧ self = mkEvaluator src trg nm bs spb pwm
             ("translation_evaluation"
                +:+ (if bool_decide (nm = "") then nm else "_" +:+ nm)
                +:+ "_results.csv")
             ["epoch"; "steps"; "src2trg"; "trg2src"] wcsv.
Proof.
  rewrite init_run. case_bool_decide; [|done]. intros [= <- <-]. done.
Qed.

(** ** Bounds on the accuracies *)

Lemma matches_le {Score} (gtb : Score → Score → bool) (m : list (list Score)) :
  length (Spec.matches gtb m) ≤ length m.
Proof.
  unfold Spec.matches. etransitivity; [apply List.filter_length_le|].
  unfold range. by rewrite length_seq.
Qed.

Lemma accuracy_bounds {Score} (gtb : Score → Score → bool) (m : list (list Score)) :
  (0 <= Spec.accuracy gtb m <= 1)%Q.
Proof.
  unfold Spec.accuracy. pose proof (matches_le gtb m) as Hle.
  unfold Qle. simpl. destruct (length m) as [|n] eqn:Hn.
  - simpl. lia.
  - rewrite <- Pos.of_nat_succ, Zpos_P_of_succ_nat. lia.
Qed.

Lemma average_bounds (x y : Q) :
  (0 <= x <= 1)%Q → (0 <= y <= 1)%Q → (0 <= (x + y) / 2 <= 1)%Q.
Proof.
  destruct x as [xn xd], y as [yn yd].
  unfold Qle, Qdiv, Qmult, Qinv, Qplus. simpl.
  intros [H1 H2] [H3 H4]. split; nia.
Qed.

Lemma Qplus_comm_eq (x y : Q) : (x + y)%Q = (y + x)%Q.
Proof. unfold Qplus. f_equal; [lia | apply Pos.mul_comm]. Qed.

(** * Properties of the evaluator *)

(** C3.  Construction raises [AssertionError] exactly when the two sentence
    lists differ in length, and then the world is untouched: no call to the
    encoder has been made, and an evaluation chained after the construction
    makes none either.  For lists of equal length construction succeeds and
    yields the evaluator holding both lists. *)
Theorem C3_construction_checks_lengths
        (src trg : list string) (spb : bool) (bs : Z) (nm : string)
        (pwm wcsv : bool) (w : World) :
  (fst (__init__ src trg spb bs nm pwm wcsv w) = Raise AssertionError
   ↔ length src ≠ length trg)
  ∧ snd (__init__ src trg spb bs nm pwm wcsv w) = w
  ∧ (length src ≠ length trg →
     ∀ model output_path epoch steps,
       (self <- __init__ src trg spb bs nm pwm wcsv ;;
        __call__ self model output_path epoch steps) w
       = (Raise AssertionError, w))
  ∧ (length src = length trg →
     ∃ self, __init__ src trg spb bs nm pwm wcsv w = (Ok self, w)
             ∧ source_sentences self = src
             ∧ target_sentences self = trg).
Proof.
  rewrite init_run. split; [|split; [|split]].
  - case_bool_decide; simpl; split; done.
  - case_bool_decide; done.
  - intros Hne model output_path epoch steps. unfold bind at 1.
    rewrite init_run. by rewrite bool_decide_eq_false_2.
  - intros Heq. rewrite bool_decide_eq_true_2 by done. eauto.
Qed.

Section Evaluation.
Local Unset Default Proof Using.
Variables (src trg : list string) (spb : bool) (bs : Z) (nm : string).
Variables (pwm wcsv : bool) (w0 w0' : World) (self : TranslationEvaluator).
Variable model : SentenceEncoder.
Hypothesis constructed : __init__ src trg spb bs nm pwm wcsv w0 = (Ok self, w0').
Hypothesis nonempty : src ≠ [].
Hypothesis contract : Spec.encoder_contract model.

Lemma constructed_fields :
  source_sentences self = src ∧ target_sentences self = trg
  ∧ name self = nm ∧ batch_size self = bs ∧ show_progress_bar self = spb
  ∧ print_wrong_matches self = pwm ∧ write_csv self = wcsv
  ∧ csv_headers self = ["epoch"; "steps"; "src2trg"; "trg2src"]
  ∧ csv_file self = "translation_evaluation"
                      +:+ (if bool_decide (nm = "") then nm else "_" +:+ nm)
                      +:+ "_results.csv"
  ∧ length src = length trg.
Proof.
  destruct (init_ok_inv _ _ _ _ _ _ _ _ _ _ constructed) as (_ & Hlen & ->).
  simpl. repeat split; done.
Qed.

Lemma constructed_call (output_path : option string) (epoch steps : Z) (w : World) :
  Spec.can_write self output_path w →
  __call__ self model output_path epoch steps w
  = (Ok (Spec.score self model),
     Spec.world_after self output_path (model, epoch, steps) w).
Proof.
  intros Hcan.
  destruct constructed_fields
    as (Hs & Ht & _ & _ & _ & _ & _ & Hhdr & _ & Hlen).
  apply call_run; [done | by rewrite Hs | by rewrite Hs, Ht | done | done].
Qed.

Lemma constructed_call_unwritable (dir : string) (epoch steps : Z) (w : World) :
  wcsv = true →
  os_path_join dir (csv_file self) ∉ writable w →
  __call__ self model (Some dir) epoch steps w
  = (Raise OSError, Spec.world_before_write self (model, epoch, steps) w).
Proof.
  intros Hcsv Hno.
  destruct constructed_fields
    as (Hs & Ht & _ & _ & _ & _ & Hw & Hhdr & _ & Hlen).
  apply call_unwritable;
    [done | by rewrite Hs | by rewrite Hs, Ht | by rewrite Hw | done].
Qed.

Lemma constructed_matrix_shape :
  length (Spec.similarity_matrix self model) = length src
  ∧ Forall (λ row, length row = length src) (Spec.similarity_matrix self model).
Proof.
  destruct constructed_fields
    as (Hs & Ht & _ & _ & _ & _ & _ & _ & _ & Hlen).
  split.
  - rewrite (similarity_matrix_length self model contract). by rewrite Hs.
  - rewrite Hlen, <- Ht, <- (e2_length self model contract).
    apply pytorch_cos_sim_rows.
Qed.

(** C1.  For equal-length non-empty sentence lists and an encoder that
    keeps its contract, the matrix is N by N.  [acc_src2trg] is the number
    of rows [i] among [0 .. N-1] whose first maximum is at index [i],
    divided by N, and [acc_trg2src] is the same count over the rows of the
    transposed matrix, divided by N; row [i] counts when, and only when, no
    entry of the row is greater than entry [i] and entry [i] is greater than
    every entry in front of it.  Both values are the ones the call logs,
    writes to the results file (when that file can be written) and
    averages. *)
Theorem C1_accuracies_count_diagonal_argmax
        (output_path : option string) (epoch steps : Z) (w : World) :
  Spec.can_write self output_path w →
  let N := length src in
  let cos_sims := Spec.similarity_matrix self model in
  let a1 := (Z.of_nat (length (List.filter (Spec.is_match Rgtb cos_sims)
                                           (seq 0 N)))
             # Pos.of_nat N) in
  let a2 := (Z.of_nat (length (List.filter
                                 (Spec.is_match Rgtb (np_transpose cos_sims))
                                 (seq 0 N)))
             # Pos.of_nat N) in
  length cos_sims = N
  ∧ Forall (λ row, length row = N) cos_sims
  ∧ length (np_transpose cos_sims) = N
  ∧ (∀ i j, np_transpose cos_sims !! j ≫= (λ col, col !! i)
            = cos_sims !! i ≫= (λ row, row !! j))
  ∧ (∀ (m : list (list R)) i row,
       m !! i = Some row →
       (Spec.is_match Rgtb m i = true ↔ Spec.first_max_index Rgtb row i))
  ∧ Spec.acc_src2trg self model = a1
  ∧ Spec.acc_trg2src self model = a2
  ∧ ∃ w', __call__ self model output_path epoch steps w
          = (Ok ((a1 + a2) / 2)%Q, w')
          ∧ logs w' = logs w ++ [ LogEvaluating nm (Spec.out_txt_of epoch steps);
                                  LogAccSrc2Trg (a1 * 100);
                                  LogAccTrg2Src (a2 * 100);
                                  LogSimilarity ]
          ∧ (∀ dir, output_path = Some dir → wcsv = true →
               ∃ rows, fs w' !! os_path_join dir (csv_file self)
                       = Some (rows ++ [[CInt epoch; CInt steps;
                                         CFloat a1; CFloat a2]])).
Proof.
  intros Hcan. cbv zeta.
  destruct constructed_fields
    as (Hs & Ht & Hn & _ & _ & _ & Hw & _ & _ & Hlen).
  destruct constructed_matrix_shape as [Hrows Hcols].
  set (cos_sims := Spec.similarity_matrix self model) in *.
  assert (Hne : cos_sims ≠ []).
  { intros He. rewrite He in Hrows.
    destruct src; [done|simpl in Hrows; lia]. }
  assert (HT : length (np_transpose cos_sims) = length src)
    by by apply np_transpose_length.
  assert (Ha1 : Spec.acc_src2trg self model
                = (Z.of_nat (length (List.filter (Spec.is_match Rgtb cos_sims)
                                                 (seq 0 (length src))))
                   # Pos.of_nat (length src))).
  { unfold Spec.acc_src2trg, Spec.accuracy, Spec.matches. fold cos_sims.
    by rewrite Hrows. }
  assert (Ha2 : Spec.acc_trg2src self model
                = (Z.of_nat (length (List.filter
                                       (Spec.is_match Rgtb (np_transpose cos_sims))
                                       (seq 0 (length src))))
                   # Pos.of_nat (length src))).
  { unfold Spec.acc_trg2src, Spec.accuracy, Spec.matches. fold cos_sims.
    by rewrite HT. }
  split; [done|]. split; [done|]. split; [done|].
  split; [intros i j; by apply (np_transpose_entry cos_sims (length src))|].
  split.
  { intros m i row Hrow. unfold Spec.is_match. rewrite Hrow.
    apply first_max_indexb_spec. }
  split; [done|]. split; [done|].
  rewrite <- Ha1, <- Ha2.
  eexists. split; [by apply constructed_call|]. split.
  - simpl. by rewrite Hn.
  - intros dir -> Hcsv. simpl. unfold Spec.fs_after. rewrite Hw, Hcsv.
    rewrite lookup_insert_eq. eauto.
Qed.

(** C2.  For equal-length non-empty sentence lists and an encoder that
    keeps its contract, the call returns exactly
    [(acc_src2trg + acc_trg2src) / 2], and that value lies between 0 and 1;
    when a results file is asked for, this is so if the file can be
    written. *)
Theorem C2_score_is_mean_in_unit_interval
        (output_path : option string) (epoch steps : Z) (w : World) :
  Spec.can_write self output_path w →
  ∃ r w',
    __call__ self model output_path epoch steps w = (Ok r, w')
    ∧ r = ((Spec.acc_src2trg self model + Spec.acc_trg2src self model) / 2)%Q
    ∧ (0 <= r <= 1)%Q.
Proof.
  intros Hcan.
  eexists _, _. split; [by apply constructed_call|]. split; [done|].
  apply average_bounds; apply accuracy_bounds.
Qed.
End Evaluation.

(** ** Swapping the two languages *)

Section Swap.
Local Unset Default Proof Using.
Variables (src trg : list string) (spb : bool) (bs : Z) (nm : string).
Variables (pwm wcsv : bool) (w0 w0' w1 w1' : World).
Variables (self swapped : TranslationEvaluator) (model : SentenceEncoder).
Hypothesis constructed : __init__ src trg spb bs nm pwm wcsv w0 = (Ok self, w0').
Hypothesis constructed_swapped :
  __init__ trg src spb bs nm pwm wcsv w1 = (Ok swapped, w1').
Hypothesis nonempty : src ≠ [].
Hypothesis contract : Spec.encoder_contract model.

Lemma swapped_nonempty : trg ≠ [].
Proof.
  destruct (init_ok_inv _ _ _ _ _ _ _ _ _ _ constructed) as (_ & Hlen & _).
  intros ->. destruct src; [done|simpl in Hlen; lia].
Qed.

Lemma swapped_matrix :
  Spec.similarity_matrix swapped model
  = np_transpose (Spec.similarity_matrix self model)
  ∧ np_transpose (Spec.similarity_matrix swapped model)
    = Spec.similarity_matrix self model.
Proof.
  pose proof swapped_nonempty as Hne.
  destruct (init_ok_inv _ _ _ _ _ _ _ _ _ _ constructed) as (_ & Hlen & Hself).
  destruct (init_ok_inv _ _ _ _ _ _ _ _ _ _ constructed_swapped)
    as (_ & _ & Hswapped).
  split.
  - rewrite (similarity_matrix_T self model contract) by (by rewrite Hself).
    by rewrite Hself, Hswapped.
  - rewrite (similarity_matrix_T swapped model contract) by (by rewrite Hswapped).
    by rewrite Hself, Hswapped.
Qed.

(** C4.  For an encoder that keeps its contract, with the source and target
    lists swapped the evaluation finds as [acc_src2trg] the [acc_trg2src] of
    the original run and as [acc_trg2src] its [acc_src2trg]; both runs log
    these values and return the same score (when a results file is asked
    for, if it can be written). *)
Theorem C4_swap_exchanges_accuracies
        (output_path output_path' : option string)
        (epoch steps epoch' steps' : Z) (w w' : World) :
  Spec.can_write self output_path w →
  Spec.can_write swapped output_path' w' →
  let a1 := Spec.acc_src2trg self model in
  let a2 := Spec.acc_trg2src self model in
  Spec.acc_src2trg swapped model = a2
  ∧ Spec.acc_trg2src swapped model = a1
  ∧ ∃ r wa wb,
      __call__ self model output_path epoch steps w = (Ok r, wa)
      ∧ __call__ swapped model output_path' epoch' steps' w' = (Ok r, wb)
      ∧ r = ((a1 + a2) / 2)%Q
      ∧ logs wa = logs w ++ [ LogEvaluating nm (Spec.out_txt_of epoch steps);
                              LogAccSrc2Trg (a1 * 100);
                              LogAccTrg2Src (a2 * 100);
                              LogSimilarity ]
      ∧ logs wb = logs w' ++ [ LogEvaluating nm (Spec.out_txt_of epoch' steps');
                               LogAccSrc2Trg (a2 * 100);
                               LogAccTrg2Src (a1 * 100);
                               LogSimilarity ].
Proof.
  intros Hcan Hcan'. cbv zeta. destruct swapped_matrix as [Hm HmT].
  pose proof swapped_nonempty as Hne.
  assert (H1 : Spec.acc_src2trg swapped model = Spec.acc_trg2src self model).
  { unfold Spec.acc_src2trg, Spec.acc_trg2src. by rewrite Hm. }
  assert (H2 : Spec.acc_trg2src swapped model = Spec.acc_src2trg self model).
  { unfold Spec.acc_src2trg, Spec.acc_trg2src. by rewrite HmT. }
  split; [done|]. split; [done|].
  eexists _, _, _. split.
  { apply (constructed_call _ _ _ _ _ _ _ _ _ _ _ constructed nonempty contract).
    exact Hcan. }
  split.
  { rewrite (constructed_call _ _ _ _ _ _ _ _ _ _ _
               constructed_swapped Hne contract) by exact Hcan'.
    unfold Spec.score. rewrite H1, H2. f_equal. f_equal. f_equal.
    apply Qplus_comm_eq. }
  split; [done|].
  destruct (init_ok_inv _ _ _ _ _ _ _ _ _ _ constructed) as (_ & _ & ->).
  destruct (init_ok_inv _ _ _ _ _ _ _ _ _ _ constructed_swapped) as (_ & _ & ->).
  split; simpl; [done|]. by rewrite H1, H2.
Qed.
End Swap.

(** ** A series of evaluations on one results file *)

Section Series.
Local Unset Default Proof Using.
Variables (src trg : list string) (spb : bool) (bs : Z) (nm : string).
Variables (pwm : bool) (w0 w0' : World) (self : TranslationEvaluator).
Variable dir : string.
Hypothesis constructed : __init__ src trg spb bs nm pwm true w0 = (Ok self, w0').
Hypothesis nonempty : src ≠ [].

Let csv_path := os_path_join dir (csv_file self).

Lemma call_sequence_run (calls : list (SentenceEncoder * Z * Z)) (w : World) :
  Forall (λ c, Spec.encoder_contract c.1.1) calls →
  csv_path ∈ writable w →
  call_sequence self (Some dir) calls w
  = (Ok (map (λ c, Spec.score self c.1.1) calls),
     foldl (λ w c, Spec.world_after self (Some dir) c w) w calls).
Proof.
  revert w.
  induction calls as [|[[model epoch] steps] calls IH]; intros w Hall Hw.
  - done.
  - apply Forall_cons in Hall as [Hc Hall]. simpl in Hc.
    cbn [call_sequence]. unfold bind at 1.
    rewrite (constructed_call _ _ _ _ _ _ _ _ _ _ _ constructed nonempty Hc).
    + unfold bind at 1. rewrite IH by done. done.
    + intros p Hp. unfold Spec.results_path in Hp.
      destruct (write_csv self); [|done]. by injection Hp as <-.
Qed.

Lemma fs_after_lookup (c : SentenceEncoder * Z * Z) (w : World) :
  fs (Spec.world_after self (Some dir) c w) !! csv_path
  = Some (default [Spec.header_row] (fs w !! csv_path) ++ [Spec.data_row self c]).
Proof.
  destruct (constructed_fields _ _ _ _ _ _ _ _ _ _ constructed)
    as (_ & _ & _ & _ & _ & _ & Hw & _).
  destruct c as [[model epoch] steps]. simpl. unfold Spec.fs_after.
  rewrite Hw. apply lookup_insert_eq.
Qed.

Lemma fs_after_series (c : SentenceEncoder * Z * Z)
      (calls : list (SentenceEncoder * Z * Z)) (w : World) :
  fs (foldl (λ w c, Spec.world_after self (Some dir) c w) w (c :: calls))
     !! csv_path
  = Some (default [Spec.header_row] (fs w !! csv_path)
            ++ map (Spec.data_row self) (c :: calls)).
Proof.
  revert c w. induction calls as [|c' calls IH]; intros c w.
  - apply fs_after_lookup.
  - change (foldl _ w (c :: c' :: calls))
      with (foldl (λ w c, Spec.world_after self (Some dir) c w)
                  (Spec.world_after self (Some dir) c w) (c' :: calls)).
    rewrite IH, fs_after_lookup. simpl. by rewrite <- app_assoc.
Qed.

(** C5.  With [write_csv] true and an output path under which the results
    file can be written, [k >= 1] evaluation calls on a path where no results
    file exists leave the file
    [<output_path>/translation_evaluation[_<name>]_results.csv] holding the
    header row followed by the [k] data rows in call order, each with that
    call's epoch, steps and two accuracies.  The header is written only at
    creation: when the file is already there, the [k] data rows are appended
    to its content and nothing else is. *)
Theorem C5_results_file_after_k_calls
        (call : SentenceEncoder * Z * Z)
        (rest : list (SentenceEncoder * Z * Z)) (w : World) :
  Forall (λ c, Spec.encoder_contract c.1.1) (call :: rest) →
  let calls := call :: rest in
  let file := "translation_evaluation"
                +:+ (if bool_decide (nm = "") then "" else "_" +:+ nm)
                +:+ "_results.csv" in
  os_path_join dir file ∈ writable w →
  ∃ scores w',
    call_sequence self (Some dir) calls w = (Ok scores, w')
    ∧ csv_file self = file
    ∧ (fs w !! os_path_join dir file = None →
       fs w' !! os_path_join dir file
       = Some ([CStr "epoch"; CStr "steps"; CStr "src2trg"; CStr "trg2src"]
                 :: map (λ '(model, epoch, steps),
                           [CInt epoch; CInt steps;
                            CFloat (Spec.acc_src2trg self model);
                            CFloat (Spec.acc_trg2src self model)]) calls))
    ∧ (∀ old : list Row, fs w !! os_path_join dir file = Some old →
       fs w' !! os_path_join dir file
       = Some (old ++ map (λ '(model, epoch, steps),
                             [CInt epoch; CInt steps;
                              CFloat (Spec.acc_src2trg self model);
                              CFloat (Spec.acc_trg2src self model)]) calls)).
Proof.
  intros Hall. cbv zeta. intros Hcan.
  destruct (constructed_fields _ _ _ _ _ _ _ _ _ _ constructed)
    as (_ & _ & _ & _ & _ & _ & _ & _ & Hfile & _).
  assert (Hfile' : csv_file self
                   = "translation_evaluation"
                       +:+ (if bool_decide (nm = "") then "" else "_" +:+ nm)
                       +:+ "_results.csv").
  { rewrite Hfile. by case_bool_decide; subst. }
  assert (Hrows : map (Spec.data_row self) (call :: rest)
                  = map (λ '(model, epoch, steps),
                           [CInt epoch; CInt steps;
                            CFloat (Spec.acc_src2trg self model);
                            CFloat (Spec.acc_trg2src self model)]) (call :: rest)).
  { apply map_ext. by intros [[model epoch] steps]. }
  rewrite <- Hfile' in Hcan.
  eexists _, _. split; [by apply call_sequence_run|].
  split; [done|]. rewrite <- Hfile', <- Hrows.
  split.
  - intros Hnone. rewrite fs_after_series. unfold csv_path.
    rewrite Hnone. done.
  - intros old Hold. rewrite fs_after_series. unfold csv_path.
    rewrite Hold. done.
Qed.
End Series.

(** ** Zero sentences *)

Lemma never_raises_ret {A} (e : PyError) (a : A) : never_raises e (ret a).
Proof. by intros w. Qed.

Lemma never_raises_lift {A} (e : PyError) (r : Exc A) :
  r ≠ Raise e → never_raises e (lift r).
Proof. by intros Hr w. Qed.

Lemma never_raises_bind {A B} (e : PyError) (m : M A) (k : A → M B) :
  never_raises e m → (∀ a, never_raises e (k a)) → never_raises e (bind m k).
Proof.
  intros Hm Hk w. unfold bind. specialize (Hm w).
  destruct (m w) as [[a|e'] w1]; simpl in *; [apply Hk|].
  intros [= ->]. by apply Hm.
Qed.

Lemma never_raises_for_each {A S} (e : PyError) (body : A → S → M S)
      (xs : list A) (acc : S) :
  (∀ x a, never_raises e (body x a)) → never_raises e (for_each body xs acc).
Proof.
  intros Hbody. revert acc. induction xs as [|x xs IH]; intros acc.
  - apply never_raises_ret.
  - simpl. apply never_raises_bind; [apply Hbody | apply IH].
Qed.

Lemma py_getitem_raises {A} (l : list A) (i : nat) (e : PyError) :
  py_getitem l i = Raise e → e = IndexError.
Proof. unfold py_getitem. destruct (l !! i); [done|]. by intros [= <-]. Qed.

Lemma np_argmax_raises (row : list R) (e : PyError) :
  np_argmax Rgtb row = Raise e → e = ValueError.
Proof. destruct row; [|done]. by intros [= <-]. Qed.

Lemma check_array_raises (X : list (list R)) (e : PyError) :
  Sklearn.check_array X = Raise e → e = ValueError.
Proof.
  unfold Sklearn.check_array.
  destruct (andb (0 <? length X) _); [done|]. by intros [= <-].
Qed.

Lemma paired_raises (metric : list R → list R → R) (X Y : list (list R))
      (e : PyError) :
  Sklearn.paired metric X Y = Raise e → e = ValueError.
Proof.
  unfold Sklearn.paired, Sklearn.check_paired_arrays.
  destruct (Sklearn.check_array X) as [[]|ex] eqn:HX.
  - destruct (Sklearn.check_array Y) as [[]|ey] eqn:HY.
    + case_bool_decide; [done|]. by intros [= <-].
    + intros [= <-]. by apply check_array_raises in HY.
  - intros [= <-]. by apply check_array_raises in HX.
Qed.

(** Descends through a statement that holds no division. *)
Ltac no_division_step :=
  lazymatch goal with
  | |- never_raises _ (ret _) => apply never_raises_ret
  | |- never_raises _ (bind _ _) => apply never_raises_bind; [ | intros ?]
  | |- never_raises _ (for_each _ _ _) =>
      apply never_raises_for_each; intros ? ?
  | |- never_raises _ (lift (py_getitem _ _)) =>
      apply never_raises_lift; intros Hraise;
      by apply py_getitem_raises in Hraise
  | |- never_raises _ (lift (np_argmax _ _)) =>
      apply never_raises_lift; intros Hraise;
      by apply np_argmax_raises in Hraise
  | |- never_raises _ (lift (Sklearn.paired_cosine_distances _ _)) =>
      apply never_raises_lift; intros Hraise; by apply paired_raises in Hraise
  | |- never_raises _ (lift (Sklearn.paired_manhattan_distances _ _)) =>
      apply never_raises_lift; intros Hraise; by apply paired_raises in Hraise
  | |- never_raises _ (lift (Sklearn.paired_euclidean_distances _ _)) =>
      apply never_raises_lift; intros Hraise; by apply paired_raises in Hraise
  | |- never_raises _ (lift (py_truediv _ _)) =>
      apply never_raises_lift;
      match goal with H : ∀ c, py_truediv c _ ≠ _ |- _ => apply H end
  | |- never_raises _ (src2trg_step _ _ _ _) => unfold src2trg_step
  | |- never_raises _ (trg2src_step _ _ _) => unfold trg2src_step
  | |- never_raises _ (report_wrong_match _ _ _ _) => unfold report_wrong_match
  | |- never_raises _ (write_results _ _ _ _ _ _) => unfold write_results
  | |- never_raises _ (py_open _ _) =>
      intros ?; unfold py_open; by case_bool_decide
  | |- never_raises _ (if ?b then _ else _) => destruct b
  | |- never_raises _ (match ?x with _ => _ end) => destruct x
  | |- never_raises _ (match ?x with _ => _ end _) => destruct x; cbv beta
  | |- never_raises _ _ => by intros ?
  end.

(** An evaluation raises a division error only if the encoder does: the
    divisor [len(cos_sims)] is positive once both [torch.stack] calls have
    succeeded. *)
Lemma call_division_error (self : TranslationEvaluator) (model : SentenceEncoder)
      (output_path : option string) (epoch steps : Z) (w : World) :
  fst (__call__ self model output_path epoch steps w) = Raise ZeroDivisionError →
  encode model (source_sentences self) (show_progress_bar self)
         (batch_size self) false = Raise ZeroDivisionError
  ∨ encode model (target_sentences self) (show_progress_bar self)
           (batch_size self) false = Raise ZeroDivisionError.
Proof.
  unfold __call__. cbv zeta.
  unfold bind at 1. unfold logger_info at 1.
  unfold bind at 1. unfold model_encode at 1.
  destruct (encode model (source_sentences self) _ _ _) as [e1|err1].
  2: { simpl. intros [= ->]. by left. }
  unfold bind at 1. unfold model_encode at 1.
  destruct (encode model (target_sentences self) _ _ _) as [e2|err2].
  2: { simpl. intros [= ->]. by right. }
  cbn [fs stdout logs encoded writable].
  unfold bind at 1, lift at 1.
  destruct (torch_stack_cases e1) as [[-> [Hne1 _]] | [-> _]]; [|done].
  unfold bind at 1, lift at 1.
  destruct (torch_stack_cases e2) as [[-> [Hne2 _]] | [-> _]]; [|done].
  assert (Hdiv : ∀ c, py_truediv c (length (np_transpose (pytorch_cos_sim e1 e2)))
                      ≠ Raise ZeroDivisionError).
  { intros c. rewrite pytorch_cos_sim_swap, pytorch_cos_sim_length by done.
    by destruct e2. }
  intros Hraise. exfalso. revert Hraise.
  match goal with
  | |- fst (?m ?w1) = _ → False =>
      generalize w1; change (never_raises ZeroDivisionError m)
  end.
  repeat no_division_step.
Qed.

(** C6, amended.  With no sentences at all, construction succeeds, and an
    encoder that returns one vector per sentence returns none.  The
    evaluation then stops in [torch.stack] with the [RuntimeError] the
    library raises on an empty list of tensors: the first line is logged and
    the encoder has been called twice, and no accuracy is computed, printed,
    logged or written.  The division is never reached; indeed no evaluation
    with such an encoder, on whatever evaluator and from whatever world,
    raises a division error. *)
Theorem C6_empty_input_fails_in_torch_stack
        (spb : bool) (bs : Z) (nm : string) (pwm wcsv : bool)
        (model : SentenceEncoder) (output_path : option string)
        (epoch steps : Z) (w : World) :
  Spec.encoder_contract model →
  (∃ self,
     __init__ [] [] spb bs nm pwm wcsv w = (Ok self, w)
     ∧ __call__ self model output_path epoch steps w
       = (Raise RuntimeError,
          mkWorld (fs w) (stdout w)
                  (logs w ++ [LogEvaluating nm (Spec.out_txt_of epoch steps)])
                  (encoded w ++ [ mkEncodeCall [] spb bs false;
                                  mkEncodeCall [] spb bs false ])
                  (writable w)))
  ∧ (∀ (other : TranslationEvaluator) output_path' epoch' steps' w',
       fst (__call__ other model output_path' epoch' steps' w')
       ≠ Raise ZeroDivisionError).
Proof.
  intros Hc. split.
  - eexists. split; [by rewrite init_run|].
    assert (He : embeddings model [] spb bs = []).
    { apply nil_length_inv. by rewrite contract_length. }
    unfold __call__. cbv zeta. rewrite out_txt_run.
    cbn [source_sentences target_sentences show_progress_bar batch_size name].
    unfold bind at 1. unfold logger_info at 1.
    unfold bind at 1. unfold model_encode at 1.
    rewrite (contract_encode model [] spb bs Hc), He.
    unfold bind at 1. unfold model_encode at 1.
    rewrite (contract_encode model [] spb bs Hc), He.
    cbn [fs stdout logs encoded writable].
    unfold bind at 1, lift at 1. cbn [torch_stack].
    by rewrite <- app_assoc.
  - intros other output_path' epoch' steps' w' Hraise.
    apply call_division_error in Hraise as [Hraise | Hraise];
      by rewrite contract_encode in Hraise.
Qed.

(** ** The entries of the similarity matrix *)

Lemma np_dot_self (x : list R) : np_dot x x = foldr Rplus 0%R (map Rsqr x).
Proof.
  unfold np_dot. induction x as [|v x IH]; simpl; [done|]. by rewrite IH.
Qed.

(** C7.  Entry [i][j] of the similarity matrix is the cosine similarity of
    source embedding [i] and target embedding [j]: their dot product divided
    by the product of their Euclidean norms, and 0 when either norm is 0. *)
Theorem C7_similarity_matrix_entries
        (a b : list (list R)) (i j : nat) (x y : list R) :
  a !! i = Some x → b !! j = Some y →
  pytorch_cos_sim a b !! i ≫= (λ row, row !! j) = Some (cosine x y)
  ∧ row_norm x = sqrt (foldr Rplus 0%R (map Rsqr x))
  ∧ row_norm y = sqrt (foldr Rplus 0%R (map Rsqr y))
  ∧ np_dot x y = foldr Rplus 0%R (zip_with Rmult x y)
  ∧ (row_norm x ≠ 0%R → row_norm y ≠ 0%R →
     cosine x y = (np_dot x y / (row_norm x * row_norm y))%R)
  ∧ (row_norm x = 0%R ∨ row_norm y = 0%R → cosine x y = 0%R).
Proof.
  intros Hx Hy. split; [|split; [|split; [|split; [|split]]]].
  - rewrite pytorch_cos_sim_lookup, Hx. simpl.
    rewrite list_lookup_fmap, Hy. done.
  - unfold row_norm. by rewrite np_dot_self.
  - unfold row_norm. by rewrite np_dot_self.
  - done.
  - intros Hnx Hny. unfold cosine.
    destruct (Reqb (row_norm x) 0) eqn:Ex; [by apply Reqb_true in Ex|].
    destruct (Reqb (row_norm y) 0) eqn:Ey; [by apply Reqb_true in Ey|].
    done.
  - intros Hz. unfold cosine.
    destruct (Reqb (row_norm x) 0) eqn:Ex; [done|].
    destruct (Reqb (row_norm y) 0) eqn:Ey; [done|].
    destruct Hz as [Hz | Hz]; apply Reqb_true in Hz; congruence.
Qed.

(** ** The report of wrong matches *)

Lemma mismatches_elem (cos_sims : list (list R)) (i : nat) :
  i ∈ Spec.mismatches Rgtb cos_sims
  ↔ i < length cos_sims ∧ Spec.is_match Rgtb cos_sims i = false.
Proof.
  unfold Spec.mismatches, range.
  rewrite list_elem_of_In, filter_In, <- list_elem_of_In, elem_of_seq.
  rewrite negb_true_iff. split; intros [H1 H2]; split; (done || lia).
Qed.

Lemma filter_seq_sorted (f : nat → bool) (s n : nat) :
  StronglySorted lt (List.filter f (seq s n)).
Proof.
  revert s. induction n as [|n IH]; intros s; simpl; [constructor|].
  destruct (f s); [|apply IH]. constructor; [apply IH|].
  apply Forall_forall. intros x Hx.
  apply list_elem_of_In, filter_In in Hx as [Hx _].
  apply in_seq in Hx. lia.
Qed.

Lemma ranking_spec (row : list R) :
  Permutation (map fst (sorted_desc Rgtb (enumerate row))) (seq 0 (length row))
  ∧ StronglySorted (Spec.ranked_before Rgtb) (sorted_desc Rgtb (enumerate row)).
Proof.
  split.
  - rewrite (sorted_desc_perm Rgtb (enumerate row)).
    unfold enumerate, range. rewrite fst_zip; [done|]. by rewrite length_seq.
  - apply sorted_desc_sorted;
      [apply Rgtb_irrefl | apply Rgtb_trans | apply Rgtb_negtrans
       | apply enumerate_increasing].
Qed.

Section Report.
Local Unset Default Proof Using.
Variables (src trg : list string) (spb : bool) (bs : Z) (nm : string).
Variables (wcsv : bool) (w0 w0' : World) (self : TranslationEvaluator).
Variable model : SentenceEncoder.
Hypothesis constructed : __init__ src trg spb bs nm true wcsv w0 = (Ok self, w0').
Hypothesis nonempty : src ≠ [].
Hypothesis contract : Spec.encoder_contract model.

(** C8.  With [print_wrong_matches] enabled the console receives, between
    what was there before and the four diagnostic lines, one block for every
    source index [i] whose row has its first maximum at some [j ≠ i], in
    index order, and nothing for the other rows.  The block gives [i], [j]
    and the verdict, the source sentence [i], the target sentence [j], the
    scores at [j] and at [i], and the first five candidates of the ranking of
    the row.  The ranking holds every index [0 .. N-1] of the row once, each
    with its score, by descending score, equal scores by ascending index. *)
Theorem C8_wrong_matches_report
        (output_path : option string) (epoch steps : Z) (w : World) :
  Spec.can_write self output_path w →
  let cos_sims := Spec.similarity_matrix self model in
  ∃ r w',
    __call__ self model output_path epoch steps w = (Ok r, w')
    ∧ stdout w'
      = stdout w
          ++ concat (map (Spec.wrong_match_block self cos_sims)
                         (Spec.mismatches Rgtb cos_sims))
          ++ Spec.diagnostics (embeddings model src spb bs)
                              (embeddings model trg spb bs)
    ∧ StronglySorted lt (Spec.mismatches Rgtb cos_sims)
    ∧ (∀ i, i ∈ Spec.mismatches Rgtb cos_sims
            ↔ i < length src
              ∧ ∃ row j, cos_sims !! i = Some row
                         ∧ Spec.first_max_index Rgtb row j ∧ j ≠ i)
    ∧ (∀ i, i ∈ Spec.mismatches Rgtb cos_sims →
         ∃ row j s t top own ranking,
           cos_sims !! i = Some row
           ∧ length row = length src
           ∧ Spec.first_max_index Rgtb row j ∧ j ≠ i
           ∧ src !! i = Some s ∧ trg !! j = Some t
           ∧ row !! j = Some top ∧ row !! i = Some own
           ∧ Permutation (map fst ranking) (seq 0 (length src))
           ∧ StronglySorted (Spec.ranked_before Rgtb) ranking
           ∧ Forall (λ c, row !! c.1 = Some c.2 ∧ is_Some (trg !! c.1)) ranking
           ∧ Spec.wrong_match_block self cos_sims i
             = [ PMismatch i j "INCORRECT"; PSrc s; PTrg t; PScores top own ]
               ++ map (λ c, PCandidate c.1 c.2 (default "" (trg !! c.1)))
                      (take 5 ranking)).
Proof.
  intros Hcan. cbv zeta.
  destruct (constructed_fields _ _ _ _ _ _ _ _ _ _ constructed)
    as (Hs & Ht & _ & Hbs & Hspb & Hpwm & _ & _ & _ & Hlen).
  destruct (constructed_matrix_shape _ _ _ _ _ _ _ _ _ _ _ constructed contract)
    as [Hrows Hcols].
  set (cos_sims := Spec.similarity_matrix self model) in *.
  assert (Hpos : 0 < length src) by (destruct src; [done|simpl; lia]).
  assert (Hrow : ∀ i, i < length src →
            ∃ row j, cos_sims !! i = Some row ∧ np_argmax Rgtb row = Ok j
                     ∧ length row = length src
                     ∧ Spec.first_max_index Rgtb row j
                     ∧ Spec.is_match Rgtb cos_sims i = bool_decide (i = j)).
  { intros i Hi.
    destruct (row_argmax cos_sims i (length src)) as (row & j & Hr & Hj & Hl);
      [lia | done | done |].
    exists row, j. repeat split; [done..| |by apply (is_match_argmax _ row)].
    by apply (np_argmax_first_max Rgtb Rgtb_irrefl Rgtb_trans Rgtb_negtrans). }
  eexists _, _.
  split; [by apply (constructed_call _ _ _ _ _ _ _ _ _ _ _
                      constructed nonempty contract)|].
  split.
  { simpl. unfold Spec.wrong_match_report. fold cos_sims.
    by rewrite Hpwm, Hs, Ht, Hbs, Hspb. }
  split.
  { apply filter_seq_sorted. }
  split.
  { intros i. rewrite mismatches_elem, Hrows. split.
    - intros [Hi Hmiss]. split; [done|].
      destruct (Hrow i Hi) as (row & j & Hr & _ & _ & Hfirst & Hm).
      exists row, j. split; [done|]. split; [done|].
      rewrite Hm in Hmiss. apply bool_decide_eq_false in Hmiss. congruence.
    - intros (Hi & row & j & Hr & Hfirst & Hne). split; [done|].
      destruct (Hrow i Hi) as (row' & j' & Hr' & _ & _ & Hfirst' & ->).
      rewrite Hr in Hr'. injection Hr' as <-.
      apply bool_decide_eq_false. intros ->. apply Hne.
      by apply (first_max_index_unique Rgtb row). }
  intros i Hmem. apply mismatches_elem in Hmem as [Hi Hmiss].
  rewrite Hrows in Hi.
  destruct (Hrow i Hi) as (row & j & Hr & Hj & Hl & Hfirst & Hm).
  rewrite Hm in Hmiss. apply bool_decide_eq_false in Hmiss.
  pose proof (np_argmax_lt _ _ Hj) as Hjlt.
  destruct (lookup_lt_is_Some_2 src i Hi) as [s Hsi].
  destruct (lookup_lt_is_Some_2 trg j) as [t Htj]; [lia|].
  destruct (lookup_lt_is_Some_2 row j Hjlt) as [top Htop].
  destruct (lookup_lt_is_Some_2 row i) as [own Hown]; [lia|].
  destruct (ranking_spec row) as [Hperm Hsorted]. rewrite Hl in Hperm.
  exists row, j, s, t, top, own, (sorted_desc Rgtb (enumerate row)).
  repeat split; try done; try congruence.
  - apply Forall_forall. intros c Hc.
    apply sorted_desc_enumerate_elem in Hc. split; [done|].
    apply lookup_lt_is_Some_2. apply lookup_lt_Some in Hc. lia.
  - unfold Spec.wrong_match_block. rewrite Hr. cbv zeta.
    cbn [from_option Datatypes.id]. rewrite Hj, Hs, Ht, Hsi, Htj, Htop, Hown.
    done.
Qed.
End Report.

(** ** The diagnostic statistics *)

Lemma np_dot_self_nonneg (x : list R) : (0 <= np_dot x x)%R.
Proof.
  unfold np_dot. induction x as [|v x IH]; simpl; [lra|]. nra.
Qed.

Lemma row_norm_sqr (x : list R) : (row_norm x * row_norm x)%R = np_dot x x.
Proof. unfold row_norm. apply sqrt_sqrt, np_dot_self_nonneg. Qed.

Lemma np_dot_scaled_diff (x y : list R) (a b : R) :
  length x = length y → a ≠ 0%R → b ≠ 0%R →
  let d := Sklearn.row_diff (map (λ v, (v / a)%R) x) (map (λ v, (v / b)%R) y) in
  np_dot d d
  = (np_dot x x / (a * a) - 2 * (np_dot x y / (a * b)) + np_dot y y / (b * b))%R.
Proof.
  intros Hlen Ha Hb. cbv zeta. revert y Hlen.
  unfold np_dot, Sklearn.row_diff.
  induction x as [|u x IH]; intros [|v y] Hlen; simpl in *; try done.
  - field. done.
  - rewrite IH by lia. field. done.
Qed.

(** On vectors of equal length and non-zero norm, one minus sklearn's cosine
    distance is the cosine similarity. *)
Lemma cosine_distance_cosine (x y : list R) :
  length x = length y → row_norm x ≠ 0%R → row_norm y ≠ 0%R →
  (1 - Sklearn.cosine_distance x y)%R = cosine x y.
Proof.
  intros Hlen Hx Hy. unfold Sklearn.cosine_distance, Sklearn.normalize_row, cosine.
  destruct (Reqb (row_norm x) 0) eqn:Ex; [by apply Reqb_true in Ex|].
  destruct (Reqb (row_norm y) 0) eqn:Ey; [by apply Reqb_true in Ey|].
  cbv zeta. simpl orb. cbv iota.
  rewrite (np_dot_scaled_diff x y _ _ Hlen Hx Hy).
  rewrite !row_norm_sqr.
  assert (Hxx : np_dot x x ≠ 0%R).
  { rewrite <- row_norm_sqr. by apply Rmult_integral_contrapositive_currified. }
  assert (Hyy : np_dot y y ≠ 0%R).
  { rewrite <- row_norm_sqr. by apply Rmult_integral_contrapositive_currified. }
  replace 0.5%R with (1 / 2)%R by lra.
  field. done.
Qed.

Lemma np_dot_zero_l (x y : list R) : np_dot x x = 0%R → np_dot x y = 0%R.
Proof.
  unfold np_dot. revert y. induction x as [|v x IH]; intros y; [done|].
  cbn [zip_with foldr]. intros Hsum.
  pose proof (np_dot_self_nonneg x) as Hx. unfold np_dot in Hx.
  assert (Hv : v = 0%R) by nra.
  assert (Hrest : foldr Rplus 0%R (zip_with Rmult x x) = 0%R) by nra.
  destruct y as [|u y]; [done|]. cbn [zip_with foldr].
  rewrite (IH y Hrest), Hv. lra.
Qed.

Lemma cosine_zero_norm (x y : list R) :
  row_norm x = 0%R ∨ row_norm y = 0%R → cosine x y = 0%R.
Proof.
  intros Hz. unfold cosine.
  destruct (Reqb (row_norm x) 0) eqn:Ex; [done|].
  destruct (Reqb (row_norm y) 0) eqn:Ey; [done|].
  destruct Hz as [Hz | Hz]; apply Reqb_true in Hz; congruence.
Qed.

(** Where a vector is zero sklearn's cosine distance departs from the cosine
    similarity: the zero vector is left as it is by the normalisation, so the
    distance to a non-zero vector is 1/2, and to the zero vector 0. *)
Lemma cosine_distance_zero (x y : list R) :
  length x = length y →
  (row_norm x = 0%R → row_norm y ≠ 0%R →
   (1 - Sklearn.cosine_distance x y)%R = (1 / 2)%R)
  ∧ (row_norm x ≠ 0%R → row_norm y = 0%R →
     (1 - Sklearn.cosine_distance x y)%R = (1 / 2)%R)
  ∧ (row_norm x = 0%R → row_norm y = 0%R →
     (1 - Sklearn.cosine_distance x y)%R = 1%R).
Proof.
  intros Hlen.
  assert (Hzero : ∀ v : list R, row_norm v = 0%R → np_dot v v = 0%R).
  { intros v Hv. rewrite <- row_norm_sqr, Hv. lra. }
  assert (Hone : ∀ v : list R, row_norm v ≠ 0%R →
            (np_dot v v / (row_norm v * row_norm v))%R = 1%R).
  { intros v Hv. rewrite <- row_norm_sqr. by field. }
  assert (Hcomm : np_dot y x = np_dot x y).
  { unfold np_dot. f_equal. clear. revert y.
    induction x as [|u x IH]; intros [|v y]; simpl; [done..|].
    rewrite IH. f_equal. lra. }
  unfold Sklearn.cosine_distance, Sklearn.normalize_row. cbv zeta.
  split; [|split].
  - intros Hx Hy. rewrite Hx, (proj2 (Reqb_true 0 0)) by done.
    rewrite (Reqb_false _ _ Hy).
    rewrite (np_dot_scaled_diff x y 1 (row_norm y) Hlen) by (lra || done).
    rewrite (Hzero x Hx), (np_dot_zero_l x y (Hzero x Hx)), (Hone y Hy).
    replace 0.5%R with (1 / 2)%R by lra. field. done.
  - intros Hx Hy. rewrite Hy, (proj2 (Reqb_true 0 0)) by done.
    rewrite (Reqb_false _ _ Hx).
    rewrite (np_dot_scaled_diff x y (row_norm x) 1 Hlen) by (lra || done).
    rewrite (Hzero y Hy), <- Hcomm, (np_dot_zero_l y x (Hzero y Hy)), (Hone x Hx).
    replace 0.5%R with (1 / 2)%R by lra. field. done.
  - intros Hx Hy. rewrite Hx, Hy, (proj2 (Reqb_true 0 0)) by done.
    rewrite (np_dot_scaled_diff x y 1 1 Hlen) by lra.
    rewrite (Hzero x Hx), (Hzero y Hy), (np_dot_zero_l x y (Hzero x Hx)).
    replace 0.5%R with (1 / 2)%R by lra. field.
Qed.

Section Diagnostics.
Local Unset Default Proof Using.
Variables (src trg : list string) (spb : bool) (bs : Z) (nm : string).
Variables (pwm wcsv : bool) (w0 w0' : World) (self : TranslationEvaluator).
Variable model : SentenceEncoder.
Hypothesis constructed : __init__ src trg spb bs nm pwm wcsv w0 = (Ok self, w0').
Hypothesis nonempty : src ≠ [].
Hypothesis contract : Spec.encoder_contract model.

(** C9, amended.  Each of the four diagnostic lines holds a single number,
    computed between the concatenation [x] of all source embeddings and the
    concatenation [y] of all target embeddings: one minus sklearn's cosine
    distance, the negated Manhattan distance, the negated Euclidean distance
    and the dot product.  The first number is the cosine similarity of [x]
    and [y] when neither vector is zero; when exactly one of them is zero it
    is 1/2, and when both are zero it is 1, while the cosine similarity is 0
    in both cases.  The returned score is the mean of the two accuracies of
    the similarity matrix, and any encoder producing the same matrix gets the
    same score, whatever its diagnostics are. *)
Theorem C9_diagnostics_on_flattened_embeddings
        (output_path : option string) (epoch steps : Z) (w : World) :
  Spec.can_write self output_path w →
  let x := concat (embeddings model src spb bs) in
  let y := concat (embeddings model trg spb bs) in
  let cos_sims := Spec.similarity_matrix self model in
  let first := (1 - Sklearn.cosine_distance x y)%R in
  ∃ r w',
    __call__ self model output_path epoch steps w = (Ok r, w')
    ∧ length x = length y
    ∧ stdout w'
      = stdout w ++ Spec.wrong_match_report self cos_sims
          ++ [ PCosine [first];
               PManhattan [(- foldr Rplus 0 (map Rabs (zip_with Rminus x y)))%R];
               PEuclidean [(- sqrt (foldr Rplus 0 (map Rsqr (zip_with Rminus x y))))%R];
               PDot [foldr Rplus 0%R (zip_with Rmult x y)] ]
    ∧ (row_norm x ≠ 0%R → row_norm y ≠ 0%R → first = cosine x y)
    ∧ (row_norm x = 0%R → row_norm y ≠ 0%R →
       first = (1 / 2)%R ∧ cosine x y = 0%R)
    ∧ (row_norm x ≠ 0%R → row_norm y = 0%R →
       first = (1 / 2)%R ∧ cosine x y = 0%R)
    ∧ (row_norm x = 0%R → row_norm y = 0%R →
       first = 1%R ∧ cosine x y = 0%R)
    ∧ r = ((Spec.accuracy Rgtb cos_sims
            + Spec.accuracy Rgtb (np_transpose cos_sims)) / 2)%Q
    ∧ (∀ model',
         Spec.encoder_contract model' →
         Spec.similarity_matrix self model' = cos_sims →
         fst (__call__ self model' output_path epoch steps w) = Ok r).
Proof.
  intros Hcan. cbv zeta.
  destruct (constructed_fields _ _ _ _ _ _ _ _ _ _ constructed)
    as (Hs & Ht & _ & Hbs & Hspb & _ & _ & _ & _ & Hlen).
  assert (Hflat : length (concat (embeddings model src spb bs))
                  = length (concat (embeddings model trg spb bs))).
  { rewrite <- Hs, <- Ht, <- Hbs, <- Hspb.
    apply flattened_lengths; [done|]. by rewrite Hs, Ht. }
  destruct (cosine_distance_zero _ _ Hflat) as (Hzx & Hzy & Hzz).
  eexists _, _.
  split; [by apply (constructed_call _ _ _ _ _ _ _ _ _ _ _
                      constructed nonempty contract)|].
  split; [done|]. split.
  { simpl. unfold Spec.diagnostics, Sklearn.manhattan_distance,
      Sklearn.euclidean_distance, Sklearn.row_diff, row_norm.
    rewrite np_dot_self, Hs, Ht, Hbs, Hspb. done. }
  split; [by apply cosine_distance_cosine|].
  split; [intros Hx Hy; split; [by apply Hzx | apply cosine_zero_norm; by left]|].
  split; [intros Hx Hy; split; [by apply Hzy | apply cosine_zero_norm; by right]|].
  split; [intros Hx Hy; split; [by apply Hzz | apply cosine_zero_norm; by left]|].
  split; [done|].
  intros model' Hc' Hm.
  rewrite (constructed_call _ _ _ _ _ _ _ _ _ _ _ constructed nonempty Hc')
    by done.
  simpl. unfold Spec.score, Spec.acc_src2trg, Spec.acc_trg2src. by rewrite Hm.
Qed.
End Diagnostics.

(** ** The two flags *)

Lemma table_encoder_contract (table : string → bool → list R) (D : nat) :
  0 < D → (∀ s b, length (table s b) = D) →
  Spec.encoder_contract (table_encoder table).
Proof.
  intros HD Hlen. exists D. split; [done|]. intros sentences spb bs ctn.
  eexists. split; [reflexivity|]. split.
  - by rewrite length_map.
  - apply Forall_forall. intros v Hv.
    apply list_elem_of_fmap in Hv as (s & -> & _). apply Hlen.
Qed.

Lemma sign_table_contract : Spec.encoder_contract (table_encoder sign_table).
Proof. apply (table_encoder_contract _ 1); [lia | done]. Qed.

Lemma zero_table_contract : Spec.encoder_contract (table_encoder zero_table).
Proof. apply (table_encoder_contract _ 1); [lia | done]. Qed.

Lemma sign_table_ignores_progress_bar :
  Spec.ignores_progress_bar (table_encoder sign_table).
Proof. by intros sentences spb spb' bs ctn. Qed.

Lemma row_norm_singleton (x : R) : row_norm [x] = Rabs x.
Proof.
  unfold row_norm, np_dot. simpl.
  replace (x * x + 0)%R with (Rsqr x) by (unfold Rsqr; lra).
  apply sqrt_Rsqr_abs.
Qed.

Lemma cosine_singleton (x y : R) :
  x ≠ 0%R → y ≠ 0%R → cosine [x] [y] = (x * y / (Rabs x * Rabs y))%R.
Proof.
  intros Hx Hy. unfold cosine. rewrite !row_norm_singleton.
  rewrite !Reqb_false by (by apply Rabs_no_R0). simpl.
  unfold np_dot. simpl. f_equal. lra.
Qed.

Lemma cosine_zero_l (y : list R) : cosine [0%R] y = 0%R.
Proof.
  unfold cosine. rewrite row_norm_singleton, Rabs_R0.
  by rewrite (proj2 (Reqb_true 0 0)).
Qed.

Lemma cosine_signs :
  cosine [1%R] [1%R] = 1%R ∧ cosine [1%R] [(-1)%R] = (-1)%R
  ∧ cosine [(-1)%R] [1%R] = (-1)%R ∧ cosine [(-1)%R] [(-1)%R] = 1%R.
Proof.
  rewrite !cosine_singleton by lra.
  assert (Hm : Rabs (-1) = 1%R)
    by (unfold Rabs; destruct (Rcase_abs (-1)); lra).
  rewrite Hm, Rabs_R1. repeat split; lra.
Qed.

Ltac compare_scores :=
  repeat match goal with
         | |- context [Rgtb ?a ?b] =>
             first [ rewrite (proj2 (Rgtb_true a b)) by lra
                   | rewrite (proj2 (Rgtb_false a b)) by lra ]
         end.

Lemma accuracy_identity_signs :
  Spec.accuracy Rgtb [[1%R; (-1)%R]; [(-1)%R; 1%R]] = (2 # 2)%Q.
Proof.
  unfold Spec.accuracy, Spec.matches, Spec.is_match, Spec.first_max_indexb.
  simpl. compare_scores. reflexivity.
Qed.

Lemma ab_evaluator_constructed (spb pwm : bool) (w : World) :
  __init__ ["a"; "b"] ["a"; "b"] spb 16 "" pwm true w
  = (Ok (ab_evaluator spb pwm), w).
Proof. reflexivity. Qed.

Lemma ab_evaluator_run (spb pwm : bool) (model : SentenceEncoder)
      (output_path : option string) (epoch steps : Z) (w : World) :
  Spec.encoder_contract model →
  Spec.can_write (ab_evaluator spb pwm) output_path w →
  __call__ (ab_evaluator spb pwm) model output_path epoch steps w
  = (Ok (Spec.score (ab_evaluator spb pwm) model),
     Spec.world_after (ab_evaluator spb pwm) output_path (model, epoch, steps) w).
Proof.
  intros Hc Hcan.
  by apply (constructed_call _ _ _ _ _ _ _ _ _ _ _
              (ab_evaluator_constructed spb pwm w)).
Qed.

Lemma embeddings_ignore_progress_bar (model : SentenceEncoder)
      (sentences : list string) (spb spb' : bool) (bs : Z) :
  Spec.ignores_progress_bar model →
  embeddings model sentences spb bs = embeddings model sentences spb' bs.
Proof.
  intros Hmodel. unfold embeddings.
  by rewrite (Hmodel sentences spb spb' bs false).
Qed.

Section Flags.
Local Unset Default Proof Using.
Variables (src trg : list string) (bs : Z) (nm : string) (wcsv : bool).
Variables (spb1 pwm1 spb2 pwm2 : bool) (w1 w1' w2 w2' : World).
Variables (run1 run2 : TranslationEvaluator) (model : SentenceEncoder).
Hypothesis constructed1 :
  __init__ src trg spb1 bs nm pwm1 wcsv w1 = (Ok run1, w1').
Hypothesis constructed2 :
  __init__ src trg spb2 bs nm pwm2 wcsv w2 = (Ok run2, w2').
Hypothesis nonempty : src ≠ [].
Hypothesis contract : Spec.encoder_contract model.
Hypothesis text_only : Spec.ignores_progress_bar model.

(** C10.  For an encoder that keeps its contract and whose answer does not
    depend on its [show_progress_bar] argument, two runs from the same world
    that differ only in [print_wrong_matches] and [show_progress_bar] have
    the same two accuracies, return the same score, log the same records and
    leave the same files, with the same data row.  The flags reach the
    console and the encoder only: [show_progress_bar] is handed to the
    encoder as it is in both of its calls, and the two consoles hold the same
    four diagnostic lines, in front of them the same report of wrong matches
    where [print_wrong_matches] is on and nothing where it is off. *)
Theorem C10_flags_leave_results_unchanged
        (output_path : option string) (epoch steps : Z) (w : World) :
  Spec.can_write run1 output_path w →
  let a1 := Spec.acc_src2trg run1 model in
  let a2 := Spec.acc_trg2src run1 model in
  Spec.acc_src2trg run2 model = a1
  ∧ Spec.acc_trg2src run2 model = a2
  ∧ ∃ r wa wb report diagnostics,
      __call__ run1 model output_path epoch steps w = (Ok r, wa)
      ∧ __call__ run2 model output_path epoch steps w = (Ok r, wb)
      ∧ r = ((a1 + a2) / 2)%Q
      ∧ logs wa = logs w ++ [ LogEvaluating nm (Spec.out_txt_of epoch steps);
                              LogAccSrc2Trg (a1 * 100);
                              LogAccTrg2Src (a2 * 100);
                              LogSimilarity ]
      ∧ logs wb = logs wa
      ∧ fs wa = Spec.fs_after run1 output_path (model, epoch, steps) (fs w)
      ∧ fs wb = fs wa
      ∧ (∀ dir, output_path = Some dir → wcsv = true →
           ∃ rows, fs wa !! os_path_join dir (csv_file run1)
                   = Some (rows ++ [[CInt epoch; CInt steps;
                                     CFloat a1; CFloat a2]]))
      ∧ stdout wa = stdout w ++ (if pwm1 then report else []) ++ diagnostics
      ∧ stdout wb = stdout w ++ (if pwm2 then report else []) ++ diagnostics
      ∧ length diagnostics = 4
      ∧ encoded wa = encoded w ++ [ mkEncodeCall src spb1 bs false;
                                    mkEncodeCall trg spb1 bs false ]
      ∧ encoded wb = encoded w ++ [ mkEncodeCall src spb2 bs false;
                                    mkEncodeCall trg spb2 bs false ].
Proof.
  intros Hcan. cbv zeta.
  destruct (init_ok_inv _ _ _ _ _ _ _ _ _ _ constructed1) as (_ & _ & E1).
  destruct (init_ok_inv _ _ _ _ _ _ _ _ _ _ constructed2) as (_ & _ & E2).
  assert (Hsrc : embeddings model src spb1 bs = embeddings model src spb2 bs)
    by by apply embeddings_ignore_progress_bar.
  assert (Htrg : embeddings model trg spb1 bs = embeddings model trg spb2 bs)
    by by apply embeddings_ignore_progress_bar.
  assert (Hm : Spec.similarity_matrix run1 model = Spec.similarity_matrix run2 model).
  { unfold Spec.similarity_matrix. rewrite E1, E2. simpl.
    by rewrite Hsrc, Htrg. }
  assert (H1 : Spec.acc_src2trg run1 model = Spec.acc_src2trg run2 model)
    by (unfold Spec.acc_src2trg; by rewrite Hm).
  assert (H2 : Spec.acc_trg2src run1 model = Spec.acc_trg2src run2 model)
    by (unfold Spec.acc_trg2src; by rewrite Hm).
  assert (Hcan2 : Spec.can_write run2 output_path w).
  { intros p Hp. apply Hcan. revert Hp. unfold Spec.results_path.
    by rewrite E1, E2. }
  split; [done|]. split; [done|].
  exists (Spec.score run1 model),
    (Spec.world_after run1 output_path (model, epoch, steps) w),
    (Spec.world_after run2 output_path (model, epoch, steps) w),
    (concat (map (Spec.wrong_match_block run1 (Spec.similarity_matrix run1 model))
                 (Spec.mismatches Rgtb (Spec.similarity_matrix run1 model)))),
    (Spec.diagnostics (embeddings model src spb1 bs)
                      (embeddings model trg spb1 bs)).
  split.
  { by apply (constructed_call _ _ _ _ _ _ _ _ _ _ _
                constructed1 nonempty contract). }
  split.
  { rewrite (constructed_call _ _ _ _ _ _ _ _ _ _ _
               constructed2 nonempty contract) by done.
    unfold Spec.score. rewrite <- H1, <- H2. reflexivity. }
  split; [done|].
  assert (Hfs : Spec.fs_after run2 output_path (model, epoch, steps) (fs w)
                = Spec.fs_after run1 output_path (model, epoch, steps) (fs w)).
  { unfold Spec.fs_after, Spec.data_row. rewrite H1, H2. by rewrite E1, E2. }
  assert (Hblock : Spec.wrong_match_block run2 (Spec.similarity_matrix run1 model)
                   = Spec.wrong_match_block run1 (Spec.similarity_matrix run1 model)).
  { unfold Spec.wrong_match_block. by rewrite E1, E2. }
  split; [simpl; by rewrite E1|].
  split; [simpl; rewrite <- H1, <- H2; by rewrite E1, E2|].
  split; [done|]. split; [done|].
  split.
  { intros dir -> Hcsv. simpl. unfold Spec.fs_after.
    replace (write_csv run1) with true by (by rewrite E1, Hcsv).
    rewrite lookup_insert_eq. eauto. }
  destruct (constructed_fields _ _ _ _ _ _ _ _ _ _ constructed1)
    as (Hs1 & Ht1 & _ & Hbs1 & Hspb1 & Hpwm1 & _).
  destruct (constructed_fields _ _ _ _ _ _ _ _ _ _ constructed2)
    as (Hs2 & Ht2 & _ & Hbs2 & Hspb2 & Hpwm2 & _).
  split.
  { simpl. unfold Spec.wrong_match_report.
    by rewrite Hpwm1, Hs1, Ht1, Hbs1, Hspb1. }
  split.
  { simpl. unfold Spec.wrong_match_report. rewrite <- Hm, Hblock.
    by rewrite Hpwm2, Hs2, Ht2, Hbs2, Hspb2, <- Hsrc, <- Htrg. }
  split; [done|].
  split; simpl; [by rewrite Hs1, Ht1, Hbs1, Hspb1|].
  by rewrite Hs2, Ht2, Hbs2, Hspb2.
Qed.
End Flags.

(** * The properties on concrete inputs

    Two sentences in each language, the encoder [table_encoder sign_table]. *)

Lemma pair_evaluator_constructed_ab_ba (spb pwm : bool) (w : World) :
  __init__ ["a"; "b"] ["b"; "a"] spb 16 "" pwm true w
  = (Ok (pair_evaluator ["a"; "b"] ["b"; "a"] spb pwm), w).
Proof. reflexivity. Defined.

Lemma pair_evaluator_constructed_ba_ab (spb pwm : bool) (w : World) :
  __init__ ["b"; "a"] ["a"; "b"] spb 16 "" pwm true w
  = (Ok (pair_evaluator ["b"; "a"] ["a"; "b"] spb pwm), w).
Proof. reflexivity. Defined.

Lemma pair_evaluator_constructed_ab_aa (spb pwm : bool) (w : World) :
  __init__ ["a"; "b"] ["a"; "a"] spb 16 "" pwm true w
  = (Ok (pair_evaluator ["a"; "b"] ["a"; "a"] spb pwm), w).
Proof. reflexivity. Defined.

Lemma ab_nonempty : ["a"; "b"] ≠ @nil string.
Proof. discriminate. Defined.

Lemma can_write_none (self : TranslationEvaluator) (w : World) :
  Spec.can_write self None w.
Proof. intros p Hp. discriminate Hp. Qed.

Lemma can_write_out (src trg : list string) (spb pwm : bool) :
  Spec.can_write (pair_evaluator src trg spb pwm) (Some "out") out_world.
Proof.
  intros p Hp. injection Hp as <-.
  unfold out_world. cbn [writable]. by apply elem_of_singleton_2.
Qed.

Lemma sign_matrix_ab_ab (spb pwm : bool) :
  Spec.similarity_matrix (ab_evaluator spb pwm) (table_encoder sign_table)
  = [[1%R; (-1)%R]; [(-1)%R; 1%R]].
Proof.
  destruct cosine_signs as (H11 & H1m & Hm1 & Hmm).
  unfold Spec.similarity_matrix.
  cbn [ab_evaluator pair_evaluator source_sentences target_sentences
       show_progress_bar batch_size].
  change (embeddings (table_encoder sign_table) ["a"; "b"] spb 16)
    with [[1%R]; [(-1)%R]].
  unfold pytorch_cos_sim. cbn [map]. by rewrite H11, H1m, Hm1, Hmm.
Qed.

Lemma sign_matrix_ab_ba (spb pwm : bool) :
  Spec.similarity_matrix (pair_evaluator ["a"; "b"] ["b"; "a"] spb pwm)
                         (table_encoder sign_table)
  = [[(-1)%R; 1%R]; [1%R; (-1)%R]].
Proof.
  destruct cosine_signs as (H11 & H1m & Hm1 & Hmm).
  unfold Spec.similarity_matrix.
  cbn [pair_evaluator source_sentences target_sentences
       show_progress_bar batch_size].
  change (embeddings (table_encoder sign_table) ["a"; "b"] spb 16)
    with [[1%R]; [(-1)%R]].
  change (embeddings (table_encoder sign_table) ["b"; "a"] spb 16)
    with [[(-1)%R]; [1%R]].
  unfold pytorch_cos_sim. cbn [map]. by rewrite H11, H1m, Hm1, Hmm.
Qed.

Lemma sign_matrix_ab_aa (spb pwm : bool) :
  Spec.similarity_matrix (pair_evaluator ["a"; "b"] ["a"; "a"] spb pwm)
                         (table_encoder sign_table)
  = [[1%R; 1%R]; [(-1)%R; (-1)%R]].
Proof.
  destruct cosine_signs as (H11 & H1m & Hm1 & Hmm).
  unfold Spec.similarity_matrix.
  cbn [pair_evaluator source_sentences target_sentences
       show_progress_bar batch_size].
  change (embeddings (table_encoder sign_table) ["a"; "b"] spb 16)
    with [[1%R]; [(-1)%R]].
  change (embeddings (table_encoder sign_table) ["a"; "a"] spb 16)
    with [[1%R]; [1%R]].
  unfold pytorch_cos_sim. cbn [map]. by rewrite H11, Hm1.
Qed.

(** In the matrix [[1, 1], [-1, -1]] row 0 has its first maximum at 0 and
    row 1 has it at 0 too; so has each row of the transposed matrix. *)
Lemma half_matched_counts :
  (Z.of_nat (length (List.filter
                       (Spec.is_match Rgtb [[1%R; 1%R]; [(-1)%R; (-1)%R]])
                       (seq 0 2)))
   # Pos.of_nat 2) = (1 # 2)%Q
  ∧ (Z.of_nat (length (List.filter
                         (Spec.is_match Rgtb
                            (np_transpose [[1%R; 1%R]; [(-1)%R; (-1)%R]]))
                         (seq 0 2)))
     # Pos.of_nat 2) = (1 # 2)%Q.
Proof.
  unfold Spec.is_match, Spec.first_max_indexb.
  simpl. compare_scores. split; reflexivity.
Qed.

(** The report for the matrix [[-1, 1], [1, -1]]: both rows miss. *)
Lemma swapped_signs_report (spb : bool) :
  let self := pair_evaluator ["a"; "b"] ["b"; "a"] spb true in
  let cos_sims := [[(-1)%R; 1%R]; [1%R; (-1)%R]] in
  concat (map (Spec.wrong_match_block self cos_sims)
              (Spec.mismatches Rgtb cos_sims))
  = [ PMismatch 0 1 "INCORRECT"; PSrc "a"; PTrg "a"; PScores 1 (-1);
      PCandidate 1 1 "a"; PCandidate 0 (-1) "b";
      PMismatch 1 0 "INCORRECT"; PSrc "b"; PTrg "b"; PScores 1 (-1);
      PCandidate 0 1 "b"; PCandidate 1 (-1) "a" ].
Proof.
  cbv zeta.
  unfold Spec.mismatches, Spec.is_match, Spec.first_max_indexb.
  simpl. compare_scores. simpl.
  unfold Spec.wrong_match_block. simpl. compare_scores. simpl.
  compare_scores. reflexivity.
Qed.

Lemma C1_accuracies_witness :
  let self := pair_evaluator ["a"; "b"] ["a"; "a"] false false in
  let model := table_encoder sign_table in
  __init__ ["a"; "b"] ["a"; "a"] false 16 "" false true out_world
  = (Ok self, out_world)
  ∧ ["a"; "b"] ≠ []
  ∧ Spec.encoder_contract model
  ∧ Spec.can_write self (Some "out") out_world
  ∧ Spec.similarity_matrix self model = [[1%R; 1%R]; [(-1)%R; (-1)%R]]
  ∧ Spec.acc_src2trg self model = (1 # 2)%Q
  ∧ Spec.acc_trg2src self model = (1 # 2)%Q
  ∧ ∃ w', __call__ self model (Some "out") 0 7 out_world
          = (Ok (((1 # 2) + (1 # 2)) / 2)%Q, w')
          ∧ logs w' = [ LogEvaluating "" (InEpochAfterSteps 0 7);
                        LogAccSrc2Trg ((1 # 2) * 100);
                        LogAccTrg2Src ((1 # 2) * 100);
                        LogSimilarity ]
          ∧ ∃ rows, fs w' !! "out/translation_evaluation_results.csv"
                    = Some (rows ++ [[CInt 0; CInt 7;
                                      CFloat (1 # 2); CFloat (1 # 2)]]).
Proof.
  cbv zeta.
  pose proof (C1_accuracies_count_diagonal_argmax
                ["a"; "b"] ["a"; "a"] false 16 "" false true
                out_world out_world _ (table_encoder sign_table)
                (pair_evaluator_constructed_ab_aa false false out_world)
                ab_nonempty sign_table_contract (Some "out") 0%Z 7%Z out_world
                (can_write_out ["a"; "b"] ["a"; "a"] false false)) as Hrun.
  cbv zeta in Hrun. rewrite sign_matrix_ab_aa in Hrun. cbn [length] in Hrun.
  destruct half_matched_counts as [E1 E2]. rewrite E1, E2 in Hrun.
  destruct Hrun as (_ & _ & _ & _ & _ & Ha1 & Ha2 & w' & Hcall & Hlogs & Hcsv).
  split; [reflexivity|]. split; [apply ab_nonempty|].
  split; [apply sign_table_contract|]. split; [apply can_write_out|].
  split; [apply sign_matrix_ab_aa|]. split; [exact Ha1|]. split; [exact Ha2|].
  exists w'. split; [exact Hcall|]. split; [exact Hlogs|].
  exact (Hcsv "out" eq_refl eq_refl).
Defined.

Lemma C2_score_witness :
  let self := pair_evaluator ["a"; "b"] ["b"; "a"] false false in
  let model := table_encoder sign_table in
  __init__ ["a"; "b"] ["b"; "a"] false 16 "" false true empty_world
  = (Ok self, empty_world)
  ∧ ["a"; "b"] ≠ []
  ∧ Spec.encoder_contract model
  ∧ Spec.can_write self None empty_world
  ∧ ∃ r w',
      __call__ self model None (-1) (-1) empty_world = (Ok r, w')
      ∧ r = ((Spec.acc_src2trg self model + Spec.acc_trg2src self model) / 2)%Q
      ∧ (0 <= r <= 1)%Q.
Proof.
  cbv zeta.
  split; [reflexivity|]. split; [apply ab_nonempty|].
  split; [apply sign_table_contract|]. split; [apply can_write_none|].
  apply (C2_score_is_mean_in_unit_interval
           ["a"; "b"] ["b"; "a"] false 16 "" false true
           empty_world empty_world _ (table_encoder sign_table)
           (pair_evaluator_constructed_ab_ba false false empty_world)
           ab_nonempty sign_table_contract None (-1) (-1) empty_world
           (can_write_none _ _)).
Defined.

Lemma C4_swap_witness :
  let self := pair_evaluator ["a"; "b"] ["b"; "a"] false false in
  let swapped := pair_evaluator ["b"; "a"] ["a"; "b"] false false in
  let model := table_encoder sign_table in
  __init__ ["a"; "b"] ["b"; "a"] false 16 "" false true empty_world
  = (Ok self, empty_world)
  ∧ __init__ ["b"; "a"] ["a"; "b"] false 16 "" false true empty_world
    = (Ok swapped, empty_world)
  ∧ ["a"; "b"] ≠ []
  ∧ Spec.encoder_contract model
  ∧ Spec.can_write self None empty_world
  ∧ Spec.can_write swapped None empty_world
  ∧ Spec.acc_src2trg swapped model = Spec.acc_trg2src self model
  ∧ Spec.acc_trg2src swapped model = Spec.acc_src2trg self model
  ∧ ∃ r wa wb,
      __call__ self model None (-1) (-1) empty_world = (Ok r, wa)
      ∧ __call__ swapped model None (-1) (-1) empty_world = (Ok r, wb).
Proof.
  cbv zeta.
  destruct (C4_swap_exchanges_accuracies
              ["a"; "b"] ["b"; "a"] false 16 "" false true
              empty_world empty_world empty_world empty_world _ _
              (table_encoder sign_table)
              (pair_evaluator_constructed_ab_ba false false empty_world)
              (pair_evaluator_constructed_ba_ab false false empty_world)
              ab_nonempty sign_table_contract
              None None (-1) (-1) (-1) (-1) empty_world empty_world
              (can_write_none _ _) (can_write_none _ _))
    as (H1 & H2 & r & wa & wb & Ha & Hb & _).
  split; [reflexivity|]. split; [reflexivity|]. split; [apply ab_nonempty|].
  split; [apply sign_table_contract|].
  split; [apply can_write_none|]. split; [apply can_write_none|].
  split; [exact H1|]. split; [exact H2|].
  exists r, wa, wb. split; [exact Ha | exact Hb].
Defined.

Lemma C5_results_file_witness :
  let self := pair_evaluator ["a"; "b"] ["b"; "a"] false false in
  let model := table_encoder sign_table in
  let calls := [(model, 0%Z, 100%Z); (model, 1%Z, (-1)%Z)] in
  __init__ ["a"; "b"] ["b"; "a"] false 16 "" false true out_world
  = (Ok self, out_world)
  ∧ ["a"; "b"] ≠ []
  ∧ Forall (λ c, Spec.encoder_contract c.1.1) calls
  ∧ "out/translation_evaluation_results.csv" ∈ writable out_world
  ∧ ∃ scores w',
      call_sequence self (Some "out") calls out_world = (Ok scores, w')
      ∧ fs w' !! "out/translation_evaluation_results.csv"
        = Some [ [CStr "epoch"; CStr "steps"; CStr "src2trg"; CStr "trg2src"];
                 [CInt 0; CInt 100; CFloat (Spec.acc_src2trg self model);
                  CFloat (Spec.acc_trg2src self model)];
                 [CInt 1; CInt (-1); CFloat (Spec.acc_src2trg self model);
                  CFloat (Spec.acc_trg2src self model)] ].
Proof.
  cbv zeta.
  assert (Hcalls : Forall (λ c : SentenceEncoder * Z * Z,
                             Spec.encoder_contract c.1.1)
                          [(table_encoder sign_table, 0%Z, 100%Z);
                           (table_encoder sign_table, 1%Z, (-1)%Z)]).
  { repeat constructor; apply sign_table_contract. }
  assert (Hcan : "out/translation_evaluation_results.csv" ∈ writable out_world)
    by (unfold out_world; cbn [writable]; by apply elem_of_singleton_2).
  destruct (C5_results_file_after_k_calls
              ["a"; "b"] ["b"; "a"] false 16 "" false
              out_world out_world _ "out"
              (pair_evaluator_constructed_ab_ba false false out_world)
              ab_nonempty _ _ out_world Hcalls Hcan)
    as (scores & w' & Hrun & _ & Hfresh & _).
  split; [reflexivity|]. split; [apply ab_nonempty|]. split; [exact Hcalls|].
  split; [exact Hcan|].
  exists scores, w'. split; [exact Hrun|].
  apply Hfresh. reflexivity.
Defined.

(** C6, as stated, fails: on zero sentences the evaluation neither yields
    the accuracy 0 nor raises an error of the evaluator; it stops with the
    [RuntimeError] of [torch.stack]. *)
Lemma C6_empty_input_not_guarded :
  let self := pair_evaluator [] [] false false in
  let model := table_encoder sign_table in
  __init__ [] [] false 16 "" false true empty_world = (Ok self, empty_world)
  ∧ Spec.encoder_contract model
  ∧ fst (__call__ self model None (-1) (-1) empty_world) = Raise RuntimeError
  ∧ ¬ Spec.guarded_empty_outcome
        (fst (__call__ self model None (-1) (-1) empty_world)).
Proof.
  cbv zeta. split; [reflexivity|]. split; [apply sign_table_contract|].
  split; [reflexivity|].
  change (fst (__call__ (pair_evaluator [] [] false false)
                        (table_encoder sign_table) None (-1) (-1) empty_world))
    with (@Raise Q RuntimeError).
  intros [Hzero | Hassert]; discriminate.
Qed.

Lemma C6_empty_input_witness :
  Spec.encoder_contract (table_encoder sign_table)
  ∧ __call__ (pair_evaluator [] [] false false) (table_encoder sign_table)
             None (-1) (-1) empty_world
    = (Raise RuntimeError,
       mkWorld ∅ [] [LogEvaluating "" Colon]
               [mkEncodeCall [] false 16 false; mkEncodeCall [] false 16 false]
               ∅).
Proof.
  split; [apply sign_table_contract|].
  destruct (C6_empty_input_fails_in_torch_stack
              false 16 "" false true (table_encoder sign_table)
              None (-1) (-1) empty_world sign_table_contract)
    as [(self & Hinit & Hcall) _].
  injection Hinit as <-. exact Hcall.
Defined.

Lemma C7_similarity_witness :
  [[1%R; 0%R]] !! 0 = Some [1%R; 0%R]
  ∧ [[0%R; 2%R]] !! 0 = Some [0%R; 2%R]
  ∧ pytorch_cos_sim [[1%R; 0%R]] [[0%R; 2%R]] !! 0 ≫= (λ row, row !! 0)
    = Some (cosine [1%R; 0%R] [0%R; 2%R]).
Proof.
  split; [reflexivity|]. split; [reflexivity|].
  apply (C7_similarity_matrix_entries
           [[1%R; 0%R]] [[0%R; 2%R]] 0 0 [1%R; 0%R] [0%R; 2%R]
           eq_refl eq_refl).
Defined.

Lemma C8_report_witness :
  let self := pair_evaluator ["a"; "b"] ["b"; "a"] false true in
  let model := table_encoder sign_table in
  __init__ ["a"; "b"] ["b"; "a"] false 16 "" true true empty_world
  = (Ok self, empty_world)
  ∧ ["a"; "b"] ≠ []
  ∧ Spec.encoder_contract model
  ∧ Spec.can_write self None empty_world
  ∧ Spec.similarity_matrix self model = [[(-1)%R; 1%R]; [1%R; (-1)%R]]
  ∧ ∃ r w',
      __call__ self model None (-1) (-1) empty_world = (Ok r, w')
      ∧ stdout w'
        = [ PMismatch 0 1 "INCORRECT"; PSrc "a"; PTrg "a"; PScores 1 (-1);
            PCandidate 1 1 "a"; PCandidate 0 (-1) "b";
            PMismatch 1 0 "INCORRECT"; PSrc "b"; PTrg "b"; PScores 1 (-1);
            PCandidate 0 1 "b"; PCandidate 1 (-1) "a" ]
          ++ Spec.diagnostics [[1%R]; [(-1)%R]] [[(-1)%R]; [1%R]].
Proof.
  cbv zeta.
  destruct (C8_wrong_matches_report
              ["a"; "b"] ["b"; "a"] false 16 "" true
              empty_world empty_world _ (table_encoder sign_table)
              (pair_evaluator_constructed_ab_ba false true empty_world)
              ab_nonempty sign_table_contract None (-1) (-1) empty_world
              (can_write_none _ _))
    as (r & w' & Hcall & Hout & _).
  rewrite sign_matrix_ab_ba in Hout.
  rewrite (swapped_signs_report false) in Hout.
  split; [reflexivity|]. split; [apply ab_nonempty|].
  split; [apply sign_table_contract|]. split; [apply can_write_none|].
  split; [apply sign_matrix_ab_ba|].
  exists r, w'. split; [exact Hcall | exact Hout].
Defined.

(** C9, as stated, fails for the first statistic: with a zero flattened
    vector the printed number is not the cosine similarity.  The table
    [zero_table] sends ["a"] to the zero vector; the evaluation of ["a"]
    against ["b"] prints 1/2 where the cosine similarity is 0. *)
Lemma C9_zero_vector_statistic :
  let self := pair_evaluator ["a"] ["b"] false false in
  let model := table_encoder zero_table in
  let x := concat (embeddings model ["a"] false 16) in
  let y := concat (embeddings model ["b"] false 16) in
  __init__ ["a"] ["b"] false 16 "" false true empty_world
  = (Ok self, empty_world)
  ∧ Spec.encoder_contract model
  ∧ x = [0%R] ∧ y = [1%R]
  ∧ (∃ r w' rest,
       __call__ self model None (-1) (-1) empty_world = (Ok r, w')
       ∧ stdout w' = PCosine [(1 / 2)%R] :: rest)
  ∧ cosine x y = 0%R
  ∧ (1 / 2)%R ≠ 0%R.
Proof.
  cbv zeta.
  assert (Hnx : row_norm [0%R] = 0%R)
    by (rewrite row_norm_singleton; apply Rabs_R0).
  assert (Hny : row_norm [1%R] ≠ 0%R)
    by (rewrite row_norm_singleton, Rabs_R1; lra).
  split; [reflexivity|]. split; [apply zero_table_contract|].
  split; [reflexivity|]. split; [reflexivity|]. split.
  - eexists _, _, _. split.
    + apply (constructed_call ["a"] ["b"] false 16 "" false true
               empty_world empty_world _ (table_encoder zero_table) eq_refl);
        [discriminate | apply zero_table_contract | apply can_write_none].
    + cbn [stdout Spec.world_after Spec.world_before_write empty_world].
      unfold Spec.wrong_match_report, Spec.diagnostics.
      cbn [pair_evaluator print_wrong_matches source_sentences
           target_sentences show_progress_bar batch_size app].
      change (concat (embeddings (table_encoder zero_table) ["a"] false 16))
        with [0%R].
      change (concat (embeddings (table_encoder zero_table) ["b"] false 16))
        with [1%R].
      destruct (cosine_distance_zero [0%R] [1%R] eq_refl) as (Hhalf & _ & _).
      rewrite (Hhalf Hnx Hny). reflexivity.
  - split; [|lra].
    change (concat (embeddings (table_encoder zero_table) ["a"] false 16))
      with [0%R].
    apply cosine_zero_norm. by left.
Qed.

Lemma C9_diagnostics_witness :
  let self := pair_evaluator ["a"; "b"] ["b"; "a"] false false in
  let model := table_encoder sign_table in
  let x := concat (embeddings model ["a"; "b"] false 16) in
  let y := concat (embeddings model ["b"; "a"] false 16) in
  __init__ ["a"; "b"] ["b"; "a"] false 16 "" false true empty_world
  = (Ok self, empty_world)
  ∧ ["a"; "b"] ≠ []
  ∧ Spec.encoder_contract model
  ∧ Spec.can_write self None empty_world
  ∧ x = [1%R; (-1)%R] ∧ y = [(-1)%R; 1%R]
  ∧ ∃ r w',
      __call__ self model None (-1) (-1) empty_world = (Ok r, w')
      ∧ length x = length y
      ∧ stdout w'
        = stdout empty_world
            ++ Spec.wrong_match_report self (Spec.similarity_matrix self model)
            ++ [ PCosine [(1 - Sklearn.cosine_distance x y)%R];
                 PManhattan [(- foldr Rplus 0 (map Rabs (zip_with Rminus x y)))%R];
                 PEuclidean [(- sqrt (foldr Rplus 0
                                        (map Rsqr (zip_with Rminus x y))))%R];
                 PDot [foldr Rplus 0%R (zip_with Rmult x y)] ].
Proof.
  cbv zeta.
  destruct (C9_diagnostics_on_flattened_embeddings
              ["a"; "b"] ["b"; "a"] false 16 "" false true
              empty_world empty_world _ (table_encoder sign_table)
              (pair_evaluator_constructed_ab_ba false false empty_world)
              ab_nonempty sign_table_contract None (-1) (-1) empty_world
              (can_write_none _ _))
    as (r & w' & Hcall & Hlen & Hout & _).
  split; [reflexivity|]. split; [apply ab_nonempty|].
  split; [apply sign_table_contract|]. split; [apply can_write_none|].
  split; [reflexivity|]. split; [reflexivity|].
  exists r, w'. split; [exact Hcall|]. split; [exact Hlen | exact Hout].
Defined.

Lemma C10_flags_witness :
  let run1 := pair_evaluator ["a"; "b"] ["b"; "a"] false false in
  let run2 := pair_evaluator ["a"; "b"] ["b"; "a"] true true in
  let model := table_encoder sign_table in
  __init__ ["a"; "b"] ["b"; "a"] false 16 "" false true out_world
  = (Ok run1, out_world)
  ∧ __init__ ["a"; "b"] ["b"; "a"] true 16 "" true true out_world
    = (Ok run2, out_world)
  ∧ ["a"; "b"] ≠ []
  ∧ Spec.encoder_contract model
  ∧ Spec.ignores_progress_bar model
  ∧ Spec.can_write run1 (Some "out") out_world
  ∧ Spec.acc_src2trg run2 model = Spec.acc_src2trg run1 model
  ∧ Spec.acc_trg2src run2 model = Spec.acc_trg2src run1 model
  ∧ ∃ r wa wb report diagnostics,
      __call__ run1 model (Some "out") 3 (-1) out_world = (Ok r, wa)
      ∧ __call__ run2 model (Some "out") 3 (-1) out_world = (Ok r, wb)
      ∧ logs wb = logs wa
      ∧ fs wb = fs wa
      ∧ stdout wa = diagnostics
      ∧ stdout wb = report ++ diagnostics
      ∧ encoded wa = [ mkEncodeCall ["a"; "b"] false 16 false;
                       mkEncodeCall ["b"; "a"] false 16 false ]
      ∧ encoded wb = [ mkEncodeCall ["a"; "b"] true 16 false;
                       mkEncodeCall ["b"; "a"] true 16 false ].
Proof.
  cbv zeta.
  destruct (C10_flags_leave_results_unchanged
              ["a"; "b"] ["b"; "a"] 16 "" true false false true true
              out_world out_world out_world out_world _ _
              (table_encoder sign_table)
              (pair_evaluator_constructed_ab_ba false false out_world)
              (pair_evaluator_constructed_ab_ba true true out_world)
              ab_nonempty sign_table_contract sign_table_ignores_progress_bar
              (Some "out") 3%Z (-1)%Z out_world
              (can_write_out ["a"; "b"] ["b"; "a"] false false))
    as (H1 & H2 & r & wa & wb & report & diag & Ha & Hb & _ & _ & Hlogs & _
        & Hfs & _ & Houta & Houtb & _ & Henca & Hencb).
  split; [reflexivity|]. split; [reflexivity|]. split; [apply ab_nonempty|].
  split; [apply sign_table_contract|].
  split; [apply sign_table_ignores_progress_bar|].
  split; [apply can_write_out|]. split; [exact H1|]. split; [exact H2|].
  exists r, wa, wb, report, diag.
  split; [exact Ha|]. split; [exact Hb|]. split; [exact Hlogs|].
  split; [exact Hfs|]. split; [exact Houta|]. split; [exact Houtb|].
  split; [exact Henca | exact Hencb].
Defined.

(** * Further properties of the evaluator *)

(** ** Statements and the world *)

Section Respects.
Variable R : World → World → Prop.
Hypothesis R_refl : ∀ w, R w w.
Hypothesis R_trans : ∀ w1 w2 w3, R w1 w2 → R w2 w3 → R w1 w3.

Lemma respects_ret {A} (a : A) : respects R (ret a).
Proof using R_refl. intros w. apply R_refl. Qed.

Lemma respects_lift {A} (r : Exc A) : respects R (lift r).
Proof using R_refl. intros w. apply R_refl. Qed.

Lemma respects_bind {A B} (m : M A) (k : A → M B) :
  respects R m → (∀ a, respects R (k a)) → respects R (bind m k).
Proof using R_trans.
  intros Hm Hk w. unfold bind. specialize (Hm w).
  destruct (m w) as [[a|e] w1]; simpl in *; [|done].
  eapply R_trans; [exact Hm | apply Hk].
Qed.

Lemma respects_for_each {A S} (body : A → S → M S) (xs : list A) (acc : S) :
  (∀ x a, respects R (body x a)) → respects R (for_each body xs acc).
Proof using R_refl R_trans.
  intros Hbody. revert acc. induction xs as [|x xs IH]; intros acc.
  - apply respects_ret.
  - simpl. apply respects_bind; [apply Hbody | apply IH].
Qed.

Lemma raises_respect_bind {A B} (m : M A) (k : A → M B) :
  respects R m → (∀ a, raises_respect R (k a)) →
  raises_respect R (bind m k).
Proof using R_trans.
  intros Hm Hk w e. unfold bind. specialize (Hm w).
  destruct (m w) as [[a|e'] w1]; simpl in *; [|done].
  intros Hraise. eapply R_trans; [exact Hm | by eapply Hk].
Qed.

Lemma raises_respect_total {A} (m : M A) :
  (∀ w, ∃ a w', m w = (Ok a, w')) → raises_respect R m.
Proof using Type.
  intros Hok w e Hraise. destruct (Hok w) as (a & w' & Hm).
  by rewrite Hm in Hraise.
Qed.
End Respects.

Lemma same_refl {B} (obs : World → B) (w : World) : same obs w w.
Proof. reflexivity. Qed.

Lemma same_trans {B} (obs : World → B) (w1 w2 w3 : World) :
  same obs w1 w2 → same obs w2 w3 → same obs w1 w3.
Proof. unfold same. congruence. Qed.

Lemma log_grows_refl (w : World) : log_grows w w.
Proof. unfold log_grows. done. Qed.

Lemma log_grows_trans (w1 w2 w3 : World) :
  log_grows w1 w2 → log_grows w2 w3 → log_grows w1 w3.
Proof. unfold log_grows. intros. by etransitivity. Qed.

(** Descends through a statement; [prim] settles the steps that touch the
    world. *)
Ltac respects_step refl trans prim :=
  lazymatch goal with
  | |- respects _ (ret _) => apply respects_ret; apply refl
  | |- respects _ (lift _) => apply respects_lift; apply refl
  | |- respects _ (bind _ _) =>
      apply respects_bind; [apply trans | | intros ?]
  | |- respects _ (for_each _ _ _) =>
      apply respects_for_each; [apply refl | apply trans | intros ? ?]
  | |- respects _ (py_assert _) => unfold py_assert
  | |- respects _ (src2trg_step _ _ _ _) => unfold src2trg_step
  | |- respects _ (trg2src_step _ _ _) => unfold trg2src_step
  | |- respects _ (report_wrong_match _ _ _ _) => unfold report_wrong_match
  | |- respects _ (write_results _ _ _ _ _ _) =>
      first [ match goal with
              | H : ∀ a b, respects _ (write_results _ _ _ _ a b) |- _ => apply H
              end
            | unfold write_results ]
  | |- respects _ (py_open _ _) =>
      intros ?; unfold py_open; case_bool_decide; prim
  | |- respects _ (if ?b then _ else _) => destruct b
  | |- respects _ (match ?x with _ => _ end) => destruct x
  | |- respects _ (match ?x with _ => _ end _) => destruct x; cbv beta
  | |- respects _ _ => intros ?; prim
  end.

Ltac respects_auto refl trans prim := repeat respects_step refl trans prim.

Ltac keeps_field := unfold same; reflexivity.

Ltac keeps_log := unfold log_grows; simpl; first [done | by apply prefix_app_r].

(** ** The calls to the encoder *)

(** X1.  An evaluation calls the encoder on the source sentences first,
    with the evaluator's [show_progress_bar] and [batch_size] and with
    [convert_to_numpy] off.  If that call raises, the evaluation ends with
    the same exception: the first line is logged and no second call is made.
    Otherwise the encoder is called once more, on the target sentences with
    the same arguments, and never again, however the evaluation ends; if
    the second call raises, the evaluation ends with its exception. *)
Theorem X1_encoder_calls_in_order
        (self : TranslationEvaluator) (model : SentenceEncoder)
        (output_path : option string) (epoch steps : Z) (w : World) :
  let run := __call__ self model output_path epoch steps w in
  let on_source := mkEncodeCall (source_sentences self) (show_progress_bar self)
                                (batch_size self) false in
  let on_target := mkEncodeCall (target_sentences self) (show_progress_bar self)
                                (batch_size self) false in
  match encode model (source_sentences self) (show_progress_bar self)
               (batch_size self) false with
  | Raise e =>
      run = (Raise e,
             mkWorld (fs w) (stdout w)
                     (logs w ++ [LogEvaluating (name self)
                                   (Spec.out_txt_of epoch steps)])
                     (encoded w ++ [on_source]) (writable w))
  | Ok _ =>
      encoded (snd run) = encoded w ++ [on_source; on_target]
      ∧ (∀ e, encode model (target_sentences self) (show_progress_bar self)
                     (batch_size self) false = Raise e →
              fst run = Raise e)
  end.
Proof.
  cbv zeta.
  destruct (encode model (source_sentences self) _ _ _) as [e1|err1] eqn:He1.
  - split.
    + unfold __call__. cbv zeta.
      unfold bind at 1. unfold logger_info at 1.
      unfold bind at 1. unfold model_encode at 1. rewrite He1.
      unfold bind at 1. unfold model_encode at 1.
      cbn [fs stdout logs encoded writable].
      destruct (encode model (target_sentences self) _ _ _) as [e2|err2];
        [|simpl; by rewrite <- app_assoc].
      match goal with
      | |- encoded (snd (?m ?w1)) = _ =>
          assert (Hrest : respects (same encoded) m)
      end.
      { respects_auto (@same_refl (list EncodeCall) encoded)
                      (@same_trans (list EncodeCall) encoded) keeps_field. }
      rewrite Hrest. simpl. by rewrite <- app_assoc.
    + intros e He2. unfold __call__. cbv zeta.
      unfold bind at 1. unfold logger_info at 1.
      unfold bind at 1. unfold model_encode at 1. rewrite He1.
      unfold bind at 1. unfold model_encode at 1. by rewrite He2.
  - unfold __call__. cbv zeta. rewrite out_txt_run.
    unfold bind at 1. unfold logger_info at 1.
    unfold bind at 1. unfold model_encode at 1. by rewrite He1.
Qed.

(** ** The file system *)

(** A failed write leaves the files alone. *)
Lemma write_results_raises (self : TranslationEvaluator)
      (output_path : option string) (epoch steps : Z) (a1 a2 : Q) :
  raises_respect (same fs) (write_results self output_path epoch steps a1 a2).
Proof.
  intros w e Hraise. unfold same.
  destruct output_path as [dir|]; [|done].
  destruct (write_csv self) eqn:Hcsv.
  2: { unfold write_results in Hraise. by rewrite Hcsv in Hraise. }
  destruct (decide (os_path_join dir (csv_file self) ∈ writable w))
    as [Hin | Hno].
  - destruct (write_results_writable self dir epoch steps a1 a2 w Hcsv Hin)
      as [w' Hok].
    by rewrite Hok in Hraise.
  - by rewrite write_results_unwritable.
Qed.

Lemma raises_respect_then_ret {A B} (R : World → World → Prop)
      (m : M A) (b : B) :
  raises_respect R m → raises_respect R (bind m (λ _, ret b)).
Proof.
  intros Hm w e. unfold bind, ret. specialize (Hm w e).
  destruct (m w) as [[a|e'] w1]; simpl in *; [done|].
  intros [= ->]. by apply Hm.
Qed.

Ltac raises_step refl trans prim :=
  lazymatch goal with
  | |- raises_respect _ (bind (write_results _ _ _ _ _ _) _) =>
      apply raises_respect_then_ret; apply write_results_raises
  | |- raises_respect _ (bind _ _) =>
      apply raises_respect_bind;
      [apply trans | respects_auto refl trans prim | intros ?]
  end.

Ltac keeps_other_file :=
  unfold same; simpl;
  first [ reflexivity | by rewrite ?lookup_insert_ne by assumption ].

(** X2.  An evaluation that raises, for whatever reason (the encoder, a
    library routine, or a results file that cannot be opened) leaves every
    file as it was: nothing is written before the results file is open, and
    nothing can fail after that. *)
Theorem X2_failed_call_writes_nothing
        (self : TranslationEvaluator) (model : SentenceEncoder)
        (output_path : option string) (epoch steps : Z) (w : World)
        (e : PyError) :
  fst (__call__ self model output_path epoch steps w) = Raise e →
  fs (snd (__call__ self model output_path epoch steps w)) = fs w.
Proof.
  revert w e.
  change (raises_respect (same fs)
            (__call__ self model output_path epoch steps)).
  unfold __call__. cbv zeta.
  repeat raises_step (@same_refl _ fs) (@same_trans _ fs) keeps_field.
Qed.

(** X3.  Whatever the encoder and the outcome, an evaluation changes no file
    other than [os.path.join(output_path, csv_file)]; without an output path,
    or with [write_csv] off, it changes no file at all. *)
Theorem X3_only_the_results_file_changes
        (self : TranslationEvaluator) (model : SentenceEncoder)
        (output_path : option string) (epoch steps : Z) (w : World) :
  (∀ dir q, output_path = Some dir → q ≠ os_path_join dir (csv_file self) →
            fs (snd (__call__ self model output_path epoch steps w)) !! q
            = fs w !! q)
  ∧ (output_path = None ∨ write_csv self = false →
     fs (snd (__call__ self model output_path epoch steps w)) = fs w).
Proof.
  split.
  - intros dir q -> Hq. revert w.
    change (respects (same (λ w, fs w !! q))
              (__call__ self model (Some dir) epoch steps)).
    assert (Hne : os_path_join dir (csv_file self) ≠ q) by congruence.
    unfold __call__. cbv zeta.
    respects_auto (@same_refl _ (λ w, fs w !! q))
                  (@same_trans _ (λ w, fs w !! q)) keeps_other_file.
  - intros Hoff. revert w.
    change (respects (same fs) (__call__ self model output_path epoch steps)).
    assert (Hwr : ∀ a b, respects (same fs)
                           (write_results self output_path epoch steps a b)).
    { intros a b w. unfold write_results.
      destruct Hoff as [-> | ->]; [reflexivity|].
      destruct output_path; reflexivity. }
    unfold __call__. cbv zeta.
    respects_auto (@same_refl _ fs) (@same_trans _ fs) keeps_field.
Qed.

(** ** The first log record *)

(** X4.  Every evaluation, whatever its outcome, first logs the line that
    announces it, and keeps what was logged before.  The text after the
    dataset name depends on [epoch] and [steps] only: with [epoch = -1] it is
    [":"] whatever [steps] is; otherwise it names the epoch, and the steps
    too unless [steps = -1]. *)
Theorem X4_evaluation_is_announced_first
        (self : TranslationEvaluator) (model : SentenceEncoder)
        (output_path : option string) (epoch steps : Z) (w : World) :
  let out_txt :=
    if bool_decide (epoch = (-1)%Z) then Colon
    else if bool_decide (steps = (-1)%Z) then AfterEpoch epoch
         else InEpochAfterSteps epoch steps in
  ∃ more,
    logs (snd (__call__ self model output_path epoch steps w))
    = logs w ++ LogEvaluating (name self) out_txt :: more.
Proof.
  cbv zeta. unfold __call__. cbv zeta. rewrite out_txt_run.
  unfold bind at 1. unfold logger_info at 1.
  match goal with
  | |- ∃ _, logs (snd (?m ?w1)) = _ =>
      assert (Hrest : respects log_grows m)
  end.
  { respects_auto log_grows_refl log_grows_trans keeps_log. }
  destruct (Hrest (mkWorld (fs w) (stdout w)
                     (logs w ++ [LogEvaluating (name self)
                                   (Spec.out_txt_of epoch steps)])
                     (encoded w) (writable w))) as [more Hmore].
  exists more. rewrite Hmore. simpl. by rewrite <- app_assoc.
Qed.

(** ** Embeddings that cannot be stacked *)

(** X5.  When the encoder returns, for either language, no embedding at all
    or embeddings of different sizes, the evaluation raises [RuntimeError]
    in [torch.stack]: by then it has logged its first line and called the
    encoder twice, and it has printed nothing and written no file. *)
Theorem X5_unstackable_embeddings_raise
        (self : TranslationEvaluator) (model : SentenceEncoder)
        (output_path : option string) (epoch steps : Z) (w : World)
        (embeddings1 embeddings2 : list (list R)) :
  encode model (source_sentences self) (show_progress_bar self)
         (batch_size self) false = Ok embeddings1 →
  encode model (target_sentences self) (show_progress_bar self)
         (batch_size self) false = Ok embeddings2 →
  ¬ (stackable embeddings1 ∧ stackable embeddings2) →
  __call__ self model output_path epoch steps w
  = (Raise RuntimeError,
     mkWorld (fs w) (stdout w)
             (logs w ++ [LogEvaluating (name self) (Spec.out_txt_of epoch steps)])
             (encoded w ++ encode_calls self) (writable w)).
Proof.
  intros He1 He2 Hbad. unfold __call__. cbv zeta. rewrite out_txt_run.
  unfold bind at 1. unfold logger_info at 1.
  unfold bind at 1. unfold model_encode at 1. rewrite He1.
  unfold bind at 1. unfold model_encode at 1. rewrite He2.
  cbn [fs stdout logs encoded writable]. unfold encode_calls.
  rewrite <- app_assoc.
  unfold bind at 1, lift at 1.
  destruct (torch_stack_cases embeddings1) as [[-> H1] | [-> _]]; [|done].
  unfold bind at 1, lift at 1.
  destruct (torch_stack_cases embeddings2) as [[-> H2] | [-> _]]; [|done].
  by destruct Hbad.
Qed.

(** ** The range of the score, for every encoder *)

Lemma ensures_ret {A} (P : A → Prop) (a : A) : P a → ensures P (ret a).
Proof. intros HP w a' w' [= <- _]. done. Qed.

Lemma ensures_lift {A} (P : A → Prop) (r : Exc A) :
  (∀ a, r = Ok a → P a) → ensures P (lift r).
Proof. intros HP w a w' [= -> _]. by apply HP. Qed.

Lemma ensures_bind {A B} (Q : A → Prop) (P : B → Prop) (m : M A) (k : A → M B) :
  ensures Q m → (∀ a, Q a → ensures P (k a)) → ensures P (bind m k).
Proof.
  intros Hm Hk w b w'. unfold bind.
  destruct (m w) as [[a|e] w1] eqn:Hrun; [|done].
  intros Hb. eapply Hk; [by eapply Hm | exact Hb].
Qed.

Lemma ensures_bind_any {A B} (P : B → Prop) (m : M A) (k : A → M B) :
  (∀ a, ensures P (k a)) → ensures P (bind m k).
Proof.
  intros Hk. apply (ensures_bind (λ _, True)); [done|]. intros a _. apply Hk.
Qed.

Lemma src2trg_step_bound (self : TranslationEvaluator)
      (cos_sims : list (list R)) (W i c : nat) :
  Forall (λ row, length row = W) cos_sims →
  ensures (λ c', c' ≤ c + (if i <? W then 1 else 0))
          (src2trg_step self cos_sims i c).
Proof.
  intros Hrows. unfold src2trg_step.
  apply (ensures_bind (λ row, length row = W)).
  { apply ensures_lift. unfold py_getitem. intros row.
    destruct (cos_sims !! i) as [row'|] eqn:Hrow; [|done]. intros [= <-].
    rewrite Forall_lookup in Hrows. eauto. }
  intros row Hlen.
  apply (ensures_bind (λ j, j < W)).
  { apply ensures_lift. intros j Hj. rewrite <- Hlen. by apply np_argmax_lt. }
  intros j Hj. case_bool_decide as Hij.
  - apply ensures_ret. subst i.
    rewrite (proj2 (Nat.ltb_lt j W) Hj). lia.
  - destruct (print_wrong_matches self).
    + apply ensures_bind_any. intros _. apply ensures_ret. lia.
    + apply ensures_ret. lia.
Qed.

Lemma src2trg_loop_bound (self : TranslationEvaluator)
      (cos_sims : list (list R)) (W : nat) (idxs : list nat) (c : nat) :
  Forall (λ row, length row = W) cos_sims →
  ensures (λ c', c' ≤ c + length (List.filter (λ i, i <? W) idxs))
          (for_each (src2trg_step self cos_sims) idxs c).
Proof.
  intros Hrows. revert c. induction idxs as [|i idxs IH]; intros c.
  - apply ensures_ret. simpl. lia.
  - cbn [for_each]. eapply ensures_bind; [by apply (src2trg_step_bound _ _ W)|].
    intros c1 Hc1. intros w c' w' Hrun. specialize (IH c1 w c' w' Hrun).
    simpl in *. destruct (i <? W); simpl; lia.
Qed.

Lemma trg2src_loop_bound (cos_sims : list (list R)) (idxs : list nat) (c : nat) :
  ensures (λ c', c' ≤ c + length idxs)
          (for_each (trg2src_step cos_sims) idxs c).
Proof.
  revert c. induction idxs as [|i idxs IH]; intros c.
  - apply ensures_ret. simpl. lia.
  - cbn [for_each]. apply (ensures_bind (λ c1, c1 ≤ S c)).
    + unfold trg2src_step. apply ensures_bind_any. intros row.
      apply ensures_bind_any. intros j.
      case_bool_decide; apply ensures_ret; lia.
    + intros c1 Hc1 w c' w' Hrun. specialize (IH c1 w c' w' Hrun).
      simpl in *. lia.
Qed.

Lemma filter_below_length (W s n : nat) :
  length (List.filter (λ i, i <? W) (seq s n)) ≤ W - s.
Proof.
  revert s. induction n as [|n IH]; intros s; simpl; [lia|].
  specialize (IH (S s)). destruct (s <? W) eqn:Hs; simpl.
  - apply Nat.ltb_lt in Hs. lia.
  - lia.
Qed.

Lemma py_truediv_bounds (c n : nat) (q : Q) :
  c ≤ n → py_truediv c n = Ok q → (0 <= q <= 1)%Q.
Proof.
  intros Hle. destruct n as [|n]; [done|]. unfold py_truediv. intros [= <-].
  unfold Qle. cbn [Qnum Qden].
  rewrite <- Pos.of_nat_succ, Zpos_P_of_succ_nat. lia.
Qed.

(** X6.  Whatever the encoder returns, a score that the evaluation returns
    lies between 0 and 1. *)
Theorem X6_returned_score_in_unit_interval
        (self : TranslationEvaluator) (model : SentenceEncoder)
        (output_path : option string) (epoch steps : Z) (w w' : World) (r : Q) :
  __call__ self model output_path epoch steps w = (Ok r, w') →
  (0 <= r <= 1)%Q.
Proof.
  revert w r w'.
  change (ensures (λ r, (0 <= r <= 1)%Q)
                  (__call__ self model output_path epoch steps)).
  unfold __call__. cbv zeta.
  apply ensures_bind_any. intros _.
  apply ensures_bind_any. intros e1.
  apply ensures_bind_any. intros e2.
  apply (ensures_bind (λ s1, s1 ≠ [])).
  { apply ensures_lift. intros s1 Hs1.
    destruct (torch_stack_cases e1) as [[Hok [Hne _]] | [Hno _]]; congruence. }
  intros s1 Hs1. apply ensures_bind_any. intros s2.
  assert (HlenT : length (np_transpose (pytorch_cos_sim s1 s2)) = length s2).
  { by rewrite pytorch_cos_sim_swap, pytorch_cos_sim_length. }
  eapply ensures_bind.
  { apply (src2trg_loop_bound _ _ (length s2)), pytorch_cos_sim_rows. }
  intros c1 Hc1. eapply ensures_bind; [apply trg2src_loop_bound|].
  intros c2 Hc2. rewrite HlenT in *.
  assert (Hc1' : c1 ≤ length s2).
  { pose proof (filter_below_length (length s2) 0
                  (length (pytorch_cos_sim s1 s2))) as Hf.
    unfold range in Hc1. lia. }
  assert (Hc2' : c2 ≤ length s2).
  { unfold range in Hc2. rewrite length_seq in Hc2. lia. }
  apply (ensures_bind (λ a1, (0 <= a1 <= 1)%Q)).
  { apply ensures_lift. intros a1. by apply py_truediv_bounds. }
  intros a1 Ha1.
  apply (ensures_bind (λ a2, (0 <= a2 <= 1)%Q)).
  { apply ensures_lift. intros a2. by apply py_truediv_bounds. }
  intros a2 Ha2.
  repeat (apply ensures_bind_any; intros ?).
  apply ensures_ret. by apply average_bounds.
Qed.

(** ** Matrices where every pair, or no pair, is retrieved *)

Lemma entry_transpose (m : list (list R)) (W i j : nat) :
  m ≠ [] → Forall (λ r, length r = W) m →
  entry (np_transpose m) j i = entry m i j.
Proof. intros Hne Hrows. by apply (np_transpose_entry m W). Qed.

Lemma is_match_diagonal_top (m : list (list R)) (i : nat) (row : list R) (d : R) :
  m !! i = Some row → row !! i = Some d →
  (∀ j x, i ≠ j → row !! j = Some x → (x < d)%R) →
  Spec.is_match Rgtb m i = true.
Proof.
  intros Hrow Hd Htop. unfold Spec.is_match. rewrite Hrow.
  apply first_max_indexb_spec. exists d. split; [done|]. split.
  - intros j x Hx. destruct (decide (i = j)) as [<- | Hne].
    + rewrite Hd in Hx. injection Hx as <-. apply Rgtb_irrefl.
    + apply Rgtb_false. specialize (Htop j x Hne Hx). lra.
  - intros j x Hlt Hx. apply Rgtb_true. apply (Htop j); [lia | done].
Qed.

Lemma is_match_diagonal_beaten (m : list (list R)) (i : nat) :
  (∀ row d, m !! i = Some row → row !! i = Some d →
            ∃ j x, row !! j = Some x ∧ (d < x)%R) →
  Spec.is_match Rgtb m i = false.
Proof.
  intros Hbeaten. unfold Spec.is_match.
  destruct (m !! i) as [row|] eqn:Hrow; [|done].
  apply not_true_is_false. intros Hmatch.
  apply first_max_indexb_spec in Hmatch as (d & Hd & Hmax & _).
  destruct (Hbeaten row d eq_refl Hd) as (j & x & Hx & Hlt).
  specialize (Hmax j x Hx). apply Rgtb_false in Hmax. lra.
Qed.

Lemma filter_all {A} (f : A → bool) (l : list A) :
  (∀ x, x ∈ l → f x = true) → List.filter f l = l.
Proof.
  induction l as [|x l IH]; intros Hall; simpl; [done|].
  rewrite (Hall x) by left. f_equal. apply IH. intros y Hy. apply Hall. by right.
Qed.

Lemma filter_none {A} (f : A → bool) (l : list A) :
  (∀ x, x ∈ l → f x = false) → List.filter f l = [].
Proof.
  induction l as [|x l IH]; intros Hall; simpl; [done|].
  rewrite (Hall x) by left. apply IH. intros y Hy. apply Hall. by right.
Qed.

Lemma accuracy_all_match (m : list (list R)) :
  m ≠ [] → Forall (λ row, length row = length m) m →
  diagonal_tops_rows m →
  Spec.matches Rgtb m = range (length m)
  ∧ Spec.mismatches Rgtb m = []
  ∧ (Spec.accuracy Rgtb m == 1)%Q.
Proof.
  intros Hne Hrows Htop.
  assert (Hall : ∀ i, i ∈ range (length m) → Spec.is_match Rgtb m i = true).
  { intros i Hi. apply elem_of_seq in Hi as [_ Hi]. simpl in Hi.
    destruct (lookup_lt_is_Some_2 m i Hi) as [row Hrow].
    rewrite Forall_lookup in Hrows. specialize (Hrows i row Hrow).
    destruct (lookup_lt_is_Some_2 row i) as [d Hd]; [lia|].
    apply (is_match_diagonal_top m i row d Hrow Hd).
    intros j x Hij Hx. apply (Htop i j); [done | |]; unfold entry;
      by rewrite Hrow. }
  assert (Hm : Spec.matches Rgtb m = range (length m))
    by by apply filter_all.
  split; [done|]. split.
  - apply filter_none. intros i Hi. by rewrite Hall.
  - unfold Spec.accuracy. rewrite Hm. unfold range. rewrite length_seq.
    destruct m as [|r m]; [done|]. cbn [length].
    unfold Qeq. cbn [Qnum Qden].
    rewrite <- Pos.of_nat_succ, Zpos_P_of_succ_nat. lia.
Qed.

Lemma accuracy_none_match (m : list (list R)) :
  diagonal_beaten_in_rows m →
  Spec.matches Rgtb m = []
  ∧ Spec.mismatches Rgtb m = range (length m)
  ∧ (Spec.accuracy Rgtb m == 0)%Q.
Proof.
  intros Hbeaten.
  assert (Hall : ∀ i, Spec.is_match Rgtb m i = false).
  { intros i. apply is_match_diagonal_beaten. intros row d Hrow Hd.
    destruct (Hbeaten i d) as (j & x & Hx & Hlt).
    { unfold entry. by rewrite Hrow. }
    exists j, x. split; [|done]. unfold entry in Hx. by rewrite Hrow in Hx. }
  assert (Hm : Spec.matches Rgtb m = []) by (apply filter_none; auto).
  split; [done|]. split.
  - apply filter_all. intros i _. by rewrite Hall.
  - unfold Spec.accuracy. by rewrite Hm.
Qed.

Lemma tops_columns_transpose (m : list (list R)) (W : nat) :
  m ≠ [] → Forall (λ r, length r = W) m →
  diagonal_tops_columns m → diagonal_tops_rows (np_transpose m).
Proof.
  intros Hne Hrows Htop i j d x Hij.
  rewrite !(entry_transpose m W) by done. by apply Htop.
Qed.

Lemma beaten_columns_transpose (m : list (list R)) (W : nat) :
  m ≠ [] → Forall (λ r, length r = W) m →
  diagonal_beaten_in_columns m → diagonal_beaten_in_rows (np_transpose m).
Proof.
  intros Hne Hrows Hbeaten i d.
  rewrite (entry_transpose m W) by done. intros Hd.
  destruct (Hbeaten i d Hd) as (j & x & Hx & Hlt). exists j, x.
  by rewrite (entry_transpose m W).
Qed.

Lemma average_of_ones (a1 a2 : Q) :
  (a1 == 1)%Q → (a2 == 1)%Q → ((a1 + a2) / 2 == 1)%Q.
Proof. intros -> ->. reflexivity. Qed.

Lemma average_of_zeros (a1 a2 : Q) :
  (a1 == 0)%Q → (a2 == 0)%Q → ((a1 + a2) / 2 == 0)%Q.
Proof. intros -> ->. reflexivity. Qed.

Lemma is_match_diagonal_beaten_or_tied (m : list (list R)) (i : nat)
      (row : list R) (j : nat) :
  m !! i = Some row → j < i → row !! j = row !! i →
  Spec.is_match Rgtb m i = false.
Proof.
  intros Hrow Hji Htie. unfold Spec.is_match. rewrite Hrow.
  apply not_true_is_false. intros Hmatch.
  apply first_max_indexb_spec in Hmatch as (d & Hd & _ & Hfirst).
  rewrite Hd in Htie. specialize (Hfirst j d Hji Htie).
  by rewrite Rgtb_irrefl in Hfirst.
Qed.

Lemma filter_length_lt {A} (f : A → bool) (l : list A) (x : A) :
  x ∈ l → f x = false → length (List.filter f l) < length l.
Proof.
  induction l as [|y l IH]; intros Hin Hx; [by apply elem_of_nil in Hin|].
  apply elem_of_cons in Hin as [<- | Hin]; simpl.
  - rewrite Hx. pose proof (List.filter_length_le f l). lia.
  - specialize (IH Hin Hx). destruct (f y); simpl; lia.
Qed.

Lemma average_below_one (a1 a2 : Q) :
  (a1 < 1)%Q → (a2 <= 1)%Q → ((a1 + a2) / 2 < 1)%Q.
Proof.
  destruct a1 as [n1 d1], a2 as [n2 d2].
  unfold Qlt, Qle, Qdiv, Qmult, Qinv, Qplus. simpl. intros H1 H2. nia.
Qed.

Section Alignment.
Local Unset Default Proof Using.
Variables (src trg : list string) (spb : bool) (bs : Z) (nm : string).
Variables (pwm wcsv : bool) (w0 w0' : World) (self : TranslationEvaluator).
Variable model : SentenceEncoder.
Hypothesis constructed : __init__ src trg spb bs nm pwm wcsv w0 = (Ok self, w0').
Hypothesis nonempty : src ≠ [].
Hypothesis contract : Spec.encoder_contract model.

Let cos_sims := Spec.similarity_matrix self model.

Lemma alignment_shape :
  cos_sims ≠ []
  ∧ Forall (λ row, length row = length cos_sims) cos_sims
  ∧ np_transpose cos_sims ≠ []
  ∧ Forall (λ row, length row = length (np_transpose cos_sims))
           (np_transpose cos_sims).
Proof.
  destruct (constructed_fields _ _ _ _ _ _ _ _ _ _ constructed)
    as (Hs & Ht & _ & _ & _ & _ & _ & _ & _ & Hlen).
  destruct (constructed_matrix_shape _ _ _ _ _ _ _ _ _ _ _ constructed contract)
    as [Hrows Hcols]. fold cos_sims in Hrows, Hcols.
  assert (Hpos : 0 < length src) by (destruct src; [done|simpl; lia]).
  assert (Hne : cos_sims ≠ []).
  { intros He. rewrite He in Hrows. simpl in Hrows. lia. }
  assert (HlenT : length (np_transpose cos_sims) = length src)
    by by apply np_transpose_length.
  split; [done|]. split; [by rewrite Hrows|]. split.
  { intros He. rewrite He in HlenT. simpl in HlenT. lia. }
  rewrite HlenT. unfold cos_sims.
  rewrite (similarity_matrix_T self model contract);
    [|rewrite Hs; exact nonempty | by rewrite Hs, Ht].
  assert (He1 : length (embeddings model (source_sentences self)
                                   (show_progress_bar self) (batch_size self))
                = length src).
  { rewrite (e1_length self model contract). by rewrite Hs. }
  rewrite <- He1. apply pytorch_cos_sim_rows.
Qed.

Lemma aligned_stdout (output_path : option string) (epoch steps : Z) (w : World) :
  stdout (Spec.world_after self output_path (model, epoch, steps) w)
  = stdout w
      ++ (if pwm
          then concat (map (Spec.wrong_match_block self cos_sims)
                           (Spec.mismatches Rgtb cos_sims))
          else [])
      ++ Spec.diagnostics (embeddings model src spb bs)
                          (embeddings model trg spb bs).
Proof.
  destruct (constructed_fields _ _ _ _ _ _ _ _ _ _ constructed)
    as (Hs & Ht & _ & Hbs & Hspb & Hpwm & _).
  simpl. unfold Spec.wrong_match_report. fold cos_sims.
  by rewrite Hpwm, Hs, Ht, Hbs, Hspb.
Qed.

Lemma perfect_alignment_accuracies :
  diagonal_tops_rows cos_sims → diagonal_tops_columns cos_sims →
  Spec.mismatches Rgtb cos_sims = []
  ∧ (Spec.acc_src2trg self model == 1)%Q
  ∧ (Spec.acc_trg2src self model == 1)%Q.
Proof.
  intros Hrows Hcols.
  destruct alignment_shape as (Hne & Hshape & HneT & HshapeT).
  destruct (accuracy_all_match cos_sims Hne Hshape Hrows) as (_ & Hmis & Ha1).
  destruct (accuracy_all_match (np_transpose cos_sims) HneT HshapeT)
    as (_ & _ & Ha2).
  { by apply (tops_columns_transpose cos_sims (length cos_sims)). }
  done.
Qed.

(** X7.  When every diagonal entry of the similarity matrix is strictly the
    largest of its row and of its column, both accuracies are 1, the
    evaluation returns 1, and it prints the four diagnostic lines and no
    wrong match, even with [print_wrong_matches] on. *)
Theorem X7_diagonal_matrix_scores_one
        (output_path : option string) (epoch steps : Z) (w : World) :
  Spec.can_write self output_path w →
  diagonal_tops_rows (Spec.similarity_matrix self model) →
  diagonal_tops_columns (Spec.similarity_matrix self model) →
  (Spec.acc_src2trg self model == 1)%Q
  ∧ (Spec.acc_trg2src self model == 1)%Q
  ∧ ∃ r w',
      __call__ self model output_path epoch steps w = (Ok r, w')
      ∧ (r == 1)%Q
      ∧ stdout w' = stdout w ++ Spec.diagnostics (embeddings model src spb bs)
                                               (embeddings model trg spb bs).
Proof.
  intros Hcan Hrows Hcols.
  destruct (perfect_alignment_accuracies Hrows Hcols) as (Hmis & Ha1 & Ha2).
  split; [done|]. split; [done|].
  eexists _, _. split;
    [by apply (constructed_call _ _ _ _ _ _ _ _ _ _ _
                 constructed nonempty contract)|].
  split; [by apply average_of_ones|].
  rewrite aligned_stdout, Hmis. by destruct pwm.
Qed.

(** X8.  When every diagonal entry of the similarity matrix is strictly
    below some entry of its row and some entry of its column, both
    accuracies are 0 and the evaluation returns 0; with
    [print_wrong_matches] on it prints a block for every source index
    [0 .. N-1], in that order. *)
Theorem X8_beaten_diagonal_scores_zero
        (output_path : option string) (epoch steps : Z) (w : World) :
  Spec.can_write self output_path w →
  diagonal_beaten_in_rows (Spec.similarity_matrix self model) →
  diagonal_beaten_in_columns (Spec.similarity_matrix self model) →
  (Spec.acc_src2trg self model == 0)%Q
  ∧ (Spec.acc_trg2src self model == 0)%Q
  ∧ ∃ r w',
      __call__ self model output_path epoch steps w = (Ok r, w')
      ∧ (r == 0)%Q
      ∧ stdout w'
        = stdout w
            ++ (if pwm
                then concat (map (Spec.wrong_match_block self
                                    (Spec.similarity_matrix self model))
                                 (seq 0 (length src)))
                else [])
            ++ Spec.diagnostics (embeddings model src spb bs)
                                (embeddings model trg spb bs).
Proof.
  intros Hcan Hrows Hcols. fold cos_sims in Hrows, Hcols |- *.
  destruct alignment_shape as (Hne & Hshape & HneT & HshapeT).
  destruct (constructed_matrix_shape _ _ _ _ _ _ _ _ _ _ _ constructed contract)
    as [Hlen _]. fold cos_sims in Hlen.
  destruct (accuracy_none_match cos_sims Hrows) as (_ & Hmis & Ha1).
  destruct (accuracy_none_match (np_transpose cos_sims)) as (_ & _ & Ha2).
  { by apply (beaten_columns_transpose cos_sims (length cos_sims)). }
  split; [done|]. split; [done|].
  eexists _, _. split;
    [by apply (constructed_call _ _ _ _ _ _ _ _ _ _ _
                 constructed nonempty contract)|].
  split; [by apply average_of_zeros|].
  rewrite aligned_stdout. fold cos_sims. by rewrite Hmis, Hlen.
Qed.

(** X9.  Ties go to the lower index: when the target embeddings at two
    positions [j < i] are the same vector, row [i] has equal scores at [j]
    and [i], so source [i] is never counted as a match; [acc_src2trg] and the
    returned score are then below 1. *)
Theorem X9_repeated_target_embedding_loses
        (i j : nat) (v : list R)
        (output_path : option string) (epoch steps : Z) (w : World) :
  Spec.can_write self output_path w →
  j < i →
  embeddings model trg spb bs !! j = Some v →
  embeddings model trg spb bs !! i = Some v →
  Spec.is_match Rgtb (Spec.similarity_matrix self model) i = false
  ∧ i ∈ Spec.mismatches Rgtb (Spec.similarity_matrix self model)
  ∧ (Spec.acc_src2trg self model < 1)%Q
  ∧ ∃ r w',
      __call__ self model output_path epoch steps w = (Ok r, w')
      ∧ (r < 1)%Q.
Proof.
  intros Hcan Hji Hj Hi. fold cos_sims.
  destruct (constructed_fields _ _ _ _ _ _ _ _ _ _ constructed)
    as (Hs & Ht & _ & Hbs & Hspb & _ & _ & _ & _ & Hlen).
  destruct (constructed_matrix_shape _ _ _ _ _ _ _ _ _ _ _ constructed contract)
    as [Hrows _]. fold cos_sims in Hrows.
  assert (HiN : i < length cos_sims).
  { rewrite Hrows, Hlen. apply lookup_lt_Some in Hi.
    by rewrite (contract_length model trg spb bs contract) in Hi. }
  destruct (lookup_lt_is_Some_2 cos_sims i HiN) as [row Hrow].
  assert (Hmiss : Spec.is_match Rgtb cos_sims i = false).
  { apply is_match_diagonal_beaten_or_tied with row j; [done | done |].
    unfold cos_sims, Spec.similarity_matrix in Hrow.
    rewrite pytorch_cos_sim_lookup in Hrow.
    destruct (_ !! i) as [x|] eqn:Hx in Hrow; [|done].
    simpl in Hrow. injection Hrow as <-.
    rewrite Ht, Hbs, Hspb. rewrite !list_lookup_fmap, Hj, Hi. done. }
  assert (Hmem : i ∈ Spec.mismatches Rgtb cos_sims)
    by by apply mismatches_elem.
  assert (Hacc : (Spec.acc_src2trg self model < 1)%Q).
  { unfold Spec.acc_src2trg, Spec.accuracy. fold cos_sims.
    assert (Hlt : length (Spec.matches Rgtb cos_sims) < length cos_sims).
    { unfold Spec.matches.
      pose proof (filter_length_lt (Spec.is_match Rgtb cos_sims)
                    (seq 0 (length cos_sims)) i) as Hf.
      rewrite length_seq in Hf. apply Hf; [|done].
      apply elem_of_seq. lia. }
    unfold Qlt. cbn [Qnum Qden].
    destruct (length cos_sims) as [|n]; [lia|].
    rewrite <- Pos.of_nat_succ, Zpos_P_of_succ_nat. lia. }
  split; [done|]. split; [done|]. split; [done|].
  eexists _, _. split;
    [by apply (constructed_call _ _ _ _ _ _ _ _ _ _ _
                 constructed nonempty contract)|].
  apply average_below_one; [done|]. apply accuracy_bounds.
Qed.
End Alignment.

(** ** A single pair of sentences *)

Lemma entry_bounds (m : list (list R)) (W i j : nat) (x : R) :
  Forall (λ row, length row = W) m → entry m i j = Some x →
  i < length m ∧ j < W.
Proof.
  intros Hrows. unfold entry.
  destruct (m !! i) as [row|] eqn:Hrow; [|done]. simpl. intros Hx.
  rewrite Forall_lookup in Hrows. specialize (Hrows i row Hrow).
  apply lookup_lt_Some in Hrow, Hx. lia.
Qed.

Section SinglePair.
Local Unset Default Proof Using.
Variables (s t : string) (spb : bool) (bs : Z) (nm : string).
Variables (pwm wcsv : bool) (w0 w0' : World) (self : TranslationEvaluator).
Variable model : SentenceEncoder.
Hypothesis constructed :
  __init__ [s] [t] spb bs nm pwm wcsv w0 = (Ok self, w0').
Hypothesis contract : Spec.encoder_contract model.

(** X10.  With one sentence in each language and an encoder that keeps its
    contract the evaluation returns 1 whatever the encoder computes: the only
    row and the only column have their maximum at index 0. *)
Theorem X10_single_pair_scores_one
        (output_path : option string) (epoch steps : Z) (w : World) :
  Spec.can_write self output_path w →
  (Spec.acc_src2trg self model == 1)%Q
  ∧ (Spec.acc_trg2src self model == 1)%Q
  ∧ ∃ r w',
      __call__ self model output_path epoch steps w = (Ok r, w') ∧ (r == 1)%Q.
Proof.
  intros Hcan.
  assert (Hne : [s] ≠ @nil string) by done.
  destruct (constructed_matrix_shape _ _ _ _ _ _ _ _ _ _ _ constructed contract)
    as [Hlen Hrows]. simpl in Hlen, Hrows.
  assert (Hoff : ∀ i j x y,
            i ≠ j → entry (Spec.similarity_matrix self model) i i = Some x →
            entry (Spec.similarity_matrix self model) i j = Some y → False).
  { intros i j x y Hij Hx Hy.
    apply (entry_bounds _ 1) in Hx, Hy; [|done..]. lia. }
  assert (Hoff' : ∀ i j x y,
            i ≠ j → entry (Spec.similarity_matrix self model) i i = Some x →
            entry (Spec.similarity_matrix self model) j i = Some y → False).
  { intros i j x y Hij Hx Hy.
    apply (entry_bounds _ 1) in Hx, Hy; [|done..]. lia. }
  destruct (perfect_alignment_accuracies _ _ _ _ _ _ _ _ _ _ _
              constructed Hne contract) as (_ & Ha1 & Ha2).
  { intros i j d x Hij Hd Hx. by destruct (Hoff i j d x). }
  { intros i j d x Hij Hd Hx. by destruct (Hoff' i j d x). }
  split; [done|]. split; [done|].
  eexists _, _. split;
    [by apply (constructed_call _ _ _ _ _ _ _ _ _ _ _ constructed Hne contract)|].
  by apply average_of_ones.
Qed.
End SinglePair.

(** ** Printing with [print_wrong_matches] off *)

Section Quiet.
Local Unset Default Proof Using.
Variables (src trg : list string) (spb : bool) (bs : Z) (nm : string).
Variables (wcsv : bool) (w0 w0' : World) (self : TranslationEvaluator).
Variable model : SentenceEncoder.
Hypothesis constructed :
  __init__ src trg spb bs nm false wcsv w0 = (Ok self, w0').
Hypothesis nonempty : src ≠ [].
Hypothesis contract : Spec.encoder_contract model.

(** X11.  With [print_wrong_matches] off an evaluation that returns prints
    exactly four lines, the diagnostics, however many rows miss their
    translation. *)
Theorem X11_quiet_run_prints_four_lines
        (output_path : option string) (epoch steps : Z) (w : World) :
  Spec.can_write self output_path w →
  ∃ r w' cosine manhattan euclidean dot,
    __call__ self model output_path epoch steps w = (Ok r, w')
    ∧ stdout w' = stdout w ++ [ PCosine [cosine]; PManhattan [manhattan];
                                PEuclidean [euclidean]; PDot [dot] ]
    ∧ length (stdout w') = length (stdout w) + 4.
Proof.
  intros Hcan.
  eexists _, _, _, _, _, _. split;
    [by apply (constructed_call _ _ _ _ _ _ _ _ _ _ _
                 constructed nonempty contract)|].
  rewrite (aligned_stdout _ _ _ _ _ _ _ _ _ _ _ constructed).
  unfold Spec.diagnostics. split; [reflexivity|].
  rewrite length_app. simpl. lia.
Qed.
End Quiet.

(** ** The name of the results file *)






(** ** What the outcome depends on *)

Section SameResult.
Variable rel : World → World → Prop.




End SameResult.






(** ** Evaluations that fail after the scoring *)

Lemma map_constant {A B} (f : A → B) (c : B) (l : list A) :
  (∀ x, x ∈ l → f x = c) → map f l = replicate (length l) c.
Proof.
  induction l as [|x l IH]; intros Hall; simpl; [done|].
  rewrite (Hall x) by left. f_equal. apply IH. intros y Hy. apply Hall. by right.
Qed.

Lemma cosine_nil : cosine [] [] = 0%R.
Proof.
  apply cosine_zero_norm. left. unfold row_norm, np_dot. simpl. apply sqrt_0.
Qed.

(** Vectors without entries give a similarity matrix of zeros. *)
Lemma pytorch_cos_sim_zero_width (a b : list (list R)) :
  Forall (λ v, v = []) a → Forall (λ v, v = []) b →
  pytorch_cos_sim a b = replicate (length a) (replicate (length b) 0%R).
Proof.
  intros Ha Hb. unfold pytorch_cos_sim. apply map_constant. intros x Hx.
  rewrite Forall_forall in Ha. rewrite (Ha x Hx).
  apply map_constant. intros y Hy.
  rewrite Forall_forall in Hb. rewrite (Hb y Hy). apply cosine_nil.
Qed.

(** In a square matrix of zeros every row has its first maximum at index 0:
    row 0 alone is a match. *)
Lemma zero_matrix_accuracy (N : nat) :
  0 < N →
  Spec.accuracy Rgtb (replicate N (replicate N 0%R)) = (1 # Pos.of_nat N)%Q.
Proof.
  intros HN. set (m := replicate N (replicate N 0%R)).
  assert (Hrow : ∀ i, i < N → m !! i = Some (replicate N 0%R))
    by (intros i Hi; by apply lookup_replicate_2).
  assert (Hzero : ∀ i, i < N → replicate N 0%R !! i = Some 0%R)
    by (intros i Hi; by apply lookup_replicate_2).
  assert (Hfirst : Spec.is_match Rgtb m 0 = true).
  { unfold Spec.is_match. rewrite Hrow by done.
    apply first_max_indexb_spec. exists 0%R. split; [by apply Hzero|]. split.
    - intros j xj Hj. apply lookup_replicate in Hj as [-> _].
      apply Rgtb_irrefl.
    - intros j xj Hlt. lia. }
  assert (Hrest : ∀ i, i ∈ seq 1 (N - 1) → Spec.is_match Rgtb m i = false).
  { intros i Hi. apply elem_of_seq in Hi.
    apply is_match_diagonal_beaten_or_tied with (replicate N 0%R) 0;
      [apply Hrow; lia | lia |].
    rewrite !Hzero by lia. done. }
  unfold Spec.accuracy, Spec.matches. fold m.
  replace (length m) with N by (unfold m; by rewrite length_replicate).
  destruct N as [|n]; [lia|]. cbn [seq List.filter]. rewrite Hfirst.
  rewrite filter_none; [done|]. intros i Hi. apply Hrest.
  by replace (S n - 1) with n by lia.
Qed.

Section LateFailures.
Local Unset Default Proof Using.
Variables (src trg : list string) (spb : bool) (bs : Z) (nm : string).
Variables (pwm wcsv : bool) (w0 w0' : World) (self : TranslationEvaluator).
Variable model : SentenceEncoder.
Hypothesis constructed : __init__ src trg spb bs nm pwm wcsv w0 = (Ok self, w0').
Hypothesis nonempty : src ≠ [].

(** X15.  When [write_csv] is on and the results file cannot be opened (the
    output directory is missing, say), the evaluation raises [OSError] at the
    very end: the encoder has run, the accuracies are logged and the
    diagnostics printed, no file is created or changed, and the score, which
    the same call returns for an output path that can be written or for
    none, is lost. *)
Theorem X15_unwritable_results_file_raises
        (dir : string) (epoch steps : Z) (w : World) :
  Spec.encoder_contract model →
  wcsv = true →
  os_path_join dir (csv_file self) ∉ writable w →
  ∃ w',
    __call__ self model (Some dir) epoch steps w = (Raise OSError, w')
    ∧ fs w' = fs w
    ∧ logs w' = logs w ++ [ LogEvaluating nm (Spec.out_txt_of epoch steps);
                            LogAccSrc2Trg (Spec.acc_src2trg self model * 100);
                            LogAccTrg2Src (Spec.acc_trg2src self model * 100);
                            LogSimilarity ]
    ∧ stdout w'
      = stdout w
          ++ Spec.wrong_match_report self (Spec.similarity_matrix self model)
          ++ Spec.diagnostics (embeddings model src spb bs)
                              (embeddings model trg spb bs)
    ∧ fst (__call__ self model None epoch steps w)
      = Ok ((Spec.acc_src2trg self model + Spec.acc_trg2src self model) / 2)%Q.
Proof.
  intros Hc Hcsv Hno.
  destruct (constructed_fields _ _ _ _ _ _ _ _ _ _ constructed)
    as (Hs & Ht & Hn & Hbs & Hspb & _).
  eexists. split.
  { by apply (constructed_call_unwritable _ _ _ _ _ _ _ _ _ _ _
                constructed nonempty Hc). }
  split; [done|]. split; [simpl; by rewrite Hn|].
  split; [simpl; by rewrite Hs, Ht, Hbs, Hspb|].
  rewrite (constructed_call _ _ _ _ _ _ _ _ _ _ _ constructed nonempty Hc);
    [done | by intros p Hp].
Qed.

(** X16.  An encoder that answers with vectors without entries (width 0)
    makes the evaluation raise [ValueError] in the first sklearn distance,
    which refuses an array without features.  By then the similarity matrix
    is all zeros, so that row 0 alone is a match in either direction: both
    accuracies are 1/N and are logged as such.  No diagnostic line is
    printed, no file is written, and no score is returned. *)
Theorem X16_zero_width_embeddings_raise
        (e1 e2 : list (list R)) (output_path : option string)
        (epoch steps : Z) (w : World) :
  encode model src spb bs false = Ok e1 →
  encode model trg spb bs false = Ok e2 →
  length e1 = length src →
  length e2 = length trg →
  Forall (λ v, v = []) e1 →
  Forall (λ v, v = []) e2 →
  let accuracy := (1 # Pos.of_nat (length src))%Q in
  ∃ w',
    __call__ self model output_path epoch steps w = (Raise ValueError, w')
    ∧ Spec.acc_src2trg self model = accuracy
    ∧ Spec.acc_trg2src self model = accuracy
    ∧ logs w' = logs w ++ [ LogEvaluating nm (Spec.out_txt_of epoch steps);
                            LogAccSrc2Trg (accuracy * 100);
                            LogAccTrg2Src (accuracy * 100);
                            LogSimilarity ]
    ∧ stdout w'
      = stdout w
          ++ Spec.wrong_match_report self (Spec.similarity_matrix self model)
    ∧ fs w' = fs w.
Proof.
  intros He1 He2 Hl1 Hl2 Hz1 Hz2. cbv zeta.
  destruct (constructed_fields _ _ _ _ _ _ _ _ _ _ constructed)
    as (Hs & Ht & Hn & Hbs & Hspb & _ & _ & _ & _ & Hlen).
  assert (Hpos : 0 < length src) by (destruct src; [done|simpl; lia]).
  assert (Hw1 : Forall (λ v : list R, length v = 0) e1)
    by (eapply Forall_impl; [exact Hz1 | by intros v ->]).
  assert (Hw2 : Forall (λ v : list R, length v = 0) e2)
    by (eapply Forall_impl; [exact Hz2 | by intros v ->]).
  rewrite <- Hs, <- Hspb, <- Hbs in He1. rewrite <- Ht, <- Hspb, <- Hbs in He2.
  rewrite <- Hs in Hl1. rewrite <- Ht in Hl2.
  assert (Hne : source_sentences self ≠ []) by (by rewrite Hs).
  assert (Hal : length (source_sentences self) = length (target_sentences self))
    by (by rewrite Hs, Ht).
  assert (Hm : Spec.similarity_matrix self model
               = replicate (length src) (replicate (length src) 0%R)).
  { rewrite (run_similarity_matrix self model e1 e2 0) by done.
    rewrite pytorch_cos_sim_zero_width by done.
    by rewrite Hl1, Hl2, Hs, Ht, <- Hlen. }
  assert (HmT : np_transpose (Spec.similarity_matrix self model)
                = replicate (length src) (replicate (length src) 0%R)).
  { rewrite (run_similarity_matrix_T self model e1 e2 0) by done.
    rewrite pytorch_cos_sim_zero_width by done.
    by rewrite Hl1, Hl2, Hs, Ht, <- Hlen. }
  assert (Ha1 : Spec.acc_src2trg self model = (1 # Pos.of_nat (length src))%Q).
  { unfold Spec.acc_src2trg. rewrite Hm. by apply zero_matrix_accuracy. }
  assert (Ha2 : Spec.acc_trg2src self model = (1 # Pos.of_nat (length src))%Q).
  { unfold Spec.acc_trg2src. rewrite HmT. by apply zero_matrix_accuracy. }
  eexists. split.
  { by apply (run_zero_width self model e1 e2 0). }
  split; [done|]. split; [done|].
  split; [simpl; by rewrite Hn, Ha1, Ha2|]. split; done.
Qed.
End LateFailures.

(** * The further properties on concrete inputs *)

Lemma identity_signs_tops :
  diagonal_tops_rows [[1%R; (-1)%R]; [(-1)%R; 1%R]]
  ∧ diagonal_tops_columns [[1%R; (-1)%R]; [(-1)%R; 1%R]].
Proof.
  split; intros i j d x Hij Hd Hx; unfold entry in *;
    destruct i as [|[|i]], j as [|[|j]]; simpl in Hd, Hx; try done;
    injection Hd as <-; injection Hx as <-; lra.
Qed.

Lemma swapped_signs_beaten :
  diagonal_beaten_in_rows [[(-1)%R; 1%R]; [1%R; (-1)%R]]
  ∧ diagonal_beaten_in_columns [[(-1)%R; 1%R]; [1%R; (-1)%R]].
Proof.
  split; intros i d Hd; unfold entry in *;
    destruct i as [|[|i]]; simpl in Hd; try done; injection Hd as <-.
  - exists 1, 1%R. split; [reflexivity | lra].
  - exists 0, 1%R. split; [reflexivity | lra].
  - exists 1, 1%R. split; [reflexivity | lra].
  - exists 0, 1%R. split; [reflexivity | lra].
Qed.

Lemma nodir_unwritable (file : string) :
  os_path_join "nodir" file ∉ writable empty_world.
Proof. unfold empty_world. cbn [writable]. apply not_elem_of_empty. Qed.

Lemma X1_encoder_calls_witness :
  __call__ (ab_evaluator true false) (failing_encoder RuntimeError)
           None (-1) (-1) empty_world
  = (Raise RuntimeError,
     mkWorld ∅ [] [LogEvaluating "" Colon]
             [mkEncodeCall ["a"; "b"] true 16 false] ∅).
Proof.
  exact (X1_encoder_calls_in_order
           (ab_evaluator true false) (failing_encoder RuntimeError)
           None (-1)%Z (-1)%Z empty_world).
Defined.

Lemma X2_failed_call_witness :
  let self := ab_evaluator false false in
  let model := table_encoder sign_table in
  fst (__call__ self model (Some "nodir") 0 0 empty_world) = Raise OSError
  ∧ fs (snd (__call__ self model (Some "nodir") 0 0 empty_world))
    = fs empty_world.
Proof.
  cbv zeta.
  assert (Hraise : fst (__call__ (ab_evaluator false false)
                                 (table_encoder sign_table)
                                 (Some "nodir") 0 0 empty_world)
                   = Raise OSError).
  { rewrite (constructed_call_unwritable
               _ _ _ _ _ _ _ _ _ _ (table_encoder sign_table)
               (ab_evaluator_constructed false false empty_world)
               ab_nonempty sign_table_contract "nodir" 0%Z 0%Z empty_world
               eq_refl (nodir_unwritable _)).
    reflexivity. }
  split; [exact Hraise|].
  exact (X2_failed_call_writes_nothing
           (ab_evaluator false false) (table_encoder sign_table)
           (Some "nodir") 0%Z 0%Z empty_world OSError Hraise).
Defined.

Lemma X5_unstackable_witness :
  let self := pair_evaluator [] [] false false in
  let model := table_encoder sign_table in
  encode model [] false 16 false = Ok []
  ∧ ¬ (stackable (@nil (list R)) ∧ stackable (@nil (list R)))
  ∧ __call__ self model None (-1) (-1) empty_world
    = (Raise RuntimeError,
       mkWorld ∅ [] [LogEvaluating "" Colon]
               [mkEncodeCall [] false 16 false; mkEncodeCall [] false 16 false]
               ∅).
Proof.
  cbv zeta.
  assert (Hbad : ¬ (stackable (@nil (list R)) ∧ stackable (@nil (list R)))).
  { intros [[Hne _] _]. by apply Hne. }
  split; [reflexivity|]. split; [exact Hbad|].
  exact (X5_unstackable_embeddings_raise
           (pair_evaluator [] [] false false) (table_encoder sign_table)
           None (-1)%Z (-1)%Z empty_world [] [] eq_refl eq_refl Hbad).
Defined.

Lemma X6_returned_score_witness :
  let self := ab_evaluator false false in
  let model := table_encoder sign_table in
  __call__ self model None (-1) (-1) empty_world
  = (Ok (Spec.score self model),
     Spec.world_after self None (model, (-1)%Z, (-1)%Z) empty_world)
  ∧ (0 <= Spec.score self model <= 1)%Q.
Proof.
  cbv zeta.
  pose proof (ab_evaluator_run false false (table_encoder sign_table)
                None (-1)%Z (-1)%Z empty_world sign_table_contract
                (can_write_none _ _)) as Hrun.
  split; [exact Hrun|].
  exact (X6_returned_score_in_unit_interval _ _ _ _ _ _ _ _ Hrun).
Defined.

Lemma X7_diagonal_matrix_witness :
  let self := ab_evaluator false true in
  let model := table_encoder sign_table in
  __init__ ["a"; "b"] ["a"; "b"] false 16 "" true true empty_world
  = (Ok self, empty_world)
  ∧ ["a"; "b"] ≠ []
  ∧ Spec.encoder_contract model
  ∧ Spec.can_write self None empty_world
  ∧ diagonal_tops_rows (Spec.similarity_matrix self model)
  ∧ diagonal_tops_columns (Spec.similarity_matrix self model)
  ∧ (Spec.acc_src2trg self model == 1)%Q
  ∧ (Spec.acc_trg2src self model == 1)%Q
  ∧ ∃ r w', __call__ self model None (-1) (-1) empty_world = (Ok r, w')
            ∧ (r == 1)%Q
            ∧ length (stdout w') = 4.
Proof.
  cbv zeta.
  assert (Hrows : diagonal_tops_rows
                    (Spec.similarity_matrix (ab_evaluator false true)
                                            (table_encoder sign_table)))
    by (rewrite sign_matrix_ab_ab; apply identity_signs_tops).
  assert (Hcols : diagonal_tops_columns
                    (Spec.similarity_matrix (ab_evaluator false true)
                                            (table_encoder sign_table)))
    by (rewrite sign_matrix_ab_ab; apply identity_signs_tops).
  destruct (X7_diagonal_matrix_scores_one
              _ _ _ _ _ _ _ _ _ _ _
              (ab_evaluator_constructed false true empty_world)
              ab_nonempty sign_table_contract None (-1)%Z (-1)%Z empty_world
              (can_write_none _ _) Hrows Hcols)
    as (H1 & H2 & r & w' & Hcall & Hr & Hout).
  split; [reflexivity|]. split; [apply ab_nonempty|].
  split; [apply sign_table_contract|]. split; [apply can_write_none|].
  split; [exact Hrows|].
  split; [exact Hcols|]. split; [exact H1|]. split; [exact H2|].
  exists r, w'. split; [exact Hcall|]. split; [exact Hr|].
  rewrite Hout. reflexivity.
Defined.

Lemma X8_beaten_diagonal_witness :
  let self := pair_evaluator ["a"; "b"] ["b"; "a"] false true in
  let model := table_encoder sign_table in
  __init__ ["a"; "b"] ["b"; "a"] false 16 "" true true empty_world
  = (Ok self, empty_world)
  ∧ ["a"; "b"] ≠ []
  ∧ Spec.encoder_contract model
  ∧ Spec.can_write self None empty_world
  ∧ diagonal_beaten_in_rows (Spec.similarity_matrix self model)
  ∧ diagonal_beaten_in_columns (Spec.similarity_matrix self model)
  ∧ (Spec.acc_src2trg self model == 0)%Q
  ∧ (Spec.acc_trg2src self model == 0)%Q
  ∧ ∃ r w', __call__ self model None (-1) (-1) empty_world = (Ok r, w')
            ∧ (r == 0)%Q
            ∧ stdout w'
              = Spec.wrong_match_block self (Spec.similarity_matrix self model) 0
                ++ Spec.wrong_match_block self
                     (Spec.similarity_matrix self model) 1
                ++ Spec.diagnostics [[1%R]; [(-1)%R]] [[(-1)%R]; [1%R]].
Proof.
  cbv zeta.
  assert (Hrows : diagonal_beaten_in_rows
                    (Spec.similarity_matrix
                       (pair_evaluator ["a"; "b"] ["b"; "a"] false true)
                       (table_encoder sign_table)))
    by (rewrite sign_matrix_ab_ba; apply swapped_signs_beaten).
  assert (Hcols : diagonal_beaten_in_columns
                    (Spec.similarity_matrix
                       (pair_evaluator ["a"; "b"] ["b"; "a"] false true)
                       (table_encoder sign_table)))
    by (rewrite sign_matrix_ab_ba; apply swapped_signs_beaten).
  destruct (X8_beaten_diagonal_scores_zero
              _ _ _ _ _ _ _ _ _ _ _
              (pair_evaluator_constructed_ab_ba false true empty_world)
              ab_nonempty sign_table_contract None (-1)%Z (-1)%Z empty_world
              (can_write_none _ _) Hrows Hcols)
    as (H1 & H2 & r & w' & Hcall & Hr & Hout).
  split; [reflexivity|]. split; [apply ab_nonempty|].
  split; [apply sign_table_contract|]. split; [apply can_write_none|].
  split; [exact Hrows|].
  split; [exact Hcols|]. split; [exact H1|]. split; [exact H2|].
  exists r, w'. split; [exact Hcall|]. split; [exact Hr|].
  rewrite Hout. cbn [stdout empty_world length seq map concat app].
  rewrite app_nil_r, <- app_assoc. reflexivity.
Defined.

Lemma X9_repeated_target_witness :
  let self := pair_evaluator ["a"; "b"] ["a"; "a"] false false in
  let model := table_encoder sign_table in
  __init__ ["a"; "b"] ["a"; "a"] false 16 "" false true empty_world
  = (Ok self, empty_world)
  ∧ ["a"; "b"] ≠ []
  ∧ Spec.encoder_contract model
  ∧ Spec.can_write self None empty_world
  ∧ 0 < 1
  ∧ embeddings model ["a"; "a"] false 16 !! 0 = Some [1%R]
  ∧ embeddings model ["a"; "a"] false 16 !! 1 = Some [1%R]
  ∧ Spec.is_match Rgtb (Spec.similarity_matrix self model) 1 = false
  ∧ (Spec.acc_src2trg self model < 1)%Q
  ∧ ∃ r w', __call__ self model None (-1) (-1) empty_world = (Ok r, w')
            ∧ (r < 1)%Q.
Proof.
  cbv zeta.
  destruct (X9_repeated_target_embedding_loses
              ["a"; "b"] ["a"; "a"] false 16 "" false true
              empty_world empty_world _ (table_encoder sign_table)
              (pair_evaluator_constructed_ab_aa false false empty_world)
              ab_nonempty sign_table_contract 1 0 [1%R]
              None (-1)%Z (-1)%Z empty_world
              (can_write_none _ _) (Nat.lt_0_1) eq_refl eq_refl)
    as (Hmiss & _ & Hacc & r & w' & Hcall & Hr).
  split; [reflexivity|]. split; [apply ab_nonempty|].
  split; [apply sign_table_contract|]. split; [apply can_write_none|].
  split; [apply Nat.lt_0_1|].
  split; [reflexivity|]. split; [reflexivity|]. split; [exact Hmiss|].
  split; [exact Hacc|]. exists r, w'. split; [exact Hcall | exact Hr].
Defined.

Lemma X10_single_pair_witness :
  let self := pair_evaluator ["a"] ["b"] false false in
  let model := table_encoder sign_table in
  __init__ ["a"] ["b"] false 16 "" false true empty_world
  = (Ok self, empty_world)
  ∧ Spec.encoder_contract model
  ∧ Spec.can_write self None empty_world
  ∧ ∃ r w', __call__ self model None (-1) (-1) empty_world = (Ok r, w')
            ∧ (r == 1)%Q.
Proof.
  cbv zeta.
  destruct (X10_single_pair_scores_one
              "a" "b" false 16 "" false true empty_world empty_world _
              (table_encoder sign_table)
              (eq_refl : __init__ ["a"] ["b"] false 16 "" false true empty_world
                         = (Ok (pair_evaluator ["a"] ["b"] false false),
                            empty_world))
              sign_table_contract None (-1)%Z (-1)%Z empty_world
              (can_write_none _ _))
    as (_ & _ & r & w' & Hcall & Hr).
  split; [reflexivity|]. split; [apply sign_table_contract|].
  split; [apply can_write_none|].
  exists r, w'. split; [exact Hcall | exact Hr].
Defined.

Lemma X11_quiet_run_witness :
  let self := pair_evaluator ["a"; "b"] ["b"; "a"] false false in
  let model := table_encoder sign_table in
  __init__ ["a"; "b"] ["b"; "a"] false 16 "" false true empty_world
  = (Ok self, empty_world)
  ∧ ["a"; "b"] ≠ []
  ∧ Spec.encoder_contract model
  ∧ Spec.can_write self None empty_world
  ∧ Spec.mismatches Rgtb (Spec.similarity_matrix self model) = [0; 1]
  ∧ ∃ r w', __call__ self model None (-1) (-1) empty_world = (Ok r, w')
            ∧ length (stdout w') = length (stdout empty_world) + 4.
Proof.
  cbv zeta.
  destruct (X11_quiet_run_prints_four_lines
              _ _ _ _ _ _ _ _ _ _
              (pair_evaluator_constructed_ab_ba false false empty_world)
              ab_nonempty sign_table_contract None (-1)%Z (-1)%Z empty_world
              (can_write_none _ _))
    as (r & w' & c & m & e & d & Hcall & _ & Hlen).
  split; [reflexivity|]. split; [apply ab_nonempty|].
  split; [apply sign_table_contract|]. split; [apply can_write_none|].
  split.
  { rewrite sign_matrix_ab_ba.
    apply (accuracy_none_match _ (proj1 swapped_signs_beaten)). }
  exists r, w'. split; [exact Hcall | exact Hlen].
Defined.

Lemma X15_unwritable_witness :
  let self := ab_evaluator false false in
  let model := table_encoder sign_table in
  __init__ ["a"; "b"] ["a"; "b"] false 16 "" false true empty_world
  = (Ok self, empty_world)
  ∧ ["a"; "b"] ≠ []
  ∧ Spec.encoder_contract model
  ∧ (os_path_join "nodir" (csv_file self) ∉ writable empty_world)
  ∧ ∃ w',
      __call__ self model (Some "nodir") 0 0 empty_world = (Raise OSError, w')
      ∧ fs w' = ∅
      ∧ length (logs w') = 4
      ∧ length (stdout w') = 4.
Proof.
  cbv zeta.
  destruct (X15_unwritable_results_file_raises
              _ _ _ _ _ _ _ _ _ _ (table_encoder sign_table)
              (ab_evaluator_constructed false false empty_world)
              ab_nonempty "nodir" 0%Z 0%Z empty_world
              sign_table_contract eq_refl (nodir_unwritable _))
    as (w' & Hcall & Hfs & Hlogs & Hout & _).
  split; [reflexivity|]. split; [apply ab_nonempty|].
  split; [apply sign_table_contract|]. split; [apply nodir_unwritable|].
  exists w'. split; [exact Hcall|]. split; [exact Hfs|].
  split; [by rewrite Hlogs | by rewrite Hout].
Defined.

Lemma X16_zero_width_witness :
  let self := ab_evaluator false false in
  let model := table_encoder empty_table in
  __init__ ["a"; "b"] ["a"; "b"] false 16 "" false true empty_world
  = (Ok self, empty_world)
  ∧ ["a"; "b"] ≠ []
  ∧ encode model ["a"; "b"] false 16 false = Ok [[]; []]
  ∧ ∃ w',
      __call__ self model None (-1) (-1) empty_world = (Raise ValueError, w')
      ∧ logs w' = [ LogEvaluating "" Colon;
                    LogAccSrc2Trg ((1 # 2) * 100);
                    LogAccTrg2Src ((1 # 2) * 100);
                    LogSimilarity ]
      ∧ stdout w' = []
      ∧ fs w' = ∅.
Proof.
  cbv zeta.
  destruct (X16_zero_width_embeddings_raise
              _ _ _ _ _ _ _ _ _ _ (table_encoder empty_table)
              (ab_evaluator_constructed false false empty_world)
              ab_nonempty [[]; []] [[]; []] None (-1)%Z (-1)%Z empty_world
              eq_refl eq_refl eq_refl eq_refl
              ltac:(repeat constructor) ltac:(repeat constructor))
    as (w' & Hcall & _ & _ & Hlogs & Hout & Hfs).
  split; [reflexivity|]. split; [apply ab_nonempty|]. split; [reflexivity|].
  exists w'. split; [exact Hcall|]. split; [exact Hlogs|].
  split; [exact Hout | exact Hfs].
Defined.



(** ** The first candidate of a report *)

Section RankingHead.
Context {Score : Type}.
Variable gtb : Score → Score → bool.
Hypothesis gtb_irrefl : ∀ x, gtb x x = false.
Hypothesis gtb_trans : ∀ x y z, gtb x y = true → gtb y z = true → gtb x z = true.
Hypothesis gtb_negtrans :
  ∀ x y z, gtb x y = false → gtb y z = false → gtb x z = false.

(** The stable descending sort of a row starts with its first maximum. *)
Lemma sorted_desc_head (row : list Score) (k : nat) :
  np_argmax gtb row = Ok k →
  ∃ x rest, row !! k = Some x
            ∧ sorted_desc gtb (enumerate row) = (k, x) :: rest
            ∧ S (length rest) = length row.
Proof using gtb_irrefl gtb_trans gtb_negtrans.
  intros Hk.
  pose proof (np_argmax_first_max gtb gtb_irrefl gtb_trans gtb_negtrans
                row k Hk) as Hfirst.
  pose proof (sorted_desc_sorted gtb gtb_irrefl gtb_trans gtb_negtrans
                (enumerate row) (enumerate_increasing row)) as Hsorted.
  pose proof (sorted_desc_perm gtb (enumerate row)) as Hperm.
  assert (Hlen : length (sorted_desc gtb (enumerate row)) = length row).
  { rewrite Hperm. unfold enumerate, range.
    rewrite length_zip_with, length_seq. lia. }
  destruct (sorted_desc gtb (enumerate row)) as [|c rest] eqn:Hrank.
  { destruct row; [done|]. simpl in Hlen. lia. }
  assert (Helem : ∀ q, q ∈ c :: rest ↔ row !! q.1 = Some q.2).
  { intros q. rewrite <- Hrank. apply sorted_desc_enumerate_elem. }
  apply StronglySorted_inv in Hsorted as [_ Hhead].
  rewrite Forall_forall in Hhead.
  assert (Hc : row !! c.1 = Some c.2) by (apply Helem; left).
  assert (Hfirst' : Spec.first_max_index gtb row c.1).
  { exists c.2. split; [done|]. split.
    - intros j xj Hj.
      assert (Hin : (j, xj) ∈ c :: rest) by by apply Helem.
      apply elem_of_cons in Hin as [<- | Hin]; [apply gtb_irrefl|].
      by destruct (Hhead _ Hin) as [Hle _].
    - intros j xj Hlt Hj.
      assert (Hin : (j, xj) ∈ c :: rest) by by apply Helem.
      apply elem_of_cons in Hin as [<- | Hin]; [simpl in Hlt; lia|].
      destruct (Hhead _ Hin) as [_ Hidx]. simpl in Hidx.
      destruct (gtb c.2 xj); [done|]. specialize (Hidx eq_refl). lia. }
  pose proof (first_max_index_unique gtb row _ _ Hfirst Hfirst') as ->.
  exists c.2, rest. split; [done|]. split; [by destruct c|].
  simpl in Hlen. lia.
Qed.
End RankingHead.

(** X14.  A report of a wrong match lists first the candidate it announces:
    after the line with [i] and [j], the two sentences and the two scores,
    the first candidate line is target [j] with the winning score, and the
    candidate lines number five, or as many as the row has entries if fewer. *)
Theorem X14_report_starts_with_the_argmax
        (self : TranslationEvaluator) (cos_sims : list (list R))
        (row : list R) (i j : nat) (s t : string) (own : R) (w : World) :
  cos_sims !! i = Some row →
  np_argmax Rgtb row = Ok j →
  i ≠ j →
  source_sentences self !! i = Some s →
  target_sentences self !! j = Some t →
  row !! i = Some own →
  length row = length (target_sentences self) →
  ∃ top rest,
    row !! j = Some top
    ∧ report_wrong_match self cos_sims i j w
      = (Ok tt,
         add_stdout ([ PMismatch i j "INCORRECT"; PSrc s; PTrg t;
                       PScores top own; PCandidate j top t ] ++ rest) w)
    ∧ S (length rest) = min 5 (length row).
Proof.
  intros Hrow Hj Hij Hs Ht Hown Hlen.
  destruct (sorted_desc_head Rgtb Rgtb_irrefl Rgtb_trans Rgtb_negtrans row j Hj)
    as (top & ranked & Htop & Hrank & Hcount).
  exists top,
    (map (λ c, PCandidate c.1 c.2 (default "" (target_sentences self !! c.1)))
         (take 4 ranked)).
  split; [done|]. split.
  - rewrite (report_wrong_match_run self cos_sims row i j w Hrow Hj Hij).
    + unfold Spec.wrong_match_block. rewrite Hrow. cbv zeta.
      cbn [from_option Datatypes.id]. rewrite Hj, Hrank, Hs, Ht, Htop, Hown.
      simpl. by rewrite Ht.
    + by eapply lookup_lt_Some.
    + by eapply lookup_lt_Some.
    + done.
  - rewrite length_map, length_take. lia.
Qed.

Lemma X14_report_witness :
  let self := pair_evaluator ["a"; "b"] ["b"; "a"] false true in
  let cos_sims := [[(-1)%R; 1%R]; [1%R; (-1)%R]] in
  cos_sims !! 0 = Some [(-1)%R; 1%R]
  ∧ np_argmax Rgtb [(-1)%R; 1%R] = Ok 1
  ∧ 0 ≠ 1
  ∧ source_sentences self !! 0 = Some "a"
  ∧ target_sentences self !! 1 = Some "a"
  ∧ [(-1)%R; 1%R] !! 0 = Some (-1)%R
  ∧ length [(-1)%R; 1%R] = length (target_sentences self)
  ∧ ∃ top rest,
      [(-1)%R; 1%R] !! 1 = Some top
      ∧ report_wrong_match self cos_sims 0 1 empty_world
        = (Ok tt,
           add_stdout ([ PMismatch 0 1 "INCORRECT"; PSrc "a"; PTrg "a";
                         PScores top (-1); PCandidate 1 top "a" ] ++ rest)
                      empty_world)
      ∧ S (length rest) = min 5 (length [(-1)%R; 1%R]).
Proof.
  cbv zeta.
  assert (Hargmax : np_argmax Rgtb [(-1)%R; 1%R] = Ok 1).
  { unfold np_argmax. simpl. compare_scores. reflexivity. }
  split; [reflexivity|]. split; [exact Hargmax|]. split; [discriminate|].
  split; [reflexivity|]. split; [reflexivity|]. split; [reflexivity|].
  split; [reflexivity|].
  apply (X14_report_starts_with_the_argmax
           (pair_evaluator ["a"; "b"] ["b"; "a"] false true)
           [[(-1)%R; 1%R]; [1%R; (-1)%R]] [(-1)%R; 1%R] 0 1 "a" "a" (-1)%R
           empty_world eq_refl Hargmax
           ltac:(discriminate) eq_refl eq_refl eq_refl eq_refl).
Defined.
